(** * Adaptive learning platform: concept ordering, time utilities,
      mastery classification, adaptive question mix, file validation

    A shallow embedding of the client-side post-processing code of the
    services
      - [conceptExtractionService.js]  (pathway creation, dependency sort,
        time parsing and formatting, difficulty distribution),
      - [questionGenerationService.js] (weak and strong areas, difficulty
        adjustment, adaptive mix assembly, Fisher-Yates shuffle),
      - [fileAnalysisService.js]       (file validation),
    of the post-processing of concept extraction and the duration of a
    study plan, and of the state handlers of the upload page and of the
    assessment page that call these services, followed by the
    properties proved about it.

    Modelling conventions.
      - A JavaScript number that counts positions, lengths or seconds of
        the session clock is a [Z]. A number read from a text or added
        up from such readings is a [Js.number]: an integer-valued
        double, an infinity or [NaN], with the rounding of the language
        written out.
      - A JavaScript string is a [string], each [ascii] standing for one
        code unit below 256.
      - An object used as a dictionary is a [gmap] of its own properties;
        a read by key goes through [Js.get], which also finds the
        members every object inherits from [Object.prototype].
      - An array is a [list]; an array of concept objects is a list of
        references ([loc]) into a read-only store of concept records, so
        that [Array.prototype.includes] compares identities as in the
        source.
      - The AI endpoint, the clock and [Math.random] are oracles collected
        in a [World]. *)

From Stdlib Require Import ZArith Ascii String Sorted.
From stdpp Require Import gmap strings list pretty.

Local Open Scope string_scope.
Local Open Scope Z_scope.
Local Open Scope list_scope.

(** ** JavaScript primitives *)

Module Js.

(** [s.startsWith(p)], used by [includes] below. *)
Fixpoint startsWith (p s : string) : bool :=
  match p, s with
  | EmptyString, _ => true
  | String a p', String b s' => if Ascii.eqb a b then startsWith p' s' else false
  | String _ _, EmptyString => false
  end.

(** [s.includes(p)]: [p] occurs in [s] as a contiguous substring. *)
Fixpoint includes (s p : string) : bool :=
  if startsWith p s then true
  else match s with
       | EmptyString => false
       | String _ s' => includes s' p
       end.

(** [String.prototype.toLowerCase] on code units below 256: the ASCII
    capitals and the Latin-1 capitals (192..222 except the
    multiplication sign 215) move up by 32. *)
Definition lower_char (c : ascii) : ascii :=
  let n := nat_of_ascii c in
  if ((65 <=? n) && (n <=? 90))%nat then ascii_of_nat (n + 32)
  else if ((192 <=? n) && (n <=? 222) && negb (n =? 215))%nat then ascii_of_nat (n + 32)
  else c.

Fixpoint toLowerCase (s : string) : string :=
  match s with
  | EmptyString => EmptyString
  | String c s' => String (lower_char c) (toLowerCase s')
  end.

(** The character class [\d]: the ten ASCII digits. *)
Definition is_digit (c : ascii) : bool :=
  let n := nat_of_ascii c in ((48 <=? n) && (n <=? 57))%nat.

(** The character class [\s] on code units below 256: tab, line feed,
    vertical tab, form feed, carriage return, space, no-break space. *)
Definition is_space (c : ascii) : bool :=
  let n := nat_of_ascii c in
  ((9 <=? n) && (n <=? 13) || (n =? 32) || (n =? 160))%nat.

(** A pattern character under the [i] flag: a code unit below 256
    matches an ASCII letter of the pattern exactly when it is that
    letter in either case. *)
Definition is_letter_i (p : ascii) (c : ascii) : bool :=
  let n := nat_of_ascii c in
  let m := nat_of_ascii p in
  ((n =? m) || ((65 <=? n) && (n <=? 90) && (n + 32 =? m)))%nat.

Definition digit_value (c : ascii) : Z := Z.of_nat (nat_of_ascii c) - 48.

(** The first [n] code units of [s]. *)
Fixpoint prefix (n : nat) (s : string) : string :=
  match n, s with
  | S n', String c s' => String c (prefix n' s')
  | _, _ => EmptyString
  end.

(** *** Objects read by key

    An object literal, and an object parsed from JSON, inherits the
    members of [Object.prototype]. A read [o[key]] answers the own
    property when there is one, the inherited member when [key] is one
    of these names, and [undefined] otherwise. *)
Definition objectPrototypeKeys : list string :=
  ["constructor"; "__defineGetter__"; "__defineSetter__"; "hasOwnProperty";
   "__lookupGetter__"; "__lookupSetter__"; "isPrototypeOf"; "propertyIsEnumerable";
   "toString"; "valueOf"; "__proto__"; "toLocaleString"].

Definition inherited (key : string) : bool := existsb (String.eqb key) objectPrototypeKeys.

(** What a read by key finds. An inherited member is a function (for
    [__proto__], the prototype object): truthy, not a number, without
    properties of the embedded records, and identical only to itself. *)
Inductive found (A : Type) : Type :=
| Own (a : A)
| Inherited (key : string)
| Absent.
Arguments Own {A} a.
Arguments Inherited {A} key.
Arguments Absent {A}.

Definition get {A : Type} (o : gmap string A) (key : string) : found A :=
  match o !! key with
  | Some a => Own a
  | None => if inherited key then Inherited key else Absent
  end.

(** *** Numbers

    The numbers of the time utilities: an integer-valued double, an
    infinity or [NaN]. [Num z] holds the integer [z]; the two zeros are
    not told apart (they print and compare alike). *)
Inductive number : Type :=
| Num (z : Z)
| PosInf
| NegInf
| NaN.

(** [a / b] rounded to the nearest integer, a tie going to the even
    one; [0 <= a], [0 < b]. *)
Definition round_half_even (a b : Z) : Z :=
  let d := a / b in
  let r := a mod b in
  if 2 * r <? b then d
  else if b <? 2 * r then d + 1
  else if Z.even d then d else d + 1.

(** The double nearest to the natural number [z], ties to the even
    significand of 53 bits; it is [2 ^ 1024] where the language answers
    [Infinity]. *)
Definition nearest (z : Z) : Z :=
  let e := Z.max 0 (Z.log2 z - 52) in
  round_half_even z (2 ^ e) * 2 ^ e.

(** The number value of a mathematical integer. *)
Definition of_Z (z : Z) : number :=
  let v := nearest (Z.abs z) in
  if 2 ^ 1024 <=? v then (if z <? 0 then NegInf else PosInf)
  else Num (Z.sgn z * v).

(** [a + b] *)
Definition add (a b : number) : number :=
  match a, b with
  | Num x, Num y => of_Z (x + y)
  | NaN, _ | _, NaN => NaN
  | PosInf, NegInf | NegInf, PosInf => NaN
  | PosInf, _ | _, PosInf => PosInf
  | NegInf, _ | _, NegInf => NegInf
  end.

(** [a - b] *)
Definition sub (a b : number) : number :=
  match a, b with
  | Num x, Num y => of_Z (x - y)
  | NaN, _ | _, NaN => NaN
  | PosInf, PosInf | NegInf, NegInf => NaN
  | PosInf, _ | _, NegInf => PosInf
  | NegInf, _ | _, PosInf => NegInf
  end.

(** [a * b] *)
Definition mul (a b : number) : number :=
  match a, b with
  | Num x, Num y => of_Z (x * y)
  | NaN, _ | _, NaN => NaN
  | Num x, PosInf | PosInf, Num x =>
      if x =? 0 then NaN else if 0 <? x then PosInf else NegInf
  | Num x, NegInf | NegInf, Num x =>
      if x =? 0 then NaN else if 0 <? x then NegInf else PosInf
  | PosInf, PosInf | NegInf, NegInf => PosInf
  | PosInf, NegInf | NegInf, PosInf => NegInf
  end.

(** [a < b]: false when either side is [NaN]. *)
Definition lt (a b : number) : bool :=
  match a, b with
  | NaN, _ | _, NaN => false
  | Num x, Num y => x <? y
  | NegInf, NegInf => false
  | NegInf, _ => true
  | _, NegInf => false
  | PosInf, _ => false
  | Num _, PosInf => true
  end.

(** [a > b] *)
Definition gt (a b : number) : bool := lt b a.

(** [a >= b]: false when either side is [NaN]. *)
Definition ge (a b : number) : bool :=
  match a, b with
  | NaN, _ | _, NaN => false
  | _, _ => negb (lt a b)
  end.

(** [a === b] on numbers. *)
Definition strict_eq (a b : number) : bool :=
  match a, b with
  | Num x, Num y => x =? y
  | PosInf, PosInf | NegInf, NegInf => true
  | _, _ => false
  end.

(** A property that may be [undefined], as an operand of arithmetic or
    of a comparison with a number: [undefined] converts to [NaN] (and
    is not [===] to any number, as [NaN] is not). *)
Definition operand (v : option Z) : number :=
  match v with
  | Some z => Num z
  | None => NaN
  end.

(** [Math.floor] of the double nearest to [x / y], for [0 <= x] and
    [0 < y]: the quotient is rounded to 53 significant bits before it
    is floored. *)
Definition quotient_floor (x y : Z) : Z :=
  if x <? y then 0
  else
    let e := Z.log2 (x / y) - 52 in
    if 0 <=? e then round_half_even x (y * 2 ^ e) * 2 ^ e
    else round_half_even (x * 2 ^ (- e)) y / 2 ^ (- e).

(** The ceiling of the same double. *)
Definition quotient_ceil (x y : Z) : Z :=
  if x =? 0 then 0
  else if x <? y then 1
  else
    let e := Z.log2 (x / y) - 52 in
    if 0 <=? e then round_half_even x (y * 2 ^ e) * 2 ^ e
    else - (- round_half_even (x * 2 ^ (- e)) y / 2 ^ (- e)).

(** [Math.floor(a / d)] for a positive integer literal [d]. *)
Definition floor_div (a : number) (d : positive) : number :=
  match a with
  | Num x =>
      if 0 <=? x then Num (quotient_floor x (Z.pos d))
      else Num (- quotient_ceil (- x) (Z.pos d))
  | other => other
  end.

(** [a % d] for a positive integer literal [d]: exact, with the sign
    of [a]. *)
Definition rem (a : number) (d : positive) : number :=
  match a with
  | Num x => Num (x `rem` Z.pos d)
  | _ => NaN
  end.

(** The decimal digits of the text of a natural number [x] from 2^53
    on: the multiple of the highest power of ten, [10 ^ j], that the
    language reads back as [x]; of two such multiples the one nearer
    to [x]. The search starts at the power [j]. *)
Fixpoint shortest (j : nat) (x : Z) : Z * nat :=
  let p := 10 ^ Z.of_nat j in
  let lo := x / p * p in
  let hi := lo + p in
  let okLo := (0 <? lo) && (nearest lo =? x) in
  let okHi := nearest hi =? x in
  let pick :=
    if okLo && okHi then
      (if (x - lo <? hi - x) || ((x - lo =? hi - x) && Z.even (x / p))
       then Some lo else Some hi)
    else if okLo then Some lo
    else if okHi then Some hi
    else None in
  match pick, j with
  | Some y, _ => (y, j)
  | None, S j' => shortest j' x
  | None, O => (x, O)
  end.

(** The text of a natural number: its decimal numeral below 2^53;
    from there on the shortest digits that read back as the number,
    filled up with zeros below 10^21 and in exponent form from 10^21
    on. *)
Definition naturalToString (x : Z) : string :=
  if x <? 2 ^ 53 then pretty x
  else
    let '(y, j) := shortest (String.length (pretty x)) x in
    let text := pretty y in
    let n := String.length text in
    if (n <=? 21)%nat then text
    else
      let exponent := "e+" +:+ pretty (Z.of_nat n - 1) in
      match prefix (n - j) text with
      | String d EmptyString => String d exponent
      | String d more => String d ("." +:+ more +:+ exponent)
      | EmptyString => text
      end.

(** Number to string conversion of template literals. *)
Definition numberToString (x : number) : string :=
  match x with
  | Num z => if z <? 0 then "-" +:+ naturalToString (- z) else naturalToString z
  | PosInf => "Infinity"
  | NegInf => "-Infinity"
  | NaN => "NaN"
  end.

(** What [Array.prototype.sort] makes of the value its comparator
    returns: [NaN] counts as 0, otherwise the sign decides. *)
Definition sortCompare (v : number) : Z :=
  match v with
  | Num z => z
  | PosInf => 1
  | NegInf => -1
  | NaN => 0
  end.

(** The integer a run of decimal digits denotes, read left to right
    with accumulator [acc]; [seen] records whether a digit was read. *)
Fixpoint parseInt_digits (s : string) (acc : Z) (seen : bool) : option Z :=
  match s with
  | String c s' =>
      if is_digit c then parseInt_digits s' (10 * acc + digit_value c) true
      else if seen then Some acc else None
  | EmptyString => if seen then Some acc else None
  end.

(** [parseInt(s)] with no radix, on a string that has no leading white
    space, sign or [0x] prefix (capture group 1 of the time pattern is
    a run of digits): the number value of the integer the leading
    digits denote, [NaN] when there is none. The language lets an
    implementation read the digits after the twentieth as zeros; the
    value here is the correctly rounded one. *)
Definition parseInt (s : string) : number :=
  match parseInt_digits s 0 false with
  | Some mathInt => of_Z mathInt
  | None => NaN
  end.

(** Number to string conversion of template literals, for a position,
    a length or a count of seconds or of days: an integer far below
    2^53, written as its decimal numeral. *)
Definition toString (n : Z) : string := pretty n.

(** *** Regular expressions

    The fragment of the pattern language that the time pattern uses,
    executed by backtracking as the language's matcher does: greedy
    repetition tries the longest run first, alternation tries its
    left branch first, a group records the text it consumed. *)
Inductive regex : Type :=
| Eps
| Class (p : ascii -> bool)
| Star (p : ascii -> bool)
| Plus (p : ascii -> bool)
| Seq (r1 r2 : regex)
| Alt (r1 r2 : regex)
| Group (n : nat) (r : regex).

(** Capture array: index to captured text ([None] is [undefined]). *)
Definition captures := nat -> option string.

Definition no_captures : captures := fun _ => None.

Definition set_capture (n : nat) (v : string) (c : captures) : captures :=
  fun k => if (k =? n)%nat then Some v else c k.

(** The text consumed between input [s] and its suffix [rest]. *)
Definition consumed (s rest : string) : string :=
  prefix (String.length s - String.length rest) s.

Section Matcher.
Context {R : Type}.

(** Greedy [p*] followed by continuation [k]. *)
Fixpoint star (p : ascii -> bool) (s : string) (k : string -> option R) : option R :=
  match s with
  | String c s' =>
      if p c then
        match star p s' k with
        | Some r => Some r
        | None => k s
        end
      else k s
  | EmptyString => k s
  end.

Fixpoint run (r : regex) (s : string) (c : captures)
         (k : string -> captures -> option R) : option R :=
  match r with
  | Eps => k s c
  | Class p =>
      match s with
      | String a s' => if p a then k s' c else None
      | EmptyString => None
      end
  | Star p => star p s (fun s' => k s' c)
  | Plus p =>
      match s with
      | String a s' => if p a then star p s' (fun s'' => k s'' c) else None
      | EmptyString => None
      end
  | Seq r1 r2 => run r1 s c (fun s' c' => run r2 s' c' k)
  | Alt r1 r2 =>
      match run r1 s c k with
      | Some x => Some x
      | None => run r2 s c k
      end
  | Group n r' => run r' s c (fun s' c' => k s' (set_capture n (consumed s s') c'))
  end.
End Matcher.

(** A match anchored at the start of [s]; capture 0 is the whole match. *)
Definition match_here (r : regex) (s : string) : option captures :=
  run (Group 0 r) s no_captures (fun _ c => Some c).

(** [s.match(r)] for a pattern without the [g] flag: the match at the
    leftmost position that has one. *)
Fixpoint match_ (r : regex) (s : string) : option captures :=
  match match_here r s with
  | Some c => Some c
  | None =>
      match s with
      | EmptyString => None
      | String _ s' => match_ r s'
      end
  end.

(** A literal word of the pattern under the [i] flag. *)
Fixpoint word_i (w : string) : regex :=
  match w with
  | EmptyString => Eps
  | String a w' => Seq (Class (is_letter_i a)) (word_i w')
  end.

(** [a || b] on numbers: [0] is falsy. *)
Definition or_num (a : option Z) (b : Z) : Z :=
  match a with
  | Some v => if v =? 0 then b else v
  | None => b
  end.

(** [s.split(sep)[0]]: the text before the first separator. *)
Fixpoint split_head (sep : ascii) (s : string) : string :=
  match s with
  | EmptyString => EmptyString
  | String c s' => if Ascii.eqb c sep then EmptyString else String c (split_head sep s')
  end.

(** *** Arrays *)
Section Sort.
Context {A : Type} (cmp : A -> A -> Z).

(** [x] goes in front of the first element it does not exceed. *)
Fixpoint insert_sorted (x : A) (l : list A) : list A :=
  match l with
  | [] => [x]
  | y :: l' => if cmp x y <=? 0 then x :: y :: l' else y :: insert_sorted x l'
  end.

(** [Array.prototype.sort(cmp)], [cmp] read through [sortCompare]. The
    language requires the sort to be stable, so for a consistent
    comparator the result is the one sorted arrangement that keeps
    equal elements in their input order; insertion from the right
    computes it. For a comparator that is not consistent the language
    leaves the order to the implementation, and this is one such
    order. *)
Fixpoint sort (l : list A) : list A :=
  match l with
  | [] => []
  | x :: l' => insert_sorted x (sort l')
  end.
End Sort.

(** [a.flat()] on the array of values [Promise.all] is fulfilled with:
    an array is replaced by its elements, [undefined] stays as an
    element. *)
Definition flat {A : Type} (a : list (option (list A))) : list (option A) :=
  concat (map (fun v => match v with
                        | Some l => Some <$> l
                        | None => [None]
                        end) a).

End Js.

(** ** conceptExtractionService.js: time utilities *)

(** The pattern [/(\d+)\s*(min|hour|hr)/i]. *)
Definition time_pattern : Js.regex :=
  Js.Seq (Js.Group 1 (Js.Plus Js.is_digit))
    (Js.Seq (Js.Star Js.is_space)
       (Js.Group 2 (Js.Alt (Js.word_i "min")
                      (Js.Alt (Js.word_i "hour") (Js.word_i "hr"))))).

(** [parseTimeToMinutes(timeString)]; the argument is [None] when it is
    [undefined] or [null]. *)
Definition parseTimeToMinutes (timeString : option string) : Js.number :=
  match timeString with
  | None => Js.Num 15
  | Some EmptyString => Js.Num 15
  | Some s =>
      match Js.match_ time_pattern s with
      | None => Js.Num 15
      | Some m =>
          let value := Js.parseInt (default "" (m 1%nat)) in
          let unit := Js.toLowerCase (default "" (m 2%nat)) in
          if Js.includes unit "hour" || Js.includes unit "hr"
          then Js.mul value (Js.Num 60)
          else value
      end
  end.

(** [formatMinutesToTime(minutes)]. *)
Definition formatMinutesToTime (minutes : Js.number) : string :=
  if Js.lt minutes (Js.Num 60) then Js.numberToString minutes +:+ " min"
  else
    let hours := Js.floor_div minutes 60 in
    let remainingMinutes := Js.rem minutes 60 in
    if Js.strict_eq remainingMinutes (Js.Num 0)
    then Js.numberToString hours +:+ " hour" +:+
           (if Js.gt hours (Js.Num 1) then "s" else "")
    else Js.numberToString hours +:+ "h " +:+
           Js.numberToString remainingMinutes +:+ "min".

(** ** conceptExtractionService.js: concepts and the learning pathway *)

Module Concept.
(** A concept object as [extractConcepts] returns it. *)
Record t : Type := mk {
  id : string;
  name : string;
  description : string;
  difficulty : string;
  prerequisites : option (list string);
  subConcepts : option (list string);
  examples : option (list string);
  misconceptions : option (list string);
  keyPrinciples : option (list string);
  estimatedTime : option string;
  masteryLevel : Z;
  attempts : Z;
  correctAnswers : Z
}.
End Concept.

(** Object identity of a concept, and the store of concept objects. No
    embedded function writes to a concept object. *)
Definition loc := nat.
Definition store := loc -> Concept.t.

(** The table [difficultyOrder] of [sortConceptsByDependency]. *)
Definition difficultyOrder : gmap string Z :=
  <["Beginner" := 1]> (<["Intermediate" := 2]> (<["Advanced" := 3]> ∅)).

(** [difficultyOrder?.[c?.difficulty] || 2]: the rank on the left, or
    on the right the name of the member of [Object.prototype] that the
    read finds when the difficulty is such a name. *)
Definition difficultyEntry (c : Concept.t) : Z + string :=
  match Js.get difficultyOrder (Concept.difficulty c) with
  | Js.Own rank => inl (if rank =? 0 then 2 else rank)
  | Js.Inherited key => inr key
  | Js.Absent => inl 2
  end.

(** [c?.prerequisites?.length || 0] *)
Definition prereqCount (c : Concept.t) : Z :=
  Js.or_num ((fun l => Z.of_nat (length l)) <$> Concept.prerequisites c) 0.

(** The comparator passed to [sort] in [sortConceptsByDependency]:
    [diffA !== diffB] holds of any two different values, [diffA - diffB]
    is [NaN] unless both are numbers. *)
Definition compareByDependency (a b : Concept.t) : Js.number :=
  let diffA := difficultyEntry a in
  let diffB := difficultyEntry b in
  if negb (bool_decide (diffA = diffB)) then
    match diffA, diffB with
    | inl x, inl y => Js.sub (Js.Num x) (Js.Num y)
    | _, _ => Js.NaN
    end
  else
    let prereqA := prereqCount a in
    let prereqB := prereqCount b in
    Js.sub (Js.Num prereqA) (Js.Num prereqB).

(** [sortConceptsByDependency(concepts)]. The source sorts the argument
    array in place and returns it; the result is its new content. *)
Definition sortConceptsByDependency (h : store) (concepts : list loc) : list loc :=
  Js.sort (fun a b => Js.sortCompare (compareByDependency (h a) (h b))) concepts.

(** [findDependencies(concept, allConcepts)] *)
Definition findDependencies (h : store) (concept : Concept.t) (allConcepts : list loc)
  : list string :=
  match Concept.prerequisites concept with
  | None | Some [] => []
  | Some prereqs =>
      map (fun dep => Concept.id (h dep))
        (List.filter
           (fun otherConcept =>
              negb (String.eqb (Concept.id (h otherConcept)) (Concept.id concept)) &&
              existsb
                (fun prereq =>
                   Js.includes (Js.toLowerCase (Concept.name (h otherConcept)))
                     (Js.toLowerCase prereq)
                   || match Concept.subConcepts (h otherConcept) with
                      | Some subs =>
                          existsb
                            (fun sub =>
                               Js.includes (Js.toLowerCase sub) (Js.toLowerCase prereq))
                            subs
                      | None => false
                      end)
                prereqs)
           allConcepts)
  end.

(** The fixed-shape tally of [calculateDifficultyDistribution]. *)
Record Distribution : Type := {
  Beginner : Z;
  Intermediate : Z;
  Advanced : Z
}.

(** [calculateDifficultyDistribution(concepts)]: a concept whose
    difficulty is none of the three keys is not counted. *)
Definition calculateDifficultyDistribution (h : store) (concepts : list loc)
  : Distribution :=
  fold_left
    (fun distribution concept =>
       let d := Concept.difficulty (h concept) in
       if String.eqb d "Beginner" then
         {| Beginner := Beginner distribution + 1;
            Intermediate := Intermediate distribution;
            Advanced := Advanced distribution |}
       else if String.eqb d "Intermediate" then
         {| Beginner := Beginner distribution;
            Intermediate := Intermediate distribution + 1;
            Advanced := Advanced distribution |}
       else if String.eqb d "Advanced" then
         {| Beginner := Beginner distribution;
            Intermediate := Intermediate distribution;
            Advanced := Advanced distribution + 1 |}
       else distribution)
    concepts
    {| Beginner := 0; Intermediate := 0; Advanced := 0 |}.

(** An element of the pathway: the concept's own fields and the three
    fields the pathway adds. *)
Record PathwayItem : Type := {
  concept : Concept.t;
  order : Z;
  isUnlocked : bool;
  dependencies : list string
}.

(** The object [createLearningPathway] returns; the early return leaves
    the last two fields out. *)
Record LearningPathway : Type := {
  pathway : list PathwayItem;
  totalEstimatedTime : string;
  totalConcepts : option Z;
  difficultyDistribution : option Distribution
}.

(** [createLearningPathway(concepts)]; the argument is [None] when it is
    [undefined] or [null]. *)
Definition createLearningPathway (h : store) (concepts : option (list loc))
  : LearningPathway :=
  match concepts with
  | None | Some [] =>
      {| pathway := []; totalEstimatedTime := "0 min";
         totalConcepts := None; difficultyDistribution := None |}
  | Some cs =>
      let sortedConcepts := sortConceptsByDependency h cs in
      let totalMinutes :=
        fold_left
          (fun total c =>
             let time := parseTimeToMinutes (Concept.estimatedTime (h c)) in
             Js.add total time)
          sortedConcepts (Js.Num 0) in
      let totalEstimatedTime := formatMinutesToTime totalMinutes in
      {| pathway :=
           imap (fun index c =>
                   {| concept := h c;
                      order := Z.of_nat index + 1;
                      isUnlocked := (index =? 0)%nat;
                      dependencies := findDependencies h (h c) sortedConcepts |})
             sortedConcepts;
         totalEstimatedTime := totalEstimatedTime;
         totalConcepts := Some (Z.of_nat (length sortedConcepts));
         difficultyDistribution :=
           Some (calculateDifficultyDistribution h sortedConcepts) |}
  end.

(** ** questionGenerationService.js *)

Module Perf.
(** An entry of the [userPerformance] map, keyed by concept id. *)
Record t : Type := mk {
  masteryLevel : Z;
  attempts : Z
}.

(** The literal the source falls back to for a missing entry. *)
Definition missing : t := {| masteryLevel := 0; attempts := 0 |}.
End Perf.

(** [userPerformance?.[concept?.id] || { masteryLevel: 0, attempts: 0 }]:
    the record kept under the id; the fallback when the read finds
    nothing; and [None] when the id names a member of
    [Object.prototype] and no record is kept under it, for the read
    then finds that member, which is truthy and has neither field. *)
Definition performanceOf (userPerformance : gmap string Perf.t) (c : Concept.t)
  : option Perf.t :=
  match Js.get userPerformance (Concept.id c) with
  | Js.Own record => Some record
  | Js.Inherited _ => None
  | Js.Absent => Some Perf.missing
  end.

(** [performance.masteryLevel] and [performance.attempts]: [undefined]
    on an inherited member. *)
Definition masteryLevelOf (performance : option Perf.t) : Js.number :=
  Js.operand (Perf.masteryLevel <$> performance).

Definition attemptsIn (performance : option Perf.t) : Js.number :=
  Js.operand (Perf.attempts <$> performance).

(** [identifyWeakAreas(concepts, userPerformance)] *)
Definition identifyWeakAreas (h : store) (concepts : list loc)
           (userPerformance : gmap string Perf.t) : list loc :=
  Js.sort
    (fun a b =>
       let perfA := performanceOf userPerformance (h a) in
       let perfB := performanceOf userPerformance (h b) in
       Js.sortCompare (Js.sub (masteryLevelOf perfA) (masteryLevelOf perfB)))
    (List.filter
       (fun concept =>
          let performance := performanceOf userPerformance (h concept) in
          Js.lt (masteryLevelOf performance) (Js.Num 70)
          || Js.strict_eq (attemptsIn performance) (Js.Num 0))
       concepts).

(** [identifyStrongAreas(concepts, userPerformance)] *)
Definition identifyStrongAreas (h : store) (concepts : list loc)
           (userPerformance : gmap string Perf.t) : list loc :=
  Js.sort
    (fun a b =>
       let perfA := performanceOf userPerformance (h a) in
       let perfB := performanceOf userPerformance (h b) in
       Js.sortCompare (Js.sub (masteryLevelOf perfB) (masteryLevelOf perfA)))
    (List.filter
       (fun concept =>
          let performance := performanceOf userPerformance (h concept) in
          Js.ge (masteryLevelOf performance) (Js.Num 80))
       concepts).

(** [adjustDifficultyForPerformance(concept, userPerformance)] *)
Definition adjustDifficultyForPerformance (c : Concept.t)
           (userPerformance : gmap string Perf.t) : string :=
  let performance := performanceOf userPerformance c in
  if Js.lt (masteryLevelOf performance) (Js.Num 40) then "Beginner"
  else if Js.lt (masteryLevelOf performance) (Js.Num 70) then "Intermediate"
  else "Advanced".

(** The options object of [generateQuestionsForConcept]; [None] is a key
    left out, which the destructuring replaces by its default. *)
Record GenOptions : Type := {
  questionCount : option Z;
  questionTypes : option (list string);
  difficultyLevel : option string;
  includeExplanations : option bool
}.

(** What the prompt sent to the AI endpoint is built from. *)
Record Prompt : Type := {
  promptCount : Z;
  promptConcept : Concept.t;
  promptDifficulty : string;
  promptTypes : list string
}.

(** An answer option of a multiple-choice question. *)
Record AnswerOption : Type := {
  optionId : string;
  optionText : string;
  optionExplanation : option string
}.

Module Raw.
(** A question as the AI response carries it. *)
Record t : Type := mk {
  id : option string;
  type : string;
  difficulty : string;
  question : string;
  context : option string;
  options : option (list AnswerOption);
  correctAnswer : string;
  sampleAnswers : option (list string);
  explanation : option string;
  learningObjective : option string;
  bloomsLevel : option string;
  estimatedTime : option string
}.
End Raw.

Module Question.
(** A question object of the service: the spread of the raw question
    ([body], whose [id] is overridden by [id]) and the fields added by
    [generateQuestionsForConcept]. *)
Record t : Type := mk {
  body : Raw.t;
  id : string;
  conceptId : string;
  conceptName : string;
  number : Z;
  createdAt : string;
  attempts : Z;
  correctAttempts : Z;
  lastAttempted : option string;
  userAnswer : option string;
  isCorrect : option bool;
  timeSpent : Z;
  hintsUsed : Z
}.

(** [{ ...question, number: n }] *)
Definition with_number (q : t) (n : Z) : t :=
  {| body := body q; id := id q; conceptId := conceptId q;
     conceptName := conceptName q; number := n; createdAt := createdAt q;
     attempts := attempts q; correctAttempts := correctAttempts q;
     lastAttempted := lastAttempted q; userAnswer := userAnswer q;
     isCorrect := isCorrect q; timeSpent := timeSpent q;
     hintsUsed := hintsUsed q |}.
End Question.

(** The outcome of an asynchronous call: fulfilled with a value,
    rejected with an error message, or fulfilled with [undefined]. *)
Inductive result (A : Type) : Type :=
| Ok (a : A)
| Err (message : string)
| Undef.
Arguments Ok {A} a.
Arguments Err {A} message.
Arguments Undef {A}.

(** A value of [Math.random()]: the fraction [rnum / rden] of the half
    open unit interval. *)
Record Random : Type := {
  rnum : nat;
  rden : nat;
  rbound : (rnum <? rden)%nat = true
}.

(** The environment of the service. Calls and draws are numbered in the
    order in which the code issues them.
      - [aiResponse k p]: the [questions] array of the parsed reply to
        the [k]-th generation call, sent with prompt [p]; [Undef] when
        the reply parses to a value without a [questions] property; or
        the failure of the request or of parsing its reply;
      - [clock k]: the ISO time stamp read by the [k]-th call;
      - [random k]: the [k]-th value of [Math.random()]. *)
Record World : Type := {
  aiResponse : nat -> Prompt -> result (list Raw.t);
  clock : nat -> string;
  random : nat -> Random
}.

(** [question?.id || `${concept?.id}_q${index + 1}`] *)
Definition questionId (q : Raw.t) (c : Concept.t) (index : nat) : string :=
  match Raw.id q with
  | Some (String a s) => String a s
  | _ => Concept.id c +:+ "_q" +:+ Js.toString (Z.of_nat index + 1)
  end.

(** [generateQuestionsForConcept(concept, options)], issued as the
    [call]-th generation call. On a reply without a [questions]
    property, [generationResult?.questions?.map(...)] is [undefined]
    and the call is fulfilled with it. *)
Definition generateQuestionsForConcept (w : World) (call : nat)
           (c : Concept.t) (options : GenOptions) : result (list Question.t) :=
  let questionCount := default 5 (questionCount options) in
  let questionTypes :=
    default ["multiple_choice"; "true_false"; "short_answer"] (questionTypes options) in
  let difficultyLevel := default (Concept.difficulty c) (difficultyLevel options) in
  match aiResponse w call
          {| promptCount := questionCount; promptConcept := c;
             promptDifficulty := difficultyLevel; promptTypes := questionTypes |} with
  | Ok questions =>
      Ok (imap
            (fun index question =>
               {| Question.body := question;
                  Question.id := questionId question c index;
                  Question.conceptId := Concept.id c;
                  Question.conceptName := Concept.name c;
                  Question.number := Z.of_nat index + 1;
                  Question.createdAt := clock w call;
                  Question.attempts := 0;
                  Question.correctAttempts := 0;
                  Question.lastAttempted := None;
                  Question.userAnswer := None;
                  Question.isCorrect := None;
                  Question.timeSpent := 0;
                  Question.hintsUsed := 0 |})
            questions)
  | Err _ => Err "Failed to generate questions for concept"
  | Undef => Undef
  end.

(** [[a[i], a[j]] = [a[j], a[i]]] on an array; both indices are in range
    wherever the shuffle uses it. *)
Definition swap {A : Type} (i j : nat) (a : list A) : list A :=
  match a !! i, a !! j with
  | Some x, Some y => <[j := x]> (<[i := y]> a)
  | _, _ => a
  end.

(** [Math.floor(r * (i + 1))] for a value [r] of [Math.random()]. *)
Definition randomIndex (r : Random) (i : nat) : nat :=
  (rnum r * (i + 1) / rden r)%nat.

(** The loop of [shuffleQuestions], [for (let i = ...; i > 0; i--)],
    entered at index [i] with [draw] random values already consumed. *)
Fixpoint shuffleLoop {A : Type} (w : World) (draw : nat) (i : nat) (shuffled : list A)
  : list A :=
  match i with
  | O => shuffled
  | S i' =>
      let j := randomIndex (random w draw) i in
      shuffleLoop w (S draw) i' (swap i j shuffled)
  end.

(** [shuffleQuestions(questions)] on an array of questions. *)
Definition shuffleQuestions (w : World) (questions : list Question.t) : list Question.t :=
  let shuffled := shuffleLoop w 0 (length questions - 1) questions in
  imap (fun index question => Question.with_number question (Z.of_nat index + 1)) shuffled.

(** A pending generation call: the concept and the options it was given. *)
Record Request : Type := {
  requestConcept : loc;
  requestOptions : GenOptions
}.

(** The options of the three kinds of call [generateAdaptiveQuestions]
    makes. *)
Definition weakOptions (h : store) (userPerformance : gmap string Perf.t) (c : loc)
  : GenOptions :=
  {| questionCount := Some 3; questionTypes := None;
     difficultyLevel := Some (adjustDifficultyForPerformance (h c) userPerformance);
     includeExplanations := None |}.

Definition mixedOptions : GenOptions :=
  {| questionCount := Some 2;
     questionTypes := Some ["multiple_choice"; "short_answer"];
     difficultyLevel := None; includeExplanations := None |}.

Definition strongOptions : GenOptions :=
  {| questionCount := Some 1; questionTypes := None;
     difficultyLevel := Some "Advanced"; includeExplanations := None |}.

(** [a.includes(x)] on an array of concept objects: identity of objects. *)
Definition includes_loc (a : list loc) (x : loc) : bool :=
  existsb (fun y => (y =? x)%nat) a.

(** The calls [generateAdaptiveQuestions] pushes to [questionPromises],
    in order: the three loops of the source, each appending to the
    array built so far. *)
Definition adaptiveRequests (h : store) (concepts : list loc)
           (userPerformance : gmap string Perf.t) : list Request :=
  let weakConcepts := identifyWeakAreas h concepts userPerformance in
  let strongConcepts := identifyStrongAreas h concepts userPerformance in
  let questionPromises := [] in
  let questionPromises :=
    fold_left
      (fun promises c =>
         promises ++ [{| requestConcept := c;
                         requestOptions := weakOptions h userPerformance c |}])
      (take 3 weakConcepts) questionPromises in
  let questionPromises :=
    fold_left
      (fun promises c =>
         if negb (includes_loc weakConcepts c)
         then promises ++ [{| requestConcept := c; requestOptions := mixedOptions |}]
         else promises)
      (take 2 concepts) questionPromises in
  match strongConcepts with
  | c :: _ =>
      questionPromises ++ [{| requestConcept := c; requestOptions := strongOptions |}]
  | [] => questionPromises
  end.

(** The value a call is fulfilled with, [None] for [undefined]. *)
Definition fulfilledWith {A : Type} (outcome : result A) : option A :=
  match outcome with
  | Ok a => Some a
  | _ => None
  end.

Fixpoint firstRejection {A : Type} (outcomes : list (result A)) : option string :=
  match outcomes with
  | [] => None
  | Err e :: _ => Some e
  | _ :: rest => firstRejection rest
  end.

(** [Promise.all]: the values in order when every call is fulfilled, the
    first rejection otherwise. *)
Definition Promise_all {A : Type} (outcomes : list (result A)) : result (list (option A)) :=
  match firstRejection outcomes with
  | Some e => Err e
  | None => Ok (fulfilledWith <$> outcomes)
  end.

(** An element of the array [generateAdaptiveQuestions] is fulfilled
    with: a question with its new number, or, where [shuffleQuestions]
    met [undefined] in place of a question, the object
    [{ ...undefined, number }] that has a number and nothing else. *)
Inductive Delivered : Type :=
| Numbered (question : Question.t)
| NumberOnly (number : Z).

(** [shuffleQuestions(questions)] on the array [generateAdaptiveQuestions]
    passes, in which a call fulfilled with [undefined] has left
    [undefined] in the place of its questions. *)
Definition shuffleEntries (w : World) (questions : list (option Question.t))
  : list Delivered :=
  let shuffled := shuffleLoop w 0 (length questions - 1) questions in
  imap (fun index question =>
          match question with
          | Some q => Numbered (Question.with_number q (Z.of_nat index + 1))
          | None => NumberOnly (Z.of_nat index + 1)
          end) shuffled.

(** The outcomes of the pushed calls; the call at position [k] of the
    array is the [k]-th generation call. *)
Definition issue (h : store) (w : World) (requests : list Request)
  : list (result (list Question.t)) :=
  imap (fun k r =>
          generateQuestionsForConcept w k (h (requestConcept r)) (requestOptions r))
    requests.

(** [generateAdaptiveQuestions(concepts, userPerformance)]; an absent
    second argument is the empty map. *)
Definition generateAdaptiveQuestions (h : store) (w : World) (concepts : list loc)
           (userPerformance : gmap string Perf.t) : result (list Delivered) :=
  let questionPromises := adaptiveRequests h concepts userPerformance in
  match Promise_all (issue h w questionPromises) with
  | Ok questionSets =>
      let allQuestions := Js.flat questionSets in
      Ok (shuffleEntries w allQuestions)
  | Err _ => Err "Failed to generate adaptive questions"
  | Undef => Undef
  end.

(** ** fileAnalysisService.js *)

Module File.
(** The fields of a browser [File] that the service reads. *)
Record t : Type := mk {
  name : string;
  size : Z;
  type : string;
  lastModified : Z
}.
End File.

(** The object [validateFile] returns. *)
Record Validation : Type := {
  isValid : bool;
  error : option string
}.

Definition maxSize : Z := 10 * 1024 * 1024.

Definition allowedTypes : list string :=
  ["text/plain"; "text/markdown"; "application/json"; "text/csv"; "application/pdf"].

(** [validateFile(file)]; the argument is [None] when it is absent. *)
Definition validateFile (file : option File.t) : Validation :=
  match file with
  | None => {| isValid := false; error := Some "No file provided" |}
  | Some f =>
      if File.size f >? maxSize
      then {| isValid := false; error := Some "File size exceeds 10MB limit" |}
      else if negb (existsb
                      (fun type => Js.includes (File.type f) (Js.split_head "/" type))
                      allowedTypes)
      then {| isValid := false; error := Some "Unsupported file type" |}
      else {| isValid := true; error := None |}
  end.

(** ** conceptExtractionService.js: extraction *)

Module RawConcept.
(** A concept as the AI response carries it. *)
Record t : Type := mk {
  id : option string;
  name : string;
  description : string;
  difficulty : string;
  prerequisites : option (list string);
  subConcepts : option (list string);
  examples : option (list string);
  misconceptions : option (list string);
  keyPrinciples : option (list string);
  estimatedTime : option string;
  bloomsLevel : option string
}.
End RawConcept.

(** An element of the array [extractConcepts] returns: the concept with
    its counters, and the metadata of the extraction. *)
Record ExtractedConcept : Type := {
  extracted : Concept.t;
  bloomsLevel : option string;
  extractedAt : string;
  sourceSubject : option string;
  sourceTopic : option string
}.

(** [concept?.id || `concept_${index + 1}`] *)
Definition conceptId (c : RawConcept.t) (index : nat) : string :=
  match RawConcept.id c with
  | Some (String a s) => String a s
  | _ => "concept_" +:+ Js.toString (Z.of_nat index + 1)
  end.

(** [extractConcepts(analysisData)], given the outcome of the request
    (the [concepts] array of the parsed reply, [Undef] when the reply
    parses to a value without a [concepts] property, or the failure of
    the request or of parsing its reply), the time stamp read, and the
    subject and topic of the analysis data. *)
Definition extractConcepts (response : result (list RawConcept.t)) (now : string)
           (subject topic : option string) : result (list ExtractedConcept) :=
  match response with
  | Ok concepts =>
      Ok (imap
            (fun index c =>
               {| extracted :=
                    {| Concept.id := conceptId c index;
                       Concept.name := RawConcept.name c;
                       Concept.description := RawConcept.description c;
                       Concept.difficulty := RawConcept.difficulty c;
                       Concept.prerequisites := RawConcept.prerequisites c;
                       Concept.subConcepts := RawConcept.subConcepts c;
                       Concept.examples := RawConcept.examples c;
                       Concept.misconceptions := RawConcept.misconceptions c;
                       Concept.keyPrinciples := RawConcept.keyPrinciples c;
                       Concept.estimatedTime := RawConcept.estimatedTime c;
                       Concept.masteryLevel := 0;
                       Concept.attempts := 0;
                       Concept.correctAnswers := 0 |};
                  bloomsLevel := RawConcept.bloomsLevel c;
                  extractedAt := now;
                  sourceSubject := subject;
                  sourceTopic := topic |})
            concepts)
  | Err _ => Err "Failed to extract concepts from content"
  | Undef => Undef
  end.

(** ** The file upload page (FileUpload component)

    The state cells of the component that its file handlers read and
    write; a handler is a function from the state at the render it
    belongs to, to the state after its updates. *)

Module Upload.
Section State.
Context {Analysis : Type}.

Record t : Type := mk {
  dragActive : bool;
  selectedFile : option File.t;
  error : option string;
  analysisResult : option Analysis
}.

(** [handleDrag(e)], on the event type. *)
Definition handleDrag (eventType : string) (st : t) : t :=
  if String.eqb eventType "dragenter" || String.eqb eventType "dragover" then
    {| dragActive := true; selectedFile := selectedFile st; error := error st;
       analysisResult := analysisResult st |}
  else if String.eqb eventType "dragleave" then
    {| dragActive := false; selectedFile := selectedFile st; error := error st;
       analysisResult := analysisResult st |}
  else st.

(** [handleFileSelection(file)] *)
Definition handleFileSelection (file : option File.t) (st : t) : t :=
  let '(Build_Validation valid message) := validateFile file in
  if negb valid then
    {| dragActive := dragActive st; selectedFile := selectedFile st;
       error := message; analysisResult := analysisResult st |}
  else
    {| dragActive := dragActive st; selectedFile := file;
       error := Some ""; analysisResult := analysisResult st |}.

(** [handleDrop(e)], on the first dropped file if there is one. *)
Definition handleDrop (file : option File.t) (st : t) : t :=
  let st' :=
    {| dragActive := false; selectedFile := selectedFile st; error := error st;
       analysisResult := analysisResult st |} in
  match file with
  | Some f => handleFileSelection (Some f) st'
  | None => st'
  end.

(** [handleFileInputChange(e)], on the first chosen file if there is one. *)
Definition handleFileInputChange (file : option File.t) (st : t) : t :=
  match file with
  | Some f => handleFileSelection (Some f) st
  | None => st
  end.

(** [removeSelectedFile()] *)
Definition removeSelectedFile (st : t) : t :=
  {| dragActive := dragActive st; selectedFile := None; error := Some "";
     analysisResult := None |}.
End State.
Arguments t : clear implicits.
End Upload.

(** ** AdaptiveLearningService: study plan duration *)

(** [calculateCompletionTime(dailySessions)]; the argument is [None]
    when it is absent. Only the number of sessions is read;
    [Math.ceil(totalDays / 7)] is [(totalDays + 6) div 7]. *)
Definition calculateCompletionTime {Session : Type} (dailySessions : option (list Session))
  : string :=
  match dailySessions with
  | None | Some [] => "0 days"
  | Some sessions =>
      let totalDays := Z.of_nat (length sessions) in
      let weeks := (totalDays + 6) `div` 7 in
      if weeks =? 1 then Js.toString totalDays +:+ " days"
      else Js.toString weeks +:+ " weeks"
  end.

(** ** The assessment page (QuestionGenerationAssessment component)

    The state cells that the navigation, answer, session and timer
    handlers of the component read and write. A handler is a function
    from the state at the render it belongs to, to the state after its
    updates. *)

Module Assessment.
Record t : Type := mk {
  questions : list Question.t;
  currentQuestionIndex : Z;
  answers : gmap string string;
  confidence : gmap string Z;
  showValidation : bool;
  isSubmitting : bool;
  sessionTime : Z;
  sessionStatus : string;
  showSummary : bool
}.

(** [questions[i]]: [undefined] outside the array. *)
Definition at_index (qs : list Question.t) (i : Z) : option Question.t :=
  if i <? 0 then None else qs !! Z.to_nat i.

(** [const currentQuestion = questions?.[currentQuestionIndex]] *)
Definition currentQuestion (st : t) : option Question.t :=
  at_index (questions st) (currentQuestionIndex st).

(** [const totalQuestions = questions?.length] *)
Definition totalQuestions (st : t) : Z := Z.of_nat (length (questions st)).

(** The property key [currentQuestion?.id]: the text "undefined" when
    there is no current question. *)
Definition currentKey (st : t) : string :=
  match currentQuestion st with
  | Some q => Question.id q
  | None => "undefined"
  end.

(** [answers?.[currentQuestion?.id]] is truthy: an answer is recorded
    under the key and is not the empty string, or none is recorded and
    the key names a member of [Object.prototype]. *)
Definition currentAnswered (st : t) : bool :=
  match Js.get (answers st) (currentKey st) with
  | Js.Own (String _ _) => true
  | Js.Own EmptyString => false
  | Js.Inherited _ => true
  | Js.Absent => false
  end.

Definition set_index (i : Z) (validation : bool) (st : t) : t :=
  {| questions := questions st; currentQuestionIndex := i; answers := answers st;
     confidence := confidence st; showValidation := validation;
     isSubmitting := isSubmitting st; sessionTime := sessionTime st;
     sessionStatus := sessionStatus st; showSummary := showSummary st |}.

Definition set_validation (validation : bool) (st : t) : t :=
  set_index (currentQuestionIndex st) validation st.

Definition set_status (status : string) (st : t) : t :=
  {| questions := questions st; currentQuestionIndex := currentQuestionIndex st;
     answers := answers st; confidence := confidence st;
     showValidation := showValidation st; isSubmitting := isSubmitting st;
     sessionTime := sessionTime st; sessionStatus := status;
     showSummary := showSummary st |}.

(** [handleAnswerChange(answer)] *)
Definition handleAnswerChange (answer : string) (st : t) : t :=
  {| questions := questions st; currentQuestionIndex := currentQuestionIndex st;
     answers := <[currentKey st := answer]> (answers st);
     confidence := confidence st; showValidation := false;
     isSubmitting := isSubmitting st; sessionTime := sessionTime st;
     sessionStatus := sessionStatus st; showSummary := showSummary st |}.

(** [handleConfidenceChange(level)] *)
Definition handleConfidenceChange (level : Z) (st : t) : t :=
  {| questions := questions st; currentQuestionIndex := currentQuestionIndex st;
     answers := answers st;
     confidence := <[currentKey st := level]> (confidence st);
     showValidation := showValidation st;
     isSubmitting := isSubmitting st; sessionTime := sessionTime st;
     sessionStatus := sessionStatus st; showSummary := showSummary st |}.

(** [handleNext()] *)
Definition handleNext (st : t) : t :=
  if negb (currentAnswered st) then set_validation true st
  else if currentQuestionIndex st <? totalQuestions st - 1
       then set_index (currentQuestionIndex st + 1) false st
       else st.

(** [handlePrevious()] *)
Definition handlePrevious (st : t) : t :=
  if currentQuestionIndex st >? 0
  then set_index (currentQuestionIndex st - 1) false st
  else st.

(** [handleSubmit()], the state once the function has run to its end;
    while it waits, [isSubmitting] is [true]. *)
Definition handleSubmit (st : t) : t :=
  if negb (currentAnswered st) then set_validation true st
  else
    {| questions := questions st; currentQuestionIndex := currentQuestionIndex st;
       answers := answers st; confidence := confidence st;
       showValidation := showValidation st; isSubmitting := false;
       sessionTime := sessionTime st; sessionStatus := sessionStatus st;
       showSummary := true |}.

(** [questions.findIndex(q => q.id === questionId)], [None] for [-1]. *)
Fixpoint findIndex (questionId : string) (qs : list Question.t) : option nat :=
  match qs with
  | [] => None
  | q :: rest =>
      if String.eqb (Question.id q) questionId then Some 0%nat
      else S <$> findIndex questionId rest
  end.

(** [handleQuestionSelect(questionId)] *)
Definition handleQuestionSelect (questionId : string) (st : t) : t :=
  match findIndex questionId (questions st) with
  | Some questionIndex => set_index (Z.of_nat questionIndex) (showValidation st) st
  | None => st
  end.

(** [handlePauseSession()] *)
Definition handlePauseSession (st : t) : t :=
  set_status (if String.eqb (sessionStatus st) "active" then "paused" else "active") st.

(** One run of the timer: the interval that adds a second exists only
    while the status is active. *)
Definition tick (st : t) : t :=
  if String.eqb (sessionStatus st) "active" then
    {| questions := questions st; currentQuestionIndex := currentQuestionIndex st;
       answers := answers st; confidence := confidence st;
       showValidation := showValidation st; isSubmitting := isSubmitting st;
       sessionTime := sessionTime st + 1; sessionStatus := sessionStatus st;
       showSummary := showSummary st |}
  else st.

(** [handleRetakeAssessment()] *)
Definition handleRetakeAssessment (st : t) : t :=
  {| questions := questions st; currentQuestionIndex := 0; answers := ∅;
     confidence := ∅; showValidation := showValidation st;
     isSubmitting := isSubmitting st; sessionTime := 0;
     sessionStatus := "active"; showSummary := false |}.

(** [text.padStart(targetLength, '0')] *)
Fixpoint zeros (n : nat) : string :=
  match n with
  | O => EmptyString
  | S n' => String "0" (zeros n')
  end.

Definition padStart (targetLength : nat) (text : string) : string :=
  zeros (targetLength - String.length text) +:+ text.

(** [formatTime(seconds)] *)
Definition formatTime (seconds : Z) : string :=
  let mins := seconds `div` 60 in
  let secs := seconds `rem` 60 in
  Js.toString mins +:+ ":" +:+ padStart 2 (Js.toString secs).
End Assessment.

(** ** Vocabulary of the properties *)

(** The difficulty rank of a concept: Beginner 1, Intermediate 2,
    Advanced 3, any other difficulty 2. *)
Definition difficultyRank (c : Concept.t) : Z :=
  Js.or_num (difficultyOrder !! Concept.difficulty c) 2.

(** The difficulty of a concept is not the name of a member of
    [Object.prototype]. *)
Definition plainDifficulty (c : Concept.t) : Prop :=
  Js.inherited (Concept.difficulty c) = false.

(** The order by rank, then by number of prerequisites. *)
Definition compareByRank (a b : Concept.t) : Z :=
  if negb (difficultyRank a =? difficultyRank b)
  then difficultyRank a - difficultyRank b
  else prereqCount a - prereqCount b.

(** The concepts of one sort key: difficulty rank [r] and [p]
    prerequisites. *)
Definition hasSortKey (h : store) (r p : Z) (c : loc) : bool :=
  (difficultyRank (h c) =? r) && (prereqCount (h c) =? p).

(** The record kept under the id of a concept, the fallback entry
    standing in for a missing record. *)
Definition recordOf (userPerformance : gmap string Perf.t) (c : Concept.t) : Perf.t :=
  default Perf.missing (userPerformance !! Concept.id c).

(** No record is kept under the id of the concept, and the id names a
    member of [Object.prototype]. *)
Definition unrecordedMember (userPerformance : gmap string Perf.t) (c : Concept.t) : bool :=
  bool_decide (userPerformance !! Concept.id c = None) && Js.inherited (Concept.id c).

(** The recorded mastery of the concept at a reference, the fallback
    entry standing in for a missing record. *)
Definition masteryOf (h : store) (userPerformance : gmap string Perf.t) (c : loc) : Z :=
  Perf.masteryLevel (recordOf userPerformance (h c)).

(** The recorded attempts of the concept at a reference. *)
Definition attemptsOf (h : store) (userPerformance : gmap string Perf.t) (c : loc) : Z :=
  Perf.attempts (recordOf userPerformance (h c)).

(** The concept at a reference is read as a record, and the record has a
    mastery below 70 or no attempt. *)
Definition classedWeak (h : store) (userPerformance : gmap string Perf.t) (c : loc) : bool :=
  negb (unrecordedMember userPerformance (h c)) &&
  ((masteryOf h userPerformance c <? 70) || (attemptsOf h userPerformance c =? 0)).

(** A question with its [number] field blanked: everything the shuffle
    must leave alone. *)
Definition questionContent (q : Question.t) : Question.t := Question.with_number q 0.

(** Re-numbering a list of questions 1..N by position. *)
Definition renumber (questions : list Question.t) : list Question.t :=
  imap (fun index question => Question.with_number question (Z.of_nat index + 1)) questions.

(** The same for an array that may hold [undefined] in the place of a
    question. *)
Definition renumberEntries (questions : list (option Question.t)) : list Delivered :=
  imap (fun index question =>
          match question with
          | Some q => Numbered (Question.with_number q (Z.of_nat index + 1))
          | None => NumberOnly (Z.of_nat index + 1)
          end) questions.

(** The number of elements a value of [Promise.all] adds to the
    flattened array. *)
Definition entryCount (value : option (list Question.t)) : nat :=
  match value with
  | Some questions => length questions
  | None => 1
  end.

(** The number of questions a call asks for, and the sum over the calls
    made. *)
Definition requestedCount (r : Request) : Z := default 5 (questionCount (requestOptions r)).

Definition requestedTotal (requests : list Request) : Z :=
  foldr (fun r total => requestedCount r + total) 0 requests.

(** The outcome of the request pushed at position [k]. *)
Definition outcome (h : store) (w : World) (k : nat) (r : Request)
  : result (list Question.t) :=
  generateQuestionsForConcept w k (h (requestConcept r)) (requestOptions r).

(** Every pushed call is fulfilled with an array of questions. *)
Definition allCallsSucceed (h : store) (w : World) (requests : list Request) : Prop :=
  ∀ k r, requests !! k = Some r → ∃ questions, outcome h w k r = Ok questions.

(** No pushed call is rejected: each is fulfilled, with an array of
    questions or with [undefined]. *)
Definition noCallRejected (h : store) (w : World) (requests : list Request) : Prop :=
  ∀ k r e, requests !! k = Some r → outcome h w k r ≠ Err e.

(** Every pushed call is fulfilled with as many questions as it asked
    for. *)
Definition countsHonoured (h : store) (w : World) (requests : list Request) : Prop :=
  ∀ k r, requests !! k = Some r →
    ∃ questions, outcome h w k r = Ok questions ∧
                 Z.of_nat (length questions) = requestedCount r.

(** The sentence of the specification on the size of the adaptive mix,
    as it is written: once all calls succeed, the result has as many
    questions as were asked for. *)
Definition requestedCountDelivered : Prop :=
  ∀ (h : store) (w : World) (concepts : list loc) (userPerformance : gmap string Perf.t),
    allCallsSucceed h w (adaptiveRequests h concepts userPerformance) →
    ∃ questions,
      generateAdaptiveQuestions h w concepts userPerformance = Ok questions ∧
      Z.of_nat (length questions) =
        requestedTotal (adaptiveRequests h concepts userPerformance).

(** *** Reading a duration

    The words of the specification of [parseTimeToMinutes]: an
    occurrence of the pattern is a non-empty run of digits, any amount
    of white space, and one of the unit words in any mix of cases. *)

Fixpoint allChars (p : ascii -> bool) (s : string) : bool :=
  match s with
  | EmptyString => true
  | String c s' => p c && allChars p s'
  end.

(** The number a run of decimal digits denotes, most significant digit
    first. *)
Fixpoint decimalValue (digits : string) : Z :=
  match digits with
  | EmptyString => 0
  | String c rest => Js.digit_value c * 10 ^ Z.of_nat (String.length rest) + decimalValue rest
  end.

Definition isMinuteWord (unit : string) : bool := String.eqb (Js.toLowerCase unit) "min".

Definition isHourWord (unit : string) : bool :=
  String.eqb (Js.toLowerCase unit) "hour" || String.eqb (Js.toLowerCase unit) "hr".

(** [s] reads [pre], then [digits], [gap] and [unit], then [post]. *)
Definition timeOccurrence (s pre digits gap unit post : string) : Prop :=
  s = pre +:+ digits +:+ gap +:+ unit +:+ post ∧
  digits ≠ "" ∧
  allChars Js.is_digit digits = true ∧
  allChars Js.is_space gap = true ∧
  (isMinuteWord unit = true ∨ isHourWord unit = true).

(** No occurrence of the pattern starts before this one. *)
Definition firstTimeOccurrence (s pre digits gap unit post : string) : Prop :=
  timeOccurrence s pre digits gap unit post ∧
  ∀ pre' digits' gap' unit' post',
    timeOccurrence s pre' digits' gap' unit' post' →
    (String.length pre <= String.length pre')%nat.

(** *** The pattern read directly

    What the backtracking matcher finds at one position, computed in
    one pass: the longest run of digits, the longest run of white space,
    a unit word. *)

Fixpoint takeWhile (p : ascii -> bool) (s : string) : string :=
  match s with
  | String c s' => if p c then String c (takeWhile p s') else EmptyString
  | EmptyString => EmptyString
  end.

Fixpoint dropWhile (p : ascii -> bool) (s : string) : string :=
  match s with
  | String c s' => if p c then dropWhile p s' else s
  | EmptyString => EmptyString
  end.

Fixpoint skip (n : nat) (s : string) : string :=
  match n, s with
  | S n', String _ s' => skip n' s'
  | _, _ => s
  end.

(** [s] starts with the word [w], letters compared as the [i] flag
    compares them. *)
Fixpoint startsWith_i (w s : string) : bool :=
  match w, s with
  | EmptyString, _ => true
  | String a w', String b s' => Js.is_letter_i a b && startsWith_i w' s'
  | String _ _, EmptyString => false
  end.

Definition unitAt (s : string) : option string :=
  if startsWith_i "min" s then Some (Js.prefix 3 s)
  else if startsWith_i "hour" s then Some (Js.prefix 4 s)
  else if startsWith_i "hr" s then Some (Js.prefix 2 s)
  else None.

Definition scanHere (s : string) : option (string * string) :=
  match takeWhile Js.is_digit s with
  | EmptyString => None
  | digits =>
      match unitAt (dropWhile Js.is_space (dropWhile Js.is_digit s)) with
      | Some unit => Some (digits, unit)
      | None => None
      end
  end.

(** The matcher at the unit words, entered with captures [c1] on input
    [s3], the whole match having started on input [s]. *)
Definition matchUnit (s : string) (c1 : Js.captures) (s3 : string) : option Js.captures :=
  Js.run (Js.Group 2 (Js.Alt (Js.word_i "min")
                        (Js.Alt (Js.word_i "hour") (Js.word_i "hr")))) s3 c1
    (fun s' c' => Some (Js.set_capture 0 (Js.consumed s s') c')).

(** ** Sample data *)

Definition sampleConcept (id difficulty : string) (prerequisites : option (list string))
           (estimatedTime : option string) : Concept.t :=
  {| Concept.id := id; Concept.name := "Concept " +:+ id;
     Concept.description := ""; Concept.difficulty := difficulty;
     Concept.prerequisites := prerequisites; Concept.subConcepts := None;
     Concept.examples := None; Concept.misconceptions := None;
     Concept.keyPrinciples := None; Concept.estimatedTime := estimatedTime;
     Concept.masteryLevel := 0; Concept.attempts := 0;
     Concept.correctAnswers := 0 |}.

(** Five concept objects, at references 0 to 4; every other reference
    holds a sixth one. *)
Definition sampleStore : store :=
  fun l =>
    match l with
    | 0%nat => sampleConcept "c1" "Advanced" (Some []) (Some "45 min")
    | 1%nat => sampleConcept "c2" "Beginner" (Some ["a"; "b"]) (Some "2 hours")
    | 2%nat => sampleConcept "c3" "Beginner" (Some []) None
    | 3%nat => sampleConcept "c4" "Expert" None (Some "soon")
    | 4%nat => sampleConcept "c5" "Beginner" (Some ["c"; "d"]) (Some "1 hr")
    | _ => sampleConcept "c6" "Intermediate" (Some ["e"]) (Some "10 min")
    end.

(** Three concepts, at references 0 to 2, whose second has a
    difficulty that names a member of [Object.prototype]; every other
    reference holds a concept whose id is such a name. *)
Definition memberStore : store :=
  fun l =>
    match l with
    | 0%nat => sampleConcept "c1" "Advanced" (Some []) None
    | 1%nat => sampleConcept "c2" "constructor" (Some []) None
    | 2%nat => sampleConcept "c3" "Beginner" (Some []) None
    | _ => sampleConcept "constructor" "Beginner" (Some []) None
    end.

(** Records for four of them; [c4] has none, [c5] has a high mastery
    and no attempt. *)
Definition samplePerformance : gmap string Perf.t :=
  <["c1" := Perf.mk 85 4]>
    (<["c2" := Perf.mk 20 2]>
       (<["c3" := Perf.mk 50 1]>
          (<["c5" := Perf.mk 95 0]> ∅))).

Definition sampleRaw (text answer : string) : Raw.t :=
  {| Raw.id := None; Raw.type := "short_answer"; Raw.difficulty := "Beginner";
     Raw.question := text; Raw.context := None; Raw.options := None;
     Raw.correctAnswer := answer; Raw.sampleAnswers := None;
     Raw.explanation := None; Raw.learningObjective := None;
     Raw.bloomsLevel := None; Raw.estimatedTime := None |}.

(** [Math.random()] returning one half on every draw. *)
Definition half : Random := {| rnum := 1; rden := 2; rbound := eq_refl |}.

(** An endpoint that answers every call with an empty [questions] array. *)
Definition silentWorld : World :=
  {| aiResponse := fun _ _ => Ok []; clock := fun _ => ""; random := fun _ => half |}.

(** An endpoint whose every reply lacks the [questions] property. *)
Definition voidWorld : World :=
  {| aiResponse := fun _ _ => Undef; clock := fun _ => ""; random := fun _ => half |}.

(** An endpoint that answers every call with as many questions as the
    prompt asks for, except that call [failing] is rejected. *)
Definition obligingWorld (failing : option nat) : World :=
  {| aiResponse := fun k p =>
       if decide (failing = Some k) then Err "network"
       else Ok (replicate (Z.to_nat (promptCount p)) (sampleRaw "Why?" "Because."));
     clock := fun _ => "2024-01-01T00:00:00.000Z";
     random := fun _ => half |}.

(** A small archive: a type that is not on the allow-list. *)
Definition zipFile : File.t :=
  {| File.name := "notes.zip"; File.size := 1024; File.type := "application/zip";
     File.lastModified := 0 |}.

(** ** Vocabulary of the further properties *)

(** The rank [difficultyOrder] gives a difficulty label. *)
Definition labelRank (label : string) : option Z := difficultyOrder !! label.

(** The number of concepts of a list that carry a difficulty label. *)
Definition countDifficulty (h : store) (label : string) (concepts : list loc) : Z :=
  Z.of_nat (length (List.filter (fun c => String.eqb (Concept.difficulty (h c)) label)
                      concepts)).

(** The minutes one concept adds to the total of the pathway, when
    its reading is finite. *)
Definition estimatedMinutes (c : Concept.t) : Z :=
  match parseTimeToMinutes (Concept.estimatedTime c) with
  | Js.Num minutes => minutes
  | _ => 0
  end.

Definition totalEstimatedMinutes (h : store) (concepts : list loc) : Z :=
  foldr (fun c total => estimatedMinutes (h c) + total) 0 concepts.

(** A prerequisite names a concept: it occurs, case ignored, in the
    concept's name or in one of its sub-concepts. *)
Definition prerequisiteNames (prereq : string) (c : Concept.t) : bool :=
  Js.includes (Js.toLowerCase (Concept.name c)) (Js.toLowerCase prereq)
  || match Concept.subConcepts c with
     | Some subs =>
         existsb (fun sub => Js.includes (Js.toLowerCase sub) (Js.toLowerCase prereq)) subs
     | None => false
     end.

(** The difficulty of a concept is one of the three labels. *)
Definition hasKnownDifficulty (c : Concept.t) : bool :=
  String.eqb (Concept.difficulty c) "Beginner"
  || String.eqb (Concept.difficulty c) "Intermediate"
  || String.eqb (Concept.difficulty c) "Advanced".

(** The prompt [generateQuestionsForConcept] sends for a concept and an
    options object, the defaults of the destructuring filled in. *)
Definition promptOf (c : Concept.t) (options : GenOptions) : Prompt :=
  {| promptCount := default 5 (questionCount options);
     promptConcept := c;
     promptDifficulty := default (Concept.difficulty c) (difficultyLevel options);
     promptTypes :=
       default ["multiple_choice"; "true_false"; "short_answer"] (questionTypes options) |}.

(** The id the service makes up for the question at a position. *)
Definition backfilledId (c : Concept.t) (index : nat) : string :=
  Concept.id c +:+ "_q" +:+ Js.toString (Z.of_nat index + 1).

(** The response gave the question no usable id. *)
Definition lacksId (q : Raw.t) : Prop := Raw.id q = None ∨ Raw.id q = Some "".

(** The direct reading finds nothing at any position of [pre] in
    front of [rest]. *)
Definition noMatchBefore (pre rest : string) : Prop :=
  ∀ p1 p2, pre = p1 +:+ p2 → p2 ≠ "" → scanHere (p2 +:+ rest) = None.

(** The selected file of the upload page, if any, is one [validateFile]
    reports valid. *)
Definition selectionAccepted {Analysis : Type} (st : Upload.t Analysis) : Prop :=
  ∀ f, Upload.selectedFile st = Some f → isValid (validateFile (Some f)) = true.

(** The current index of the assessment page points at a question. *)
Definition indexInRange (st : Assessment.t) : Prop :=
  0 <= Assessment.currentQuestionIndex st < Assessment.totalQuestions st.

(** A question of the assessment page with a given id. *)
Definition sampleQuestion (id : string) : Question.t :=
  {| Question.body := sampleRaw "Why?" "Because."; Question.id := id;
     Question.conceptId := "c1"; Question.conceptName := "Concept c1";
     Question.number := 1; Question.createdAt := ""; Question.attempts := 0;
     Question.correctAttempts := 0; Question.lastAttempted := None;
     Question.userAnswer := None; Question.isCorrect := None;
     Question.timeSpent := 0; Question.hintsUsed := 0 |}.

(** A fresh assessment of three questions, the second and the third
    sharing an id. *)
Definition sampleAssessment : Assessment.t :=
  {| Assessment.questions := [sampleQuestion "q1"; sampleQuestion "q2"; sampleQuestion "q2"];
     Assessment.currentQuestionIndex := 0; Assessment.answers := ∅;
     Assessment.confidence := ∅; Assessment.showValidation := false;
     Assessment.isSubmitting := false; Assessment.sessionTime := 0;
     Assessment.sessionStatus := "active"; Assessment.showSummary := false |}.

(** A fresh assessment of two questions whose first has an id that
    names a member of [Object.prototype]. *)
Definition memberAssessment : Assessment.t :=
  {| Assessment.questions := [sampleQuestion "constructor"; sampleQuestion "q2"];
     Assessment.currentQuestionIndex := 0; Assessment.answers := ∅;
     Assessment.confidence := ∅; Assessment.showValidation := false;
     Assessment.isSubmitting := false; Assessment.sessionTime := 0;
     Assessment.sessionStatus := "active"; Assessment.showSummary := false |}.

(** The response gave the concept no usable id. *)
Definition conceptLacksId (c : RawConcept.t) : Prop :=
  RawConcept.id c = None ∨ RawConcept.id c = Some "".

(** The sentence of the specification on [formatMinutesToTime], as it
    is written: for every natural number (that is a number of the
    language), with the hours [n div 60] and the minutes [n mod 60]. *)
Definition formatsEveryNatural : Prop :=
  ∀ n, 0 <= n → Js.of_Z n = Js.Num n →
    (n < 60 →
     formatMinutesToTime (Js.Num n) = Js.numberToString (Js.Num n) +:+ " min") ∧
    (60 <= n → n `mod` 60 = 0 → n `div` 60 = 1 →
     formatMinutesToTime (Js.Num n) = Js.numberToString (Js.Num (n `div` 60)) +:+ " hour") ∧
    (60 <= n → n `mod` 60 = 0 → 1 < n `div` 60 →
     formatMinutesToTime (Js.Num n) = Js.numberToString (Js.Num (n `div` 60)) +:+ " hours") ∧
    (60 <= n → n `mod` 60 ≠ 0 →
     formatMinutesToTime (Js.Num n) =
       Js.numberToString (Js.Num (n `div` 60)) +:+ "h " +:+
       Js.numberToString (Js.Num (n `mod` 60)) +:+ "min").

(** The sentence of the specification on the value [parseTimeToMinutes]
    reads, as it is written: for every input string, the integer of the
    first occurrence, unchanged for a minute word and times 60 for an
    hour word. *)
Definition readsEveryInteger : Prop :=
  ∀ s pre digits gap unit post,
    firstTimeOccurrence s pre digits gap unit post →
    parseTimeToMinutes (Some s) =
      Js.Num (if isHourWord unit then decimalValue digits * 60 else decimalValue digits).

(** The number [parseTimeToMinutes] makes of the digits and the unit
    word of an occurrence. *)
Definition readingOf (digits unit : string) : Js.number :=
  if isHourWord unit then Js.mul (Js.of_Z (decimalValue digits)) (Js.Num 60)
  else Js.of_Z (decimalValue digits).

(** The estimated time of a concept reads as a finite number. *)
Definition readsFinite (c : Concept.t) : Prop :=
  ∃ minutes, parseTimeToMinutes (Concept.estimatedTime c) = Js.Num minutes.

(** * Properties *)

(** ** Sorting with a comparator *)

Section SortFacts.
Context {A : Type} (cmp : A -> A -> Z).

Lemma insert_sorted_perm x l : Js.insert_sorted cmp x l ≡ₚ x :: l.
Proof.
  induction l as [|y l IH]; simpl; [done|].
  destruct (cmp x y <=? 0); [done|].
  by rewrite IH, Permutation_swap.
Qed.

Lemma sort_perm l : Js.sort cmp l ≡ₚ l.
Proof.
  induction l as [|x l IH]; simpl; [done|].
  by rewrite insert_sorted_perm, IH.
Qed.

Lemma sort_length l : length (Js.sort cmp l) = length l.
Proof. by rewrite sort_perm. Qed.

Lemma elem_of_sort x l : x ∈ Js.sort cmp l ↔ x ∈ l.
Proof. by rewrite sort_perm. Qed.

(** Elements of a class closed under "not greater" keep their input
    order: the sort is stable. *)
Lemma insert_sorted_filter (P : A -> bool) x l :
  (∀ y, P x = true → P y = true → cmp x y <= 0) →
  List.filter P (Js.insert_sorted cmp x l) = List.filter P (x :: l).
Proof.
  intros Hcls. induction l as [|y l IH]; simpl; [done|].
  destruct (cmp x y <=? 0) eqn:Hxy; [done|].
  apply Z.leb_gt in Hxy. simpl in *. rewrite IH.
  destruct (P x) eqn:Hx, (P y) eqn:Hy; try done.
  specialize (Hcls y eq_refl Hy). lia.
Qed.

Lemma sort_stable (P : A -> bool) l :
  (∀ x y, P x = true → P y = true → cmp x y <= 0) →
  List.filter P (Js.sort cmp l) = List.filter P l.
Proof.
  intros Hcls. induction l as [|x l IH]; simpl; [done|].
  rewrite insert_sorted_filter by eauto. simpl. by rewrite IH.
Qed.

Definition not_greater (x y : A) : Prop := cmp x y <= 0.

Section Ordered.
Hypothesis cmp_total : ∀ x y, 0 < cmp x y → cmp y x <= 0.
Hypothesis cmp_trans : ∀ x y z, cmp x y <= 0 → cmp y z <= 0 → cmp x z <= 0.

Lemma insert_sorted_StronglySorted x l :
  StronglySorted not_greater l →
  StronglySorted not_greater (Js.insert_sorted cmp x l).
Proof.
  induction 1 as [|y l Hl IH Hy]; simpl.
  - repeat constructor.
  - destruct (cmp x y <=? 0) eqn:Hxy.
    + apply Z.leb_le in Hxy. constructor; [by constructor|].
      constructor; [done|].
      eapply Forall_impl; [exact Hy|]. intros z Hz. by eapply cmp_trans.
    + apply Z.leb_gt in Hxy. constructor; [done|].
      rewrite insert_sorted_perm. constructor; [|done].
      apply cmp_total. lia.
Qed.

Lemma sort_StronglySorted l : StronglySorted not_greater (Js.sort cmp l).
Proof.
  induction l; simpl; [constructor|by apply insert_sorted_StronglySorted].
Qed.

Lemma sort_lookup_le l i j a b :
  (i < j)%nat →
  Js.sort cmp l !! i = Some a → Js.sort cmp l !! j = Some b →
  cmp a b <= 0.
Proof.
  generalize (sort_StronglySorted l). generalize (Js.sort cmp l).
  intros k Hk. revert i j. induction Hk as [|x k Hk IH Hx]; intros i j Hij Hi Hj.
  - done.
  - destruct j as [|j]; [lia|]. simpl in Hj.
    destruct i as [|i]; simpl in Hi.
    + simplify_eq. rewrite Forall_forall in Hx. apply Hx.
      by eapply list_elem_of_lookup_2.
    + eapply (IH i j); [lia|done..].
Qed.
End Ordered.
End SortFacts.

(** Two comparators that agree in sign on the elements of a list sort
    it alike. *)
Lemma insert_sorted_ext {A} (cmp cmp' : A → A → Z) x l :
  (∀ y, y ∈ l → (cmp x y <=? 0) = (cmp' x y <=? 0)) →
  Js.insert_sorted cmp x l = Js.insert_sorted cmp' x l.
Proof.
  induction l as [|y l IH]; intros Hsign; simpl; [done|].
  rewrite (Hsign y) by left. rewrite IH; [done|].
  intros z Hz. apply Hsign. by right.
Qed.

Lemma sort_ext {A} (cmp cmp' : A → A → Z) l :
  (∀ x y, x ∈ l → y ∈ l → (cmp x y <=? 0) = (cmp' x y <=? 0)) →
  Js.sort cmp l = Js.sort cmp' l.
Proof.
  induction l as [|x l IH]; intros Hsign; simpl; [done|].
  rewrite IH by (intros y z Hy Hz; apply Hsign; by right).
  apply insert_sorted_ext. intros y Hy%elem_of_sort. apply Hsign; [by left|by right].
Qed.

(** ** Numbers *)

Lemma round_half_even_range a b :
  0 < b →
  a / b <= Js.round_half_even a b <= a / b + 1 ∧
  (Js.round_half_even a b = a / b + 1 → b <= 2 * (a mod b)).
Proof.
  intros Hb. unfold Js.round_half_even.
  destruct (Z.ltb_spec (2 * (a mod b)) b); [lia|].
  destruct (Z.ltb_spec b (2 * (a mod b))); [lia|].
  destruct (Z.even (a / b)); lia.
Qed.

(** Below 2^53 every natural number is a double. *)
Lemma nearest_safe z : 0 <= z < 2 ^ 53 → Js.nearest z = z.
Proof.
  intros Hz. unfold Js.nearest.
  assert (Z.log2 z <= 52) as Hlog.
  { destruct (Z.eq_dec z 0) as [->|]; [done|].
    assert (Z.log2 z < 53); [|lia]. apply Z.log2_lt_pow2; lia. }
  rewrite Z.max_l by lia. change (2 ^ 0) with 1.
  unfold Js.round_half_even. rewrite Z.div_1_r, Z.mod_1_r. simpl. lia.
Qed.

Lemma nearest_nonneg z : 0 <= z → 0 <= Js.nearest z.
Proof.
  intros Hz. unfold Js.nearest.
  set (e := Z.max 0 (Z.log2 z - 52)).
  assert (0 < 2 ^ e) as Hp by (apply Z.pow_pos_nonneg; lia).
  destruct (round_half_even_range z (2 ^ e) Hp) as [[Hlo _] _].
  assert (0 <= z / 2 ^ e) by (apply Z.div_pos; lia). nia.
Qed.

Lemma nearest_pos z : 0 < z → 0 < Js.nearest z.
Proof.
  intros Hz. unfold Js.nearest.
  set (e := Z.max 0 (Z.log2 z - 52)).
  assert (0 < 2 ^ e) as Hp by (apply Z.pow_pos_nonneg; lia).
  destruct (round_half_even_range z (2 ^ e) Hp) as [[Hlo _] _].
  assert (2 ^ e <= z) as Hle.
  { pose proof (Z.log2_nonneg z). destruct (Z.log2_spec z Hz) as [Hlog _].
    trans (2 ^ Z.log2 z); [apply Z.pow_le_mono_r; lia|done]. }
  assert (1 <= z / 2 ^ e) by (apply Z.div_le_lower_bound; lia). nia.
Qed.

Lemma of_Z_safe z : - 2 ^ 53 < z < 2 ^ 53 → Js.of_Z z = Js.Num z.
Proof.
  intros Hz. unfold Js.of_Z. rewrite nearest_safe by lia.
  destruct (Z.leb_spec (2 ^ 1024) (Z.abs z)) as [Hbig|_].
  - assert (2 ^ 53 < 2 ^ 1024) by (apply Z.pow_lt_mono_r; lia). lia.
  - f_equal. lia.
Qed.

(** The number value of a natural number is a natural number or
    [Infinity]. *)
Lemma of_Z_nonneg z :
  0 <= z → (∃ n, Js.of_Z z = Js.Num n ∧ 0 <= n) ∨ Js.of_Z z = Js.PosInf.
Proof.
  intros Hz. unfold Js.of_Z. pose proof (nearest_nonneg (Z.abs z) ltac:(lia)).
  destruct (2 ^ 1024 <=? Js.nearest (Z.abs z)).
  - right. by rewrite (proj2 (Z.ltb_ge z 0)) by lia.
  - left. eexists. split; [done|]. nia.
Qed.

(** Rounding keeps the sign. *)
Lemma sortCompare_of_Z z : (Js.sortCompare (Js.of_Z z) <=? 0) = (z <=? 0).
Proof.
  unfold Js.of_Z.
  destruct (Z.leb_spec (2 ^ 1024) (Js.nearest (Z.abs z))) as [Hbig|_].
  - destruct (Z.ltb_spec z 0); simpl.
    + symmetry. apply Z.leb_le. lia.
    + symmetry. apply Z.leb_gt.
      destruct (Z.eq_dec z 0) as [->|]; [|lia].
      assert (0 < 2 ^ 1024) by (apply Z.pow_pos_nonneg; lia).
      change (Js.nearest (Z.abs 0)) with 0 in Hbig. lia.
  - simpl. destruct (Z.lt_trichotomy z 0) as [Hneg|[->|Hpos]].
    + pose proof (nearest_pos (Z.abs z) ltac:(lia)).
      rewrite (proj2 (Z.leb_le z 0)) by lia. apply Z.leb_le. nia.
    + done.
    + pose proof (nearest_pos (Z.abs z) ltac:(lia)).
      rewrite (proj2 (Z.leb_gt z 0)) by lia. apply Z.leb_gt. nia.
Qed.

Lemma sortCompare_sub a b :
  (Js.sortCompare (Js.sub (Js.Num a) (Js.Num b)) <=? 0) = (a - b <=? 0).
Proof. apply sortCompare_of_Z. Qed.

(** Below 2^53 the rounded quotient by 60 has the floor of the exact
    one. *)
Lemma quotient_floor_60 x : 60 <= x < 2 ^ 53 → Js.quotient_floor x 60 = x / 60.
Proof.
  intros Hx. unfold Js.quotient_floor.
  destruct (Z.ltb_spec x 60) as [|_]; [lia|].
  set (k := x / 60).
  assert (1 <= k) as Hk1 by (apply Z.div_le_lower_bound; lia).
  assert (k < 2 ^ 48) as Hk2.
  { apply Z.div_lt_upper_bound; [lia|].
    change (2 ^ 53) with (32 * 2 ^ 48) in Hx. lia. }
  assert (Z.log2 k < 48) as Hlog by (apply Z.log2_lt_pow2; lia).
  pose proof (Z.log2_nonneg k) as Hlog0.
  destruct (Z.leb_spec 0 (Z.log2 k - 52)) as [|_]; [lia|].
  set (s := - (Z.log2 k - 52)).
  assert (5 <= s) as Hs by lia.
  assert (32 <= 2 ^ s) as HP.
  { change 32 with (2 ^ 5). apply Z.pow_le_mono_r; lia. }
  set (P := 2 ^ s) in *.
  pose proof (Z.div_mod x 60 ltac:(lia)) as Hdm. fold k in Hdm.
  pose proof (Z.mod_pos_bound x 60 ltac:(lia)) as Ht.
  set (t := x mod 60) in *.
  destruct (round_half_even_range (x * P) 60 ltac:(lia)) as [Hrange Hup].
  pose proof (Z.div_mod (x * P) 60 ltac:(lia)) as Hdm'.
  pose proof (Z.mod_pos_bound (x * P) 60 ltac:(lia)) as Hr.
  set (m := Js.round_half_even (x * P) 60) in *.
  set (d := x * P / 60) in *. set (r := (x * P) mod 60) in *.
  symmetry. apply Z.div_unique with (r := m - k * P); [|lia].
  left.
  assert (x * P = 60 * k * P + t * P) as HxP by (rewrite Hdm; ring).
  assert (0 <= t * P <= 59 * P) as HtP by nia.
  assert (k * P <= d) by nia.
  split; [lia|].
  destruct (Z.eq_dec m (d + 1)) as [Hm|Hm].
  - specialize (Hup Hm). nia.
  - assert (m = d) by lia. nia.
Qed.

(** Below 2^53 a natural number is written as its decimal numeral. *)
Lemma numberToString_safe n :
  0 <= n < 2 ^ 53 → Js.numberToString (Js.Num n) = Js.toString n.
Proof.
  intros Hn. unfold Js.numberToString, Js.naturalToString, Js.toString.
  rewrite (proj2 (Z.ltb_ge n 0)) by lia. by rewrite (proj2 (Z.ltb_lt n (2 ^ 53))) by lia.
Qed.

(** ** Dependency ordering *)

Lemma difficultyRank_cases c :
  difficultyRank c =
    if String.eqb (Concept.difficulty c) "Beginner" then 1
    else if String.eqb (Concept.difficulty c) "Advanced" then 3
    else 2.
Proof.
  unfold difficultyRank, difficultyOrder.
  destruct (String.eqb_spec (Concept.difficulty c) "Beginner") as [->|Hb]; [done|].
  rewrite lookup_insert_ne by done.
  destruct (String.eqb_spec (Concept.difficulty c) "Advanced") as [->|Ha]; [done|].
  destruct (String.eqb_spec (Concept.difficulty c) "Intermediate") as [->|Hi]; [done|].
  rewrite !lookup_insert_ne by done. by rewrite lookup_empty.
Qed.

(** A difficulty that names no member of [Object.prototype] is read as
    its rank. *)
Lemma difficultyEntry_plain c :
  plainDifficulty c → difficultyEntry c = inl (difficultyRank c).
Proof.
  unfold plainDifficulty, difficultyEntry, difficultyRank, Js.get. intros Hplain.
  destruct (difficultyOrder !! Concept.difficulty c) as [rank|]; [done|].
  by rewrite Hplain.
Qed.

(** A difficulty that names one is read as that member. *)
Lemma difficultyEntry_inherited c :
  Js.inherited (Concept.difficulty c) = true →
  difficultyEntry c = inr (Concept.difficulty c).
Proof.
  unfold difficultyEntry, Js.get, difficultyOrder. intros Hin.
  destruct (String.eqb_spec (Concept.difficulty c) "Beginner") as [Heq|Hb];
    [by rewrite Heq in Hin|].
  destruct (String.eqb_spec (Concept.difficulty c) "Intermediate") as [Heq|Hi];
    [by rewrite Heq in Hin|].
  destruct (String.eqb_spec (Concept.difficulty c) "Advanced") as [Heq|Ha];
    [by rewrite Heq in Hin|].
  rewrite !lookup_insert_ne by done. by rewrite lookup_empty, Hin.
Qed.

Lemma compareByDependency_plain a b :
  plainDifficulty a → plainDifficulty b →
  (Js.sortCompare (compareByDependency a b) <=? 0) = (compareByRank a b <=? 0).
Proof.
  intros Ha Hb. unfold compareByDependency, compareByRank.
  rewrite (difficultyEntry_plain a Ha), (difficultyEntry_plain b Hb).
  destruct (Z.eqb_spec (difficultyRank a) (difficultyRank b)) as [Heq|Hne].
  - rewrite Heq, bool_decide_eq_true_2 by done. apply sortCompare_sub.
  - rewrite bool_decide_eq_false_2 by congruence. apply sortCompare_sub.
Qed.

(** On concepts of plain difficulty the dependency sort is the sort by
    rank and number of prerequisites. *)
Lemma sortConceptsByDependency_plain h concepts :
  Forall (fun c => plainDifficulty (h c)) concepts →
  sortConceptsByDependency h concepts
  = Js.sort (fun a b => compareByRank (h a) (h b)) concepts.
Proof.
  rewrite Forall_forall. intros Hplain. unfold sortConceptsByDependency.
  apply sort_ext. intros x y Hx Hy. apply compareByDependency_plain; by apply Hplain.
Qed.

Lemma compareByRank_le a b :
  compareByRank a b <= 0 ↔
  difficultyRank a < difficultyRank b ∨
  (difficultyRank a = difficultyRank b ∧ prereqCount a <= prereqCount b).
Proof.
  unfold compareByRank.
  destruct (Z.eqb_spec (difficultyRank a) (difficultyRank b)); simpl; lia.
Qed.

Lemma compareByRank_total a b :
  0 < compareByRank a b → compareByRank b a <= 0.
Proof.
  intros H. apply compareByRank_le.
  assert (¬ compareByRank a b <= 0) as Hn by lia.
  rewrite compareByRank_le in Hn. lia.
Qed.

Lemma compareByRank_trans a b c :
  compareByRank a b <= 0 → compareByRank b c <= 0 →
  compareByRank a c <= 0.
Proof. rewrite !compareByRank_le. lia. Qed.

(** C2 (divergence). The claim has the difficulty ranks of the output
    never decrease, a difficulty outside the table counting as rank 2.
    The table is an object literal read by key, and the fallback to 2
    is not taken for a difficulty that names a member every object
    inherits: for the concepts Advanced, "constructor", Beginner, in
    this order, the comparator answers [NaN] on both pairs that
    involve the second concept, the array is left as it is, and rank 3
    stands in front of rank 1. *)
Theorem sortConceptsByDependency_inherited_difficulty :
  let sorted := sortConceptsByDependency memberStore [0; 1; 2]%nat in
  Concept.difficulty <$> (memberStore <$> [0; 1; 2]%nat)
    = ["Advanced"; "constructor"; "Beginner"] ∧
  compareByDependency (memberStore 0%nat) (memberStore 1%nat) = Js.NaN ∧
  compareByDependency (memberStore 1%nat) (memberStore 2%nat) = Js.NaN ∧
  sorted = [0; 1; 2]%nat ∧
  difficultyRank (memberStore 0%nat) = 3 ∧
  difficultyRank (memberStore 2%nat) = 1 ∧
  ¬ (∀ i j a b, (i < j)%nat → sorted !! i = Some a → sorted !! j = Some b →
                difficultyRank (memberStore a) <= difficultyRank (memberStore b)).
Proof.
  assert (sortConceptsByDependency memberStore [0; 1; 2]%nat = [0; 1; 2]%nat) as Hsorted
    by (by vm_compute).
  cbv zeta. rewrite Hsorted.
  repeat split; try by vm_compute.
  intros Hordered.
  specialize (Hordered 0%nat 2%nat 0%nat 2%nat ltac:(lia) eq_refl eq_refl).
  vm_compute in Hordered. by apply Hordered.
Qed.

(** X28. When no difficulty of the list is the name of a member of
    [Object.prototype], the output of [sortConceptsByDependency] is a
    rearrangement of its input in which difficulty ranks (Beginner 1,
    Intermediate 2, Advanced 3, any other difficulty 2) never decrease
    from an earlier to a later position, in which two neighbours of
    equal rank have non-decreasing prerequisite counts, and in which
    the concepts of equal rank and equal prerequisite count appear in
    their input order. *)
Theorem sortConceptsByDependency_ordered_stable (h : store) (concepts : list loc) :
  Forall (fun c => plainDifficulty (h c)) concepts →
  let sorted := sortConceptsByDependency h concepts in
  sorted ≡ₚ concepts ∧
  (∀ c, difficultyRank c =
          if String.eqb (Concept.difficulty c) "Beginner" then 1
          else if String.eqb (Concept.difficulty c) "Intermediate" then 2
          else if String.eqb (Concept.difficulty c) "Advanced" then 3
          else 2) ∧
  (∀ i j a b, (i < j)%nat → sorted !! i = Some a → sorted !! j = Some b →
              difficultyRank (h a) <= difficultyRank (h b)) ∧
  (∀ i a b, sorted !! i = Some a → sorted !! S i = Some b →
            difficultyRank (h a) = difficultyRank (h b) →
            prereqCount (h a) <= prereqCount (h b)) ∧
  (∀ r p, List.filter (hasSortKey h r p) sorted =
          List.filter (hasSortKey h r p) concepts).
Proof.
  intros Hplain.
  set (cmp := fun a b => compareByRank (h a) (h b)).
  assert (∀ x y, 0 < cmp x y → cmp y x <= 0) as Htot
    by (intros; by apply compareByRank_total).
  assert (∀ x y z, cmp x y <= 0 → cmp y z <= 0 → cmp x z <= 0) as Htr
    by (intros ???; apply compareByRank_trans).
  simpl. rewrite sortConceptsByDependency_plain by done. fold cmp.
  split; [apply sort_perm|].
  split.
  { intros c. rewrite difficultyRank_cases.
    repeat case_match; try done.
    repeat match goal with H : String.eqb _ _ = true |- _ => apply String.eqb_eq in H end.
    congruence. }
  split.
  { intros i j a b Hij Hi Hj.
    pose proof (sort_lookup_le cmp Htot Htr concepts i j a b Hij Hi Hj) as Hle.
    apply compareByRank_le in Hle. lia. }
  split.
  { intros i a b Hi Hj Heq.
    assert (i < S i)%nat as Hij by lia.
    pose proof (sort_lookup_le cmp Htot Htr concepts i (S i) a b Hij Hi Hj) as Hle.
    apply compareByRank_le in Hle. lia. }
  intros r p. apply sort_stable. intros x y Hx Hy.
  unfold hasSortKey in *. apply compareByRank_le. lia.
Qed.

Lemma sample_plain : Forall (fun c => plainDifficulty (sampleStore c)) [0; 1; 2; 3; 4]%nat.
Proof. repeat constructor. Qed.

Lemma sample_plain_ids :
  Forall (fun c => Js.inherited (Concept.id (sampleStore c)) = false) [0; 1; 2; 3; 4]%nat.
Proof. repeat constructor. Qed.

Lemma sortConceptsByDependency_ordered_stable_witness :
  sortConceptsByDependency sampleStore [0; 1; 2; 3; 4]%nat = [2; 1; 4; 3; 0]%nat ∧
  difficultyRank (sampleStore 4%nat) <= difficultyRank (sampleStore 3%nat) ∧
  prereqCount (sampleStore 2%nat) <= prereqCount (sampleStore 1%nat).
Proof.
  split; [by vm_compute|].
  destruct (sortConceptsByDependency_ordered_stable sampleStore [0; 1; 2; 3; 4]%nat
              sample_plain)
    as (_ & _ & Hrank & Hpre & _).
  split.
  - apply (Hrank 2%nat 3%nat); [lia|by vm_compute|by vm_compute].
  - apply (Hpre 0%nat); by vm_compute.
Defined.

(** ** Weak and strong areas *)

(** What the read of the performance map finds for a concept. *)
Lemma performanceOf_cases userPerformance c :
  performanceOf userPerformance c =
    if unrecordedMember userPerformance c then None
    else Some (recordOf userPerformance c).
Proof.
  unfold performanceOf, unrecordedMember, recordOf, Js.get.
  destruct (userPerformance !! Concept.id c) as [record|]; [done|].
  rewrite bool_decide_eq_true_2 by done. simpl.
  by destruct (Js.inherited (Concept.id c)).
Qed.

Lemma unrecordedMember_record userPerformance c :
  unrecordedMember userPerformance c = true → recordOf userPerformance c = Perf.missing.
Proof.
  unfold unrecordedMember, recordOf.
  intros [Hnone%bool_decide_eq_true _]%andb_true_iff. by rewrite Hnone.
Qed.

Lemma unrecordedMember_plain userPerformance c :
  Js.inherited (Concept.id c) = false → unrecordedMember userPerformance c = false.
Proof. unfold unrecordedMember. intros ->. apply andb_false_r. Qed.

Lemma weak_filter h userPerformance c :
  (let performance := performanceOf userPerformance (h c) in
   Js.lt (masteryLevelOf performance) (Js.Num 70)
   || Js.strict_eq (attemptsIn performance) (Js.Num 0))
  = classedWeak h userPerformance c.
Proof.
  cbv zeta. unfold classedWeak, masteryOf, attemptsOf. rewrite performanceOf_cases.
  by destruct (unrecordedMember userPerformance (h c)).
Qed.

Lemma strong_filter h userPerformance c :
  (let performance := performanceOf userPerformance (h c) in
   Js.ge (masteryLevelOf performance) (Js.Num 80))
  = (80 <=? masteryOf h userPerformance c).
Proof.
  cbv zeta. unfold masteryOf. rewrite performanceOf_cases.
  destruct (unrecordedMember userPerformance (h c)) eqn:Hm.
  - by rewrite (unrecordedMember_record _ _ Hm).
  - simpl. destruct (Z.ltb_spec (Perf.masteryLevel (recordOf userPerformance (h c))) 80),
             (Z.leb_spec 80 (Perf.masteryLevel (recordOf userPerformance (h c))));
      simpl; lia || done.
Qed.

Lemma masteryLevelOf_classedWeak h userPerformance c :
  classedWeak h userPerformance c = true →
  masteryLevelOf (performanceOf userPerformance (h c))
  = Js.Num (masteryOf h userPerformance c).
Proof.
  unfold classedWeak. rewrite performanceOf_cases.
  by destruct (unrecordedMember userPerformance (h c)).
Qed.

Lemma masteryLevelOf_strong h userPerformance c :
  (80 <=? masteryOf h userPerformance c) = true →
  masteryLevelOf (performanceOf userPerformance (h c))
  = Js.Num (masteryOf h userPerformance c).
Proof.
  unfold masteryOf. rewrite performanceOf_cases.
  destruct (unrecordedMember userPerformance (h c)) eqn:Hm; [|done].
  by rewrite (unrecordedMember_record _ _ Hm).
Qed.

(** The weak areas are the concepts the filter lets through, sorted by
    recorded mastery. *)
Lemma identifyWeakAreas_eq h concepts userPerformance :
  identifyWeakAreas h concepts userPerformance
  = Js.sort (fun a b => masteryOf h userPerformance a - masteryOf h userPerformance b)
      (List.filter (classedWeak h userPerformance) concepts).
Proof.
  unfold identifyWeakAreas.
  rewrite (List.filter_ext _ _ (weak_filter h userPerformance)).
  apply sort_ext. intros x y Hx Hy.
  apply list_elem_of_In, filter_In in Hx as [_ Hx].
  apply list_elem_of_In, filter_In in Hy as [_ Hy].
  cbv zeta. rewrite !masteryLevelOf_classedWeak by done. apply sortCompare_sub.
Qed.

Lemma identifyStrongAreas_eq h concepts userPerformance :
  identifyStrongAreas h concepts userPerformance
  = Js.sort (fun a b => masteryOf h userPerformance b - masteryOf h userPerformance a)
      (List.filter (fun c => 80 <=? masteryOf h userPerformance c) concepts).
Proof.
  unfold identifyStrongAreas.
  rewrite (List.filter_ext _ _ (strong_filter h userPerformance)).
  apply sort_ext. intros x y Hx Hy.
  apply list_elem_of_In, filter_In in Hx as [_ Hx].
  apply list_elem_of_In, filter_In in Hy as [_ Hy].
  cbv zeta. rewrite !masteryLevelOf_strong by done. apply sortCompare_sub.
Qed.

Lemma elem_of_identifyWeakAreas h concepts userPerformance c :
  c ∈ identifyWeakAreas h concepts userPerformance ↔
  c ∈ concepts ∧
  unrecordedMember userPerformance (h c) = false ∧
  (masteryOf h userPerformance c < 70 ∨ attemptsOf h userPerformance c = 0).
Proof.
  rewrite identifyWeakAreas_eq.
  rewrite elem_of_sort, list_elem_of_In, filter_In, <-list_elem_of_In.
  unfold classedWeak.
  rewrite andb_true_iff, negb_true_iff, orb_true_iff, Z.ltb_lt, Z.eqb_eq. done.
Qed.

Lemma elem_of_identifyStrongAreas h concepts userPerformance c :
  c ∈ identifyStrongAreas h concepts userPerformance ↔
  c ∈ concepts ∧ 80 <= masteryOf h userPerformance c.
Proof.
  rewrite identifyStrongAreas_eq.
  rewrite elem_of_sort, list_elem_of_In, filter_In, <-list_elem_of_In.
  rewrite Z.leb_le. done.
Qed.

Lemma identifyWeakAreas_sorted h concepts userPerformance i j a b :
  (i < j)%nat →
  identifyWeakAreas h concepts userPerformance !! i = Some a →
  identifyWeakAreas h concepts userPerformance !! j = Some b →
  masteryOf h userPerformance a <= masteryOf h userPerformance b.
Proof.
  rewrite identifyWeakAreas_eq. intros Hij Hi Hj.
  eapply sort_lookup_le in Hij; [| | |exact Hi|exact Hj]; simpl in *.
  - lia.
  - intros; lia.
  - intros; lia.
Qed.

Lemma identifyStrongAreas_sorted h concepts userPerformance i j a b :
  (i < j)%nat →
  identifyStrongAreas h concepts userPerformance !! i = Some a →
  identifyStrongAreas h concepts userPerformance !! j = Some b →
  masteryOf h userPerformance b <= masteryOf h userPerformance a.
Proof.
  rewrite identifyStrongAreas_eq. intros Hij Hi Hj.
  eapply sort_lookup_le in Hij; [| | |exact Hi|exact Hj]; simpl in *.
  - lia.
  - intros; lia.
  - intros; lia.
Qed.

(** C6 (divergence). The claim has every concept without a record in
    the weak areas. The record is read by key from an object, and the
    fallback to mastery 0 and no attempts is not taken for an id that
    names a member every object inherits: a concept with the id
    "constructor", the performance map being empty, is read as that
    member, whose mastery and attempts are [undefined]; it is left out
    of the weak areas (and of the strong ones), its difficulty is
    adjusted to Advanced, and the adaptive mix asks 2 mixed questions
    about it instead of 3 Beginner ones. *)
Theorem identifyWeakAreas_misses_inherited_id :
  let userPerformance : gmap string Perf.t := ∅ in
  Concept.id (memberStore 3%nat) = "constructor" ∧
  userPerformance !! Concept.id (memberStore 3%nat) = None ∧
  performanceOf userPerformance (memberStore 3%nat) = None ∧
  identifyWeakAreas memberStore [3%nat] userPerformance = [] ∧
  identifyStrongAreas memberStore [3%nat] userPerformance = [] ∧
  adjustDifficultyForPerformance (memberStore 3%nat) userPerformance = "Advanced" ∧
  adaptiveRequests memberStore [3%nat] userPerformance
    = [ {| requestConcept := 3%nat; requestOptions := mixedOptions |} ].
Proof. cbv zeta. repeat split; by vm_compute. Qed.

(** X29. A concept of the list whose id has no entry in the
    performance map, and is not the name of a member of
    [Object.prototype], is in the output of [identifyWeakAreas] and not
    in the output of [identifyStrongAreas]; whatever the ids, the
    former output is in ascending and the latter in descending order of
    recorded mastery, a missing record counting as mastery 0. *)
Theorem weak_strong_absent_and_sorted (h : store) (concepts : list loc)
        (userPerformance : gmap string Perf.t) :
  let weak := identifyWeakAreas h concepts userPerformance in
  let strong := identifyStrongAreas h concepts userPerformance in
  (∀ c, c ∈ concepts → userPerformance !! Concept.id (h c) = None →
        Js.inherited (Concept.id (h c)) = false →
        c ∈ weak ∧ c ∉ strong) ∧
  (∀ i j a b, (i < j)%nat → weak !! i = Some a → weak !! j = Some b →
              masteryOf h userPerformance a <= masteryOf h userPerformance b) ∧
  (∀ i j a b, (i < j)%nat → strong !! i = Some a → strong !! j = Some b →
              masteryOf h userPerformance b <= masteryOf h userPerformance a).
Proof.
  simpl. split; [|split].
  - intros c Hc Hnone Hplain.
    rewrite elem_of_identifyWeakAreas, elem_of_identifyStrongAreas.
    rewrite unrecordedMember_plain by done.
    unfold masteryOf, attemptsOf, recordOf. rewrite Hnone. simpl.
    split; [split; [done|split; [done|lia]]|]. intros [_ ?]. lia.
  - apply identifyWeakAreas_sorted.
  - apply identifyStrongAreas_sorted.
Qed.

Lemma weak_strong_absent_and_sorted_witness :
  identifyWeakAreas sampleStore [0; 1; 2; 3; 4]%nat samplePerformance = [3; 1; 2; 4]%nat ∧
  identifyStrongAreas sampleStore [0; 1; 2; 3; 4]%nat samplePerformance = [4; 0]%nat ∧
  (3%nat ∈ identifyWeakAreas sampleStore [0; 1; 2; 3; 4]%nat samplePerformance ∧
   3%nat ∉ identifyStrongAreas sampleStore [0; 1; 2; 3; 4]%nat samplePerformance) ∧
  masteryOf sampleStore samplePerformance 1%nat <= masteryOf sampleStore samplePerformance 4%nat ∧
  masteryOf sampleStore samplePerformance 0%nat <= masteryOf sampleStore samplePerformance 4%nat.
Proof.
  split; [by vm_compute|]. split; [by vm_compute|].
  destruct (weak_strong_absent_and_sorted sampleStore [0; 1; 2; 3; 4]%nat samplePerformance)
    as (Habs & Hweak & Hstrong).
  split; [|split].
  - apply Habs; [|reflexivity|reflexivity]. apply list_elem_of_In. simpl. tauto.
  - apply (Hweak 1%nat 3%nat); [lia|by vm_compute|by vm_compute].
  - apply (Hstrong 0%nat 1%nat); [lia|by vm_compute|by vm_compute].
Defined.

(** C7. Weak and strong are not exclusive: a concept of the list whose
    performance record has no attempt and a mastery of at least 80 is in
    the output of [identifyWeakAreas] and in the output of
    [identifyStrongAreas]; when it is the only concept of the list, the
    adaptive mix requests it twice, as a weak concept and as the
    strongest concept. *)
Theorem weak_strong_overlap (h : store) (concepts : list loc)
        (userPerformance : gmap string Perf.t) (c : loc) (p : Perf.t) :
  c ∈ concepts →
  userPerformance !! Concept.id (h c) = Some p →
  Perf.attempts p = 0 →
  80 <= Perf.masteryLevel p →
  (c ∈ identifyWeakAreas h concepts userPerformance ∧
   c ∈ identifyStrongAreas h concepts userPerformance) ∧
  (concepts = [c] →
   adaptiveRequests h concepts userPerformance =
     [ {| requestConcept := c; requestOptions := weakOptions h userPerformance c |};
       {| requestConcept := c; requestOptions := strongOptions |} ]).
Proof.
  intros Hc Hp Hatt Hm.
  assert (recordOf userPerformance (h c) = p) as Hrec
    by (unfold recordOf; by rewrite Hp).
  assert (unrecordedMember userPerformance (h c) = false) as Hown.
  { unfold unrecordedMember. by rewrite Hp. }
  assert (c ∈ identifyWeakAreas h concepts userPerformance ∧
          c ∈ identifyStrongAreas h concepts userPerformance) as Hboth.
  { rewrite elem_of_identifyWeakAreas, elem_of_identifyStrongAreas.
    unfold masteryOf, attemptsOf. rewrite Hrec. auto. }
  split; [done|].
  intros ->. unfold adaptiveRequests.
  rewrite identifyWeakAreas_eq, identifyStrongAreas_eq.
  cbn [List.filter]. unfold classedWeak, masteryOf, attemptsOf.
  rewrite Hown, Hrec, Hatt.
  rewrite (proj2 (Z.leb_le 80 (Perf.masteryLevel p)) Hm).
  rewrite orb_true_r. simpl. by rewrite Nat.eqb_refl.
Qed.

Lemma weak_strong_overlap_witness :
  (4%nat ∈ identifyWeakAreas sampleStore [0; 1; 2; 3; 4]%nat samplePerformance ∧
   4%nat ∈ identifyStrongAreas sampleStore [0; 1; 2; 3; 4]%nat samplePerformance) ∧
  adaptiveRequests sampleStore [4%nat] samplePerformance =
    [ {| requestConcept := 4%nat;
         requestOptions := weakOptions sampleStore samplePerformance 4%nat |};
      {| requestConcept := 4%nat; requestOptions := strongOptions |} ].
Proof.
  split.
  - apply (weak_strong_overlap sampleStore [0; 1; 2; 3; 4]%nat samplePerformance
             4%nat (Perf.mk 95 0)); [|reflexivity|reflexivity|simpl; lia].
    apply list_elem_of_In. simpl. tauto.
  - apply (weak_strong_overlap sampleStore [4%nat] samplePerformance
             4%nat (Perf.mk 95 0)); [|reflexivity|reflexivity|simpl; lia|reflexivity].
    apply list_elem_of_In. simpl. tauto.
Defined.

(** ** The learning pathway *)

(** C3. In the pathway [createLearningPathway] returns for a concept
    list, which has one element per concept, the element at position 0
    is unlocked and every other element is locked; for the empty and for
    the absent list the pathway is empty and the total estimated time is
    the string "0 min". *)
Theorem createLearningPathway_unlocks_first (h : store) :
  (∀ concepts,
     length (pathway (createLearningPathway h (Some concepts))) = length concepts) ∧
  (∀ concepts i item,
     pathway (createLearningPathway h (Some concepts)) !! i = Some item →
     isUnlocked item = true ↔ i = 0%nat) ∧
  (∀ concepts,
     concepts = None ∨ concepts = Some [] →
     pathway (createLearningPathway h concepts) = [] ∧
     totalEstimatedTime (createLearningPathway h concepts) = "0 min").
Proof.
  split; [|split].
  - intros [|c cs]; [done|].
    unfold createLearningPathway. cbn [pathway].
    rewrite length_imap. unfold sortConceptsByDependency. apply sort_length.
  - intros [|c cs] i item; [done|].
    unfold createLearningPathway. cbn [pathway].
    rewrite list_lookup_imap_Some. intros (y & _ & ->). simpl.
    apply Nat.eqb_eq.
  - intros concepts [-> | ->]; done.
Qed.

Lemma createLearningPathway_unlocks_first_witness :
  isUnlocked <$> pathway (createLearningPathway sampleStore (Some [0; 1; 2; 3; 4]%nat))
    = [true; false; false; false; false] ∧
  (pathway (createLearningPathway sampleStore None) = [] ∧
   totalEstimatedTime (createLearningPathway sampleStore None) = "0 min").
Proof.
  split; [reflexivity|].
  apply (createLearningPathway_unlocks_first sampleStore). by left.
Defined.

(** ** Formatting a duration *)

Lemma formatMinutesToTime_minutes n :
  0 <= n < 60 → formatMinutesToTime (Js.Num n) = Js.toString n +:+ " min".
Proof.
  intros Hn. unfold formatMinutesToTime. cbn [Js.lt].
  rewrite (proj2 (Z.ltb_lt n 60)) by lia.
  rewrite numberToString_safe; [done|].
  assert (60 < 2 ^ 53) by done. lia.
Qed.

Lemma formatMinutesToTime_hours n :
  60 <= n < 2 ^ 53 →
  formatMinutesToTime (Js.Num n) =
    if n `mod` 60 =? 0
    then Js.toString (n `div` 60) +:+ " hour" +:+ (if 1 <? n `div` 60 then "s" else "")
    else Js.toString (n `div` 60) +:+ "h " +:+ Js.toString (n `mod` 60) +:+ "min".
Proof.
  intros Hn. unfold formatMinutesToTime. cbn [Js.lt Js.floor_div Js.rem].
  rewrite (proj2 (Z.ltb_ge n 60)) by lia.
  rewrite (proj2 (Z.leb_le 0 n)) by lia.
  rewrite quotient_floor_60, Z.rem_mod_nonneg by lia.
  cbn [Js.strict_eq Js.gt Js.lt].
  assert (0 <= n `div` 60 < 2 ^ 53) as Hh.
  { split; [apply Z.div_pos; lia|]. apply Z.div_lt_upper_bound; lia. }
  assert (0 <= n `mod` 60 < 2 ^ 53) as Hm.
  { pose proof (Z.mod_pos_bound n 60 ltac:(lia)). assert (60 < 2 ^ 53) by done. lia. }
  by rewrite !numberToString_safe by done.
Qed.

(** C5 (counterexample). The claim speaks of every natural number. From
    2^53 on the quotient by 60 is rounded before it is floored: for
    67553994410557496 minutes, which is 60 * 2^50 + 56, the text
    counts 2^50 + 1 hours. *)
Lemma formatsEveryNatural_fails : ¬ formatsEveryNatural.
Proof.
  intros Hclaim.
  destruct (Hclaim 67553994410557496 ltac:(lia) ltac:(by vm_compute))
    as (_ & _ & _ & Hcase).
  specialize (Hcase ltac:(lia) ltac:(by vm_compute)).
  vm_compute in Hcase. discriminate Hcase.
Qed.

(** C5 (amended). For a natural number [n] of minutes below 2^53,
    [formatMinutesToTime] returns "[n] min" when [n < 60]; "[h] hour"
    when [n] is a multiple of 60 and [h = n / 60] is 1, "[h] hours"
    when [h > 1]; and "[h]h [m]min" with [m = n mod 60] otherwise, the
    numbers written as decimal numerals. It maps 45 to "45 min", 60 to
    "1 hour", 120 to "2 hours" and 90 to "1h 30min". *)
Theorem formatMinutesToTime_cases (n : Z) :
  0 <= n < 2 ^ 53 →
  (n < 60 → formatMinutesToTime (Js.Num n) = Js.toString n +:+ " min") ∧
  (60 <= n → n `mod` 60 = 0 → n `div` 60 = 1 →
   formatMinutesToTime (Js.Num n) = Js.toString (n `div` 60) +:+ " hour") ∧
  (60 <= n → n `mod` 60 = 0 → 1 < n `div` 60 →
   formatMinutesToTime (Js.Num n) = Js.toString (n `div` 60) +:+ " hours") ∧
  (60 <= n → n `mod` 60 ≠ 0 →
   formatMinutesToTime (Js.Num n) =
     Js.toString (n `div` 60) +:+ "h " +:+ Js.toString (n `mod` 60) +:+ "min") ∧
  formatMinutesToTime (Js.Num 45) = "45 min" ∧
  formatMinutesToTime (Js.Num 60) = "1 hour" ∧
  formatMinutesToTime (Js.Num 120) = "2 hours" ∧
  formatMinutesToTime (Js.Num 90) = "1h 30min".
Proof.
  intros Hn.
  split; [|split; [|split; [|split; [|repeat split; by vm_compute]]]].
  - intros Hlt. apply formatMinutesToTime_minutes. lia.
  - intros Hge Hm Hh. rewrite formatMinutesToTime_hours by lia. by rewrite Hm, Hh.
  - intros Hge Hm Hh. rewrite formatMinutesToTime_hours by lia. rewrite Hm.
    by rewrite (proj2 (Z.ltb_lt 1 (n `div` 60))) by lia.
  - intros Hge Hm. rewrite formatMinutesToTime_hours by lia.
    by rewrite (proj2 (Z.eqb_neq _ _) Hm).
Qed.

Lemma formatMinutesToTime_cases_witness :
  formatMinutesToTime (Js.Num 7) = "7 min" ∧
  formatMinutesToTime (Js.Num 180) = "3 hours" ∧
  formatMinutesToTime (Js.Num 135) = "2h 15min".
Proof.
  assert (∀ n, 0 <= n < 1000 → 0 <= n < 2 ^ 53) as Hsafe.
  { intros n Hn. assert (1000 < 2 ^ 53) by done. lia. }
  split; [|split].
  - apply (formatMinutesToTime_cases 7); [apply Hsafe|]; lia.
  - apply (formatMinutesToTime_cases 180); [apply Hsafe; lia|lia|reflexivity|reflexivity].
  - apply (formatMinutesToTime_cases 135); [apply Hsafe; lia|lia|done].
Defined.

(** ** The shuffle *)

Lemma swap_perm {A} (i j : nat) (a : list A) : swap i j a ≡ₚ a.
Proof.
  unfold swap. destruct (a !! i) as [x|] eqn:Hi; [|done].
  destruct (a !! j) as [y|] eqn:Hj; [|done].
  by apply Permutation_insert_swap.
Qed.

Lemma shuffleLoop_perm {A} w draw i (a : list A) : shuffleLoop w draw i a ≡ₚ a.
Proof.
  revert draw a. induction i as [|i IH]; intros draw a; simpl; [done|].
  by rewrite IH, swap_perm.
Qed.

Lemma swap_fmap {A B} (f : A → B) i j (a : list A) :
  swap i j (f <$> a) = f <$> swap i j a.
Proof.
  unfold swap. rewrite !list_lookup_fmap.
  destruct (a !! i) as [x|]; [|done]. destruct (a !! j) as [y|]; [|done].
  simpl. by rewrite !list_fmap_insert.
Qed.

Lemma shuffleLoop_fmap {A B} (f : A → B) w draw i (a : list A) :
  shuffleLoop w draw i (f <$> a) = f <$> shuffleLoop w draw i a.
Proof.
  revert draw a. induction i as [|i IH]; intros draw a; simpl; [done|].
  by rewrite swap_fmap, IH.
Qed.

Lemma randomIndex_le r i : (randomIndex r i <= i)%nat.
Proof.
  unfold randomIndex. destruct r as [n d Hb]. simpl.
  apply Nat.ltb_lt in Hb.
  apply Nat.lt_succ_r. apply Nat.Div0.div_lt_upper_bound. nia.
Qed.

(** Inside the loop both indices are in range: the exchange is a real
    one, never the fall-back of [swap]. *)
Lemma swap_in_range {A} (r : Random) (i : nat) (a : list A) :
  (i < length a)%nat →
  ∃ x y, a !! i = Some x ∧ a !! randomIndex r i = Some y ∧
         swap i (randomIndex r i) a = <[randomIndex r i := x]> (<[i := y]> a).
Proof.
  intros Hi. pose proof (randomIndex_le r i) as Hj.
  destruct (lookup_lt_is_Some_2 a i Hi) as [x Hx].
  destruct (lookup_lt_is_Some_2 a (randomIndex r i)) as [y Hy]; [lia|].
  exists x, y. unfold swap. by rewrite Hx, Hy.
Qed.


Lemma shuffleQuestions_renumber (w : World) (questions : list Question.t) :
  ∃ shuffled, shuffled ≡ₚ questions ∧ shuffleQuestions w questions = renumber shuffled.
Proof.
  exists (shuffleLoop w 0 (length questions - 1) questions).
  split; [apply shuffleLoop_perm|done].
Qed.



(** ** The adaptive mix *)

Lemma firstRejection_None {A} (outcomes : list (result A)) :
  (∀ k e, outcomes !! k ≠ Some (Err e)) → firstRejection outcomes = None.
Proof.
  induction outcomes as [|o l IH]; intros Hnone; [done|].
  destruct o as [a|e|]; simpl.
  - apply IH. intros k e. apply (Hnone (S k)).
  - by destruct (Hnone 0%nat e).
  - apply IH. intros k e. apply (Hnone (S k)).
Qed.

Lemma firstRejection_Some {A} (outcomes : list (result A)) k message :
  outcomes !! k = Some (Err message) → ∃ e, firstRejection outcomes = Some e.
Proof.
  revert k. induction outcomes as [|o l IH]; intros k Hk; [done|].
  destruct k as [|k]; simpl in Hk.
  - injection Hk as ->. by eexists.
  - destruct o as [a|e|]; simpl; eauto.
Qed.

Lemma Promise_all_fulfilled {A} (outcomes : list (result A)) :
  (∀ k e, outcomes !! k ≠ Some (Err e)) →
  Promise_all outcomes = Ok (fulfilledWith <$> outcomes).
Proof. intros Hnone. unfold Promise_all. by rewrite firstRejection_None. Qed.

Lemma Promise_all_Err {A} (outcomes : list (result A)) k message :
  outcomes !! k = Some (Err message) → ∃ e, Promise_all outcomes = Err e.
Proof.
  intros Hk. unfold Promise_all.
  destruct (firstRejection_Some outcomes k message Hk) as [e ->]. by eexists.
Qed.

Lemma issue_lookup h w requests k :
  issue h w requests !! k = outcome h w k <$> requests !! k.
Proof. unfold issue. by rewrite list_lookup_imap. Qed.

Lemma issue_fulfilled h w requests :
  noCallRejected h w requests → ∀ k e, issue h w requests !! k ≠ Some (Err e).
Proof.
  intros Hall k e. rewrite issue_lookup.
  destruct (requests !! k) as [r|] eqn:Hk; [|done]. simpl.
  intros [= Hout]. by apply (Hall k r e).
Qed.

Lemma imap_all_Ok {A B} (f : nat → A → result B) (l : list A) :
  (∀ k x, l !! k = Some x → ∃ b, f k x = Ok b) →
  ∃ bs, imap f l = Ok <$> bs.
Proof.
  revert f. induction l as [|x l IH]; intros f Hall.
  - by exists [].
  - destruct (Hall 0%nat x eq_refl) as [b Hb].
    destruct (IH (f ∘ S)) as [bs Hbs].
    { intros k y Hk. apply (Hall (S k) y Hk). }
    exists (b :: bs). csimpl. by rewrite Hb, Hbs.
Qed.

Lemma issue_all_Ok h w requests :
  allCallsSucceed h w requests → ∃ sets, issue h w requests = Ok <$> sets.
Proof. intros Hall. by apply imap_all_Ok. Qed.

Lemma length_concat_sum {A} (sets : list (list A)) :
  length (concat sets) = sum_list (length <$> sets).
Proof.
  induction sets as [|s l IH]; simpl; [done|]. by rewrite length_app, IH.
Qed.

Lemma flat_Some {A} (sets : list (list A)) :
  Js.flat (Some <$> sets) = Some <$> concat sets.
Proof.
  unfold Js.flat. induction sets as [|x l IH]; csimpl; [done|].
  by rewrite IH, fmap_app.
Qed.

Lemma length_flat (values : list (option (list Question.t))) :
  length (Js.flat values) = sum_list (entryCount <$> values).
Proof.
  unfold Js.flat. induction values as [|v l IH]; csimpl; [done|].
  rewrite length_app, IH. destruct v; simpl; [by rewrite length_fmap|done].
Qed.

Lemma fulfilledWith_Ok {A} (sets : list A) :
  fulfilledWith <$> (Ok <$> sets) = Some <$> sets.
Proof. induction sets as [|x l IH]; csimpl; [done|]. by rewrite IH. Qed.

Lemma shuffleEntries_renumber (w : World) (questions : list (option Question.t)) :
  ∃ shuffled, shuffled ≡ₚ questions ∧ shuffleEntries w questions = renumberEntries shuffled.
Proof.
  exists (shuffleLoop w 0 (length questions - 1) questions).
  split; [apply shuffleLoop_perm|done].
Qed.

(** On an array without [undefined] the shuffle delivers the questions
    [shuffleQuestions] returns. *)
Lemma shuffleEntries_questions (w : World) (questions : list Question.t) :
  shuffleEntries w (Some <$> questions) = Numbered <$> shuffleQuestions w questions.
Proof.
  unfold shuffleEntries, shuffleQuestions.
  rewrite length_fmap, shuffleLoop_fmap, imap_fmap, fmap_imap. by apply imap_ext.
Qed.

Lemma fold_left_push {A B} (f : A → B) (l : list A) (init : list B) :
  fold_left (fun acc x => acc ++ [f x]) l init = init ++ (f <$> l).
Proof.
  revert init. induction l as [|x l IH]; intros init; simpl.
  - by rewrite app_nil_r.
  - by rewrite IH, <-app_assoc.
Qed.

Lemma fold_left_push_if {A B} (p : A → bool) (f : A → B) (l : list A) (init : list B) :
  fold_left (fun acc x => if p x then acc ++ [f x] else acc) l init
  = init ++ (f <$> List.filter p l).
Proof.
  revert init. induction l as [|x l IH]; intros init; simpl.
  - by rewrite app_nil_r.
  - rewrite IH. destruct (p x); [|done]. by rewrite <-app_assoc.
Qed.

(** C9. When one of the calls [generateAdaptiveQuestions] issues is
    rejected, the operation as a whole is rejected with its own error
    and delivers no question of the calls that were fulfilled. *)
Theorem generateAdaptiveQuestions_all_or_nothing (h : store) (w : World)
        (concepts : list loc) (userPerformance : gmap string Perf.t)
        (k : nat) (r : Request) (message : string) :
  adaptiveRequests h concepts userPerformance !! k = Some r →
  generateQuestionsForConcept w k (h (requestConcept r)) (requestOptions r) = Err message →
  generateAdaptiveQuestions h w concepts userPerformance
    = Err "Failed to generate adaptive questions".
Proof.
  intros Hk Hfail. unfold generateAdaptiveQuestions.
  destruct (Promise_all_Err (issue h w (adaptiveRequests h concepts userPerformance))
              k message) as [e ->]; [|done].
  rewrite issue_lookup, Hk. simpl. unfold outcome. by rewrite Hfail.
Qed.

Lemma generateAdaptiveQuestions_all_or_nothing_witness :
  generateAdaptiveQuestions sampleStore (obligingWorld (Some 3%nat))
    [0; 1; 2; 3; 4]%nat samplePerformance
  = Err "Failed to generate adaptive questions".
Proof.
  apply (generateAdaptiveQuestions_all_or_nothing sampleStore (obligingWorld (Some 3%nat))
           [0; 1; 2; 3; 4]%nat samplePerformance 3%nat
           {| requestConcept := 0%nat; requestOptions := mixedOptions |}
           "Failed to generate questions for concept");
    by vm_compute.
Defined.

Lemma imap_Ok_total {A B} (f : nat → A → result (list B)) (g : A → Z)
      (l : list A) (bs : list (list B)) :
  imap f l = Ok <$> bs →
  (∀ k x, l !! k = Some x → ∃ b, f k x = Ok b ∧ Z.of_nat (length b) = g x) →
  Z.of_nat (sum_list (length <$> bs)) = foldr (fun x total => g x + total) 0 l.
Proof.
  revert f bs. induction l as [|x l IH]; intros f bs Heq Hlen.
  - by destruct bs.
  - destruct bs as [|b bs]; [done|]. csimpl in *. injection Heq as Hb Hbs.
    rewrite Nat2Z.inj_add, (IH (f ∘ S) bs Hbs).
    + destruct (Hlen 0%nat x eq_refl) as (b' & Hb' & Hcount).
      rewrite Hb in Hb'. injection Hb' as <-. by rewrite Hcount.
    + intros k y Hk. apply (Hlen (S k) y Hk).
Qed.

(** C1 (counterexample). The adaptive mix falls short of the requested
    size when the endpoint answers a call with fewer questions than the
    prompt asks for: one unseen concept, three questions requested, none
    returned, every call fulfilled. *)
Lemma requestedCountDelivered_fails : ¬ requestedCountDelivered.
Proof.
  intros Hclaim.
  destruct (Hclaim sampleStore silentWorld [3%nat] ∅) as (questions & Hgen & Hlen).
  - intros k r Hk. by eexists.
  - vm_compute in Hgen. injection Hgen as <-. vm_compute in Hlen. discriminate.
Qed.

(** C1 (amended). [generateAdaptiveQuestions] issues, in this order: for
    each of the first 3 weak concepts a call for 3 questions at the
    difficulty [adjustDifficultyForPerformance] computes; for each of
    the first 2 concepts of the unfiltered list that is not among the
    weak concepts a call for 2 questions; and, when there is a strong
    concept, a call for 1 Advanced question on the strongest. When no
    call is rejected the result is the flattened array of the values
    the calls were fulfilled with, in call order, rearranged and
    numbered by position: a call fulfilled with an array adds its
    questions, and a call fulfilled with [undefined] (a reply without
    questions) adds one element that has a number and nothing else.
    When every call is fulfilled with an array the result is the
    concatenation, in call order, of the returned question lists,
    rearranged and re-numbered by position, so that its length is the
    sum of the lengths of the returned lists; it is the sum of the
    requested counts when every call returns as many questions as it
    asked for. *)
Theorem generateAdaptiveQuestions_mix (h : store) (w : World) (concepts : list loc)
        (userPerformance : gmap string Perf.t) :
  let weak := identifyWeakAreas h concepts userPerformance in
  let strong := identifyStrongAreas h concepts userPerformance in
  let requests := adaptiveRequests h concepts userPerformance in
  requests =
    ((fun c => {| requestConcept := c;
                  requestOptions :=
                    {| questionCount := Some 3; questionTypes := None;
                       difficultyLevel :=
                         Some (adjustDifficultyForPerformance (h c) userPerformance);
                       includeExplanations := None |} |}) <$> take 3 weak)
    ++ ((fun c => {| requestConcept := c;
                     requestOptions :=
                       {| questionCount := Some 2;
                          questionTypes := Some ["multiple_choice"; "short_answer"];
                          difficultyLevel := None; includeExplanations := None |} |})
          <$> List.filter (fun c => negb (includes_loc weak c)) (take 2 concepts))
    ++ match strong with
       | c :: _ => [ {| requestConcept := c;
                        requestOptions :=
                          {| questionCount := Some 1; questionTypes := None;
                             difficultyLevel := Some "Advanced";
                             includeExplanations := None |} |} ]
       | [] => []
       end ∧
  (noCallRejected h w requests →
   ∃ shuffled,
     shuffled ≡ₚ Js.flat (fulfilledWith <$> issue h w requests) ∧
     generateAdaptiveQuestions h w concepts userPerformance
       = Ok (renumberEntries shuffled) ∧
     length (renumberEntries shuffled)
       = sum_list (entryCount <$> (fulfilledWith <$> issue h w requests))) ∧
  (allCallsSucceed h w requests →
   ∃ sets shuffled,
     issue h w requests = Ok <$> sets ∧
     shuffled ≡ₚ concat sets ∧
     generateAdaptiveQuestions h w concepts userPerformance
       = Ok (Numbered <$> renumber shuffled) ∧
     length (renumber shuffled) = sum_list (length <$> sets) ∧
     (countsHonoured h w requests →
      Z.of_nat (length (renumber shuffled)) = requestedTotal requests)).
Proof.
  intros weak strong requests. split; [|split].
  - unfold requests, adaptiveRequests. fold weak. fold strong.
    rewrite fold_left_push, fold_left_push_if. simpl.
    destruct strong; [by rewrite app_nil_r|]. by rewrite <-app_assoc.
  - intros Hall.
    destruct (shuffleEntries_renumber w (Js.flat (fulfilledWith <$> issue h w requests)))
      as (shuffled & Hperm & Heq).
    exists shuffled. split; [done|]. split.
    + unfold generateAdaptiveQuestions. fold requests.
      rewrite Promise_all_fulfilled by by apply issue_fulfilled.
      by rewrite Heq.
    + unfold renumberEntries. by rewrite length_imap, Hperm, length_flat.
  - intros Hall. destruct (issue_all_Ok h w requests Hall) as [sets Hsets].
    destruct (shuffleQuestions_renumber w (concat sets)) as (shuffled & Hperm & Heq).
    exists sets, shuffled.
    assert (length (renumber shuffled) = sum_list (length <$> sets)) as Hlen.
    { unfold renumber. by rewrite length_imap, Hperm, length_concat_sum. }
    repeat split; try done.
    + unfold generateAdaptiveQuestions. fold requests.
      rewrite Promise_all_fulfilled.
      * by rewrite Hsets, fulfilledWith_Ok, flat_Some, shuffleEntries_questions, Heq.
      * intros k e. rewrite Hsets, list_lookup_fmap. by destruct (sets !! k).
    + intros Hcount. rewrite Hlen. unfold requestedTotal.
      apply (imap_Ok_total (outcome h w)); [exact Hsets|].
      intros k r Hk. by apply (Hcount k r).
Qed.

Lemma sample_requests :
  adaptiveRequests sampleStore [0; 1; 2; 3; 4]%nat samplePerformance =
    [ {| requestConcept := 3%nat;
         requestOptions := weakOptions sampleStore samplePerformance 3%nat |};
      {| requestConcept := 1%nat;
         requestOptions := weakOptions sampleStore samplePerformance 1%nat |};
      {| requestConcept := 2%nat;
         requestOptions := weakOptions sampleStore samplePerformance 2%nat |};
      {| requestConcept := 0%nat; requestOptions := mixedOptions |};
      {| requestConcept := 4%nat; requestOptions := strongOptions |} ].
Proof. vm_compute. reflexivity. Qed.

Lemma sample_counts_honoured :
  countsHonoured sampleStore (obligingWorld None)
    (adaptiveRequests sampleStore [0; 1; 2; 3; 4]%nat samplePerformance).
Proof.
  intros k r Hk. rewrite sample_requests in Hk.
  do 5 (destruct k as [|k];
        [injection Hk as <-; eexists; split; vm_compute; reflexivity|]).
  done.
Qed.

Lemma sample_calls_succeed :
  allCallsSucceed sampleStore (obligingWorld None)
    (adaptiveRequests sampleStore [0; 1; 2; 3; 4]%nat samplePerformance).
Proof.
  intros k r Hk. destruct (sample_counts_honoured k r Hk) as (questions & Hq & _).
  by exists questions.
Qed.

Lemma generateAdaptiveQuestions_mix_witness :
  let requests := adaptiveRequests sampleStore [0; 1; 2; 3; 4]%nat samplePerformance in
  requestConcept <$> requests = [3; 1; 2; 0; 4]%nat ∧
  requestedTotal requests = 12 ∧
  (∃ sets shuffled,
     issue sampleStore (obligingWorld None) requests = Ok <$> sets ∧
     shuffled ≡ₚ concat sets ∧
     generateAdaptiveQuestions sampleStore (obligingWorld None)
       [0; 1; 2; 3; 4]%nat samplePerformance = Ok (Numbered <$> renumber shuffled) ∧
     Z.of_nat (length (renumber shuffled)) = 12) ∧
  generateAdaptiveQuestions sampleStore voidWorld [3%nat] ∅ = Ok [NumberOnly 1].
Proof.
  intros requests.
  split; [vm_compute; reflexivity|]. split; [vm_compute; reflexivity|].
  split; [|by vm_compute].
  destruct (proj2 (proj2 (generateAdaptiveQuestions_mix sampleStore (obligingWorld None)
                            [0; 1; 2; 3; 4]%nat samplePerformance)) sample_calls_succeed)
    as (sets & shuffled & Hsets & Hperm & Hgen & _ & Htotal).
  exists sets, shuffled.
  split; [exact Hsets|]. split; [exact Hperm|]. split; [exact Hgen|].
  rewrite (Htotal sample_counts_honoured). vm_compute. reflexivity.
Defined.

(** ** File validation *)

(** What [validateFile] decides: a present file passes when it is not
    larger than the limit and its type contains the part before the
    slash of some allowed type, that is "text" or "application". *)
Lemma validateFile_valid_iff (file : option File.t) :
  isValid (validateFile file) = true ↔
  ∃ f, file = Some f ∧ File.size f <= maxSize ∧
       (Js.includes (File.type f) "text" = true ∨
        Js.includes (File.type f) "application" = true).
Proof.
  destruct file as [f|]; simpl; [|split; [done|by intros (? & ? & _)]].
  destruct (File.size f >? maxSize) eqn:Hsize; simpl.
  - split; [done|]. intros (? & [= <-] & Hle & _).
    apply Z.gtb_lt in Hsize. lia.
  - assert (File.size f <= maxSize) as Hle.
    { destruct (Z.gtb_spec (File.size f) maxSize); [done|lia]. }
    change (Js.split_head "/" "text/plain") with "text".
    change (Js.split_head "/" "text/markdown") with "text".
    change (Js.split_head "/" "text/csv") with "text".
    change (Js.split_head "/" "application/json") with "application".
    change (Js.split_head "/" "application/pdf") with "application".
    destruct (Js.includes (File.type f) "text") eqn:Ht,
             (Js.includes (File.type f) "application") eqn:Ha; simpl;
      (split;
       [ intros Hv; try discriminate Hv; exists f; repeat split; auto
       | intros (g & [= <-] & _ & [Hg|Hg]); congruence ]).
Qed.

Lemma validateFile_rejects (file : option File.t) :
  (file = None → validateFile file =
                   {| isValid := false; error := Some "No file provided" |}) ∧
  (∀ f, file = Some f → maxSize < File.size f →
        validateFile file =
          {| isValid := false; error := Some "File size exceeds 10MB limit" |}).
Proof.
  split; [by intros ->|]. intros f -> Hsize. simpl.
  by rewrite (proj2 (Z.gtb_lt _ _) Hsize).
Qed.

(** C10 (divergence). The claim has every file whose type is not on the
    allow-list rejected; [validateFile] compares only the part of each
    allowed type before the slash, and reports a 1 KiB file of type
    "application/zip", which is not on the allow-list, as valid. *)
Theorem validateFile_accepts_unlisted_type :
  (File.type zipFile ∉ allowedTypes) ∧
  File.size zipFile <= maxSize ∧
  validateFile (Some zipFile) = {| isValid := true; error := None |}.
Proof.
  split; [|split].
  - unfold allowedTypes, zipFile. simpl. rewrite !elem_of_cons, elem_of_nil.
    intros H. repeat (destruct H as [H|H]; [discriminate H|]). done.
  - vm_compute. discriminate.
  - reflexivity.
Qed.

(** ** Reading a duration *)

Ltac by_cases_on_char c :=
  destruct c as [[] [] [] [] [] [] [] []]; vm_compute; try reflexivity; try discriminate;
  try tauto.

Lemma digit_not_space c : Js.is_digit c = true → Js.is_space c = false.
Proof. by_cases_on_char c. Qed.

Lemma digit_not_unit_letter c :
  Js.is_digit c = true → Js.is_letter_i "m" c = false ∧ Js.is_letter_i "h" c = false.
Proof. by_cases_on_char c. Qed.

Lemma space_not_unit_letter c :
  Js.is_space c = true → Js.is_letter_i "m" c = false ∧ Js.is_letter_i "h" c = false.
Proof. by_cases_on_char c. Qed.

Lemma unit_letter_not_space_digit p c :
  p = "m"%char ∨ p = "h"%char → Js.is_letter_i p c = true →
  Js.is_space c = false ∧ Js.is_digit c = false.
Proof. intros [-> | ->]; by_cases_on_char c. Qed.

Lemma letter_i_lower p c :
  p ∈ ["m"; "i"; "n"; "h"; "o"; "u"; "r"]%char →
  Js.is_letter_i p c = Ascii.eqb (Js.lower_char c) p.
Proof.
  rewrite !elem_of_cons, elem_of_nil.
  intros [->|[->|[->|[->|[->|[->|[->|[]]]]]]]]; by_cases_on_char c.
Qed.

Lemma app_cons_s c (a b : string) : String c a +:+ b = String c (a +:+ b).
Proof. reflexivity. Qed.

Lemma app_nil_s (b : string) : "" +:+ b = b.
Proof. reflexivity. Qed.

Lemma app_empty_r s : s +:+ "" = s.
Proof. induction s as [|c s IH]; [done|]. by rewrite app_cons_s, IH. Qed.

Lemma app_assoc_s (a b c : string) : (a +:+ b) +:+ c = a +:+ b +:+ c.
Proof. induction a as [|x a IH]; [done|]. by rewrite !app_cons_s, IH. Qed.

Lemma length_app_s (a b : string) :
  String.length (a +:+ b) = (String.length a + String.length b)%nat.
Proof. induction a as [|x a IH]; [done|]. rewrite app_cons_s. simpl. by rewrite IH. Qed.

Lemma takeWhile_dropWhile p s : takeWhile p s +:+ dropWhile p s = s.
Proof.
  induction s as [|c s IH]; [done|]. simpl.
  destruct (p c); [by rewrite app_cons_s, IH|done].
Qed.

Lemma prefix_skip n s : Js.prefix n s +:+ skip n s = s.
Proof.
  revert s. induction n as [|n IH]; intros [|c s]; try done.
  simpl. by rewrite app_cons_s, IH.
Qed.

Lemma consumed_app a b : Js.consumed (a +:+ b) b = a.
Proof.
  unfold Js.consumed. rewrite length_app_s.
  replace (String.length a + String.length b - String.length b)%nat
    with (String.length a) by lia.
  induction a as [|c a IH]; [by destruct b|].
  rewrite app_cons_s. simpl. by rewrite IH.
Qed.

Lemma consumed_dropWhile p s : Js.consumed s (dropWhile p s) = takeWhile p s.
Proof. rewrite <-(takeWhile_dropWhile p s) at 1. apply consumed_app. Qed.

Lemma consumed_skip n s : Js.consumed s (skip n s) = Js.prefix n s.
Proof. rewrite <-(prefix_skip n s) at 1. apply consumed_app. Qed.

(** Greedy repetition does not backtrack when what follows cannot start
    with a character of the class. *)
Lemma star_greedy {R} (p : ascii → bool) (k : string → option R) s :
  (∀ c t, p c = true → k (String c t) = None) →
  Js.star p s k = k (dropWhile p s).
Proof.
  intros Hk. induction s as [|c s IH]; simpl; [done|].
  destruct (p c) eqn:Hc; [|done]. rewrite IH.
  destruct (k (dropWhile p s)) eqn:Hd; [done|]. by apply Hk.
Qed.

Lemma run_word {R} (w : string) s c (k : string → Js.captures → option R) :
  Js.run (Js.word_i w) s c k =
    if startsWith_i w s then k (skip (String.length w) s) c else None.
Proof.
  revert s. induction w as [|a w IH]; intros s; simpl; [by destruct s|].
  destruct s as [|b s]; [done|].
  destruct (Js.is_letter_i a b); simpl; [apply IH|done].
Qed.

(** The alternation of unit words, followed by a continuation that
    accepts. *)
Lemma run_unit_words {R} s c (k : string → Js.captures → option R) :
  (∀ s' c', k s' c' ≠ None) →
  Js.run (Js.Group 2 (Js.Alt (Js.word_i "min")
                        (Js.Alt (Js.word_i "hour") (Js.word_i "hr")))) s c k =
    if startsWith_i "min" s then k (skip 3 s) (Js.set_capture 2 (Js.prefix 3 s) c)
    else if startsWith_i "hour" s then k (skip 4 s) (Js.set_capture 2 (Js.prefix 4 s) c)
    else if startsWith_i "hr" s then k (skip 2 s) (Js.set_capture 2 (Js.prefix 2 s) c)
    else None.
Proof.
  intros Hk. cbn [Js.run]. rewrite !run_word.
  change (String.length "min") with 3%nat.
  change (String.length "hour") with 4%nat.
  change (String.length "hr") with 2%nat.
  rewrite !consumed_skip.
  destruct (startsWith_i "min" s).
  { destruct (k _ _) eqn:Hr; [done|]. by apply Hk in Hr. }
  destruct (startsWith_i "hour" s).
  { destruct (k _ _) eqn:Hr; [done|]. by apply Hk in Hr. }
  done.
Qed.

Lemma unitAt_None_of_head c t :
  Js.is_letter_i "m" c = false → Js.is_letter_i "h" c = false →
  unitAt (String c t) = None.
Proof. intros Hm Hh. unfold unitAt. simpl. by rewrite Hm, Hh. Qed.

Lemma match_here_unfold a s0 :
  Js.match_here time_pattern (String a s0) =
    if Js.is_digit a then
      Js.star Js.is_digit s0
        (fun s1 =>
           Js.star Js.is_space s1
             (matchUnit (String a s0)
                (Js.set_capture 1 (Js.consumed (String a s0) s1) Js.no_captures)))
    else None.
Proof. reflexivity. Qed.

Lemma matchUnit_unitAt s c1 s3 :
  match unitAt s3 with
  | Some u => ∃ m, matchUnit s c1 s3 = Some m ∧ m 1%nat = c1 1%nat ∧ m 2%nat = Some u
  | None => matchUnit s c1 s3 = None
  end.
Proof.
  unfold matchUnit. rewrite run_unit_words by done. unfold unitAt.
  repeat case_match; try done; by eexists.
Qed.

Lemma matchUnit_head s c1 c t :
  Js.is_letter_i "m" c = false → Js.is_letter_i "h" c = false →
  matchUnit s c1 (String c t) = None.
Proof.
  intros Hm Hh. pose proof (matchUnit_unitAt s c1 (String c t)) as H.
  by rewrite unitAt_None_of_head in H.
Qed.

(** What the matcher returns at one position is what the direct
    reading finds there. *)
Lemma match_here_scanHere s :
  match scanHere s with
  | Some (digits, unit) =>
      ∃ m, Js.match_here time_pattern s = Some m ∧
           m 1%nat = Some digits ∧ m 2%nat = Some unit
  | None => Js.match_here time_pattern s = None
  end.
Proof.
  destruct s as [|a s0]; [done|].
  rewrite match_here_unfold. unfold scanHere. cbn [takeWhile dropWhile].
  destruct (Js.is_digit a) eqn:Ha; [|done].
  set (s := String a s0).
  rewrite (star_greedy Js.is_digit).
  2:{ intros c t Hc. simpl. rewrite (digit_not_space c Hc).
      apply matchUnit_head; by apply digit_not_unit_letter. }
  rewrite (star_greedy Js.is_space).
  2:{ intros c t Hc. apply matchUnit_head; by apply space_not_unit_letter. }
  pose proof (matchUnit_unitAt s
                (Js.set_capture 1 (Js.consumed s (dropWhile Js.is_digit s0)) Js.no_captures)
                (dropWhile Js.is_space (dropWhile Js.is_digit s0))) as HkUnit.
  destruct (unitAt _) as [u|]; [|done].
  destruct HkUnit as (m & Hm & Hm1 & Hm2). exists m. split; [done|]. split; [|done].
  rewrite Hm1. unfold Js.set_capture at 1. simpl. f_equal.
  replace (dropWhile Js.is_digit s0) with (dropWhile Js.is_digit s)
    by (unfold s; simpl; by rewrite Ha).
  rewrite consumed_dropWhile. unfold s. simpl. by rewrite Ha.
Qed.

Lemma allChars_takeWhile p s : allChars p (takeWhile p s) = true.
Proof.
  induction s as [|c s IH]; [done|]. simpl.
  destruct (p c) eqn:Hc; [|done]. simpl. by rewrite Hc.
Qed.

Lemma takeWhile_app p d r :
  allChars p d = true → takeWhile p (d +:+ r) = d +:+ takeWhile p r.
Proof.
  induction d as [|c d IH]; [done|]. intros H. simpl in H.
  apply andb_true_iff in H as [Hc Hd].
  rewrite !app_cons_s. simpl. by rewrite Hc, IH.
Qed.

Lemma dropWhile_app p d r :
  allChars p d = true → dropWhile p (d +:+ r) = dropWhile p r.
Proof.
  induction d as [|c d IH]; [done|]. intros H. simpl in H.
  apply andb_true_iff in H as [Hc Hd].
  rewrite !app_cons_s. simpl. by rewrite Hc, IH.
Qed.

(** A unit word in front of any text is read back by [unitAt]. *)
Lemma unitAt_word u post :
  isMinuteWord u = true ∨ isHourWord u = true → unitAt (u +:+ post) = Some u.
Proof.
  unfold isMinuteWord, isHourWord. rewrite orb_true_iff, !String.eqb_eq.
  intros Hu. unfold unitAt.
  destruct u as [|a [|b [|c [|d [|e u]]]]];
    try (simpl in Hu; destruct Hu as [Hu|[Hu|Hu]]; discriminate Hu).
  - (* two letters: hr *)
    simpl in Hu. destruct Hu as [Hu|[Hu|Hu]]; try discriminate Hu.
    injection Hu as Ha Hb. rewrite !app_cons_s, app_nil_s. simpl.
    rewrite !letter_i_lower, Ha, Hb by (rewrite !elem_of_cons; tauto).
    reflexivity.
  - (* three letters: min *)
    simpl in Hu. destruct Hu as [Hu|[Hu|Hu]]; try discriminate Hu.
    injection Hu as Ha Hb Hc. rewrite !app_cons_s, app_nil_s. simpl.
    rewrite !letter_i_lower, Ha, Hb, Hc by (rewrite !elem_of_cons; tauto).
    reflexivity.
  - (* four letters: hour *)
    simpl in Hu. destruct Hu as [Hu|[Hu|Hu]]; try discriminate Hu.
    injection Hu as Ha Hb Hc Hd. rewrite !app_cons_s, app_nil_s. simpl.
    rewrite !letter_i_lower, Ha, Hb, Hc, Hd by (rewrite !elem_of_cons; tauto).
    reflexivity.
Qed.

(** What [unitAt] reads is a unit word at the head of the text. *)
Lemma unitAt_Some s u :
  unitAt s = Some u →
  (isMinuteWord u = true ∨ isHourWord u = true) ∧ ∃ post, s = u +:+ post.
Proof.
  unfold unitAt, isMinuteWord, isHourWord.
  destruct (startsWith_i "min" s) eqn:Hmin; [|destruct (startsWith_i "hour" s) eqn:Hhour;
    [|destruct (startsWith_i "hr" s) eqn:Hhr; [|done]]]; intros [= <-].
  - split; [|exists (skip 3 s); exact (eq_sym (prefix_skip 3 s))].
    left. destruct s as [|a [|b [|c s]]]; simpl in Hmin; try done;
      try (rewrite ?andb_false_r in Hmin; done).
    rewrite !letter_i_lower in Hmin by (rewrite !elem_of_cons; tauto).
    apply andb_true_iff in Hmin as [Ha [Hb [Hc _]%andb_true_iff]%andb_true_iff].
    apply Ascii.eqb_eq in Ha, Hb, Hc. simpl. by rewrite Ha, Hb, Hc.
  - split; [|exists (skip 4 s); exact (eq_sym (prefix_skip 4 s))].
    right. destruct s as [|a [|b [|c [|d s]]]]; simpl in Hhour; try done;
      try (rewrite ?andb_false_r in Hhour; done).
    rewrite !letter_i_lower in Hhour by (rewrite !elem_of_cons; tauto).
    apply andb_true_iff in Hhour
      as [Ha [Hb [Hc [Hd _]%andb_true_iff]%andb_true_iff]%andb_true_iff].
    apply Ascii.eqb_eq in Ha, Hb, Hc, Hd. simpl. by rewrite Ha, Hb, Hc, Hd.
  - split; [|exists (skip 2 s); exact (eq_sym (prefix_skip 2 s))].
    right. destruct s as [|a [|b s]]; simpl in Hhr; try done;
      try (rewrite ?andb_false_r in Hhr; done).
    rewrite !letter_i_lower in Hhr by (rewrite !elem_of_cons; tauto).
    apply andb_true_iff in Hhr as [Ha [Hb _]%andb_true_iff].
    apply Ascii.eqb_eq in Ha, Hb. simpl. by rewrite Ha, Hb.
Qed.

Lemma unitAt_head s u :
  unitAt s = Some u →
  ∃ c t, s = String c t ∧ Js.is_space c = false ∧ Js.is_digit c = false.
Proof.
  unfold unitAt. destruct s as [|c t]; [done|]. intros Hu.
  exists c, t. split; [done|].
  destruct (Js.is_letter_i "m" c) eqn:Hm.
  { by apply (unit_letter_not_space_digit "m"); [left|]. }
  destruct (Js.is_letter_i "h" c) eqn:Hh.
  { by apply (unit_letter_not_space_digit "h"); [right|]. }
  simpl in Hu. by rewrite Hm, Hh in Hu.
Qed.

Lemma takeWhile_stop p c t : p c = false → takeWhile p (String c t) = "".
Proof. intros Hc. simpl. by rewrite Hc. Qed.

Lemma dropWhile_stop p c t : p c = false → dropWhile p (String c t) = String c t.
Proof. intros Hc. simpl. by rewrite Hc. Qed.

(** An occurrence at the head of the text is what the direct reading
    finds, and conversely. *)
Lemma scanHere_of_occurrence s digits gap unit post :
  timeOccurrence s "" digits gap unit post → scanHere s = Some (digits, unit).
Proof.
  intros (-> & Hne & Hd & Hg & Hu). rewrite app_nil_s.
  pose proof (unitAt_word unit post Hu) as Hunit.
  destruct (unitAt_head _ _ Hunit) as (c & t & Ht & Hsp & Hdg).
  assert (dropWhile Js.is_space (gap +:+ unit +:+ post) = unit +:+ post) as Hgap.
  { rewrite dropWhile_app by done. rewrite Ht. by apply dropWhile_stop. }
  assert (∃ c' t', gap +:+ unit +:+ post = String c' t' ∧ Js.is_digit c' = false)
    as (c' & t' & Ht' & Hdg').
  { destruct gap as [|x gap].
    - rewrite app_nil_s, Ht. eauto.
    - rewrite app_cons_s. exists x, (gap +:+ unit +:+ post). split; [done|].
      simpl in Hg. apply andb_true_iff in Hg as [Hx _].
      destruct (Js.is_digit x) eqn:Hdx; [|done].
      apply digit_not_space in Hdx. congruence. }
  unfold scanHere.
  rewrite takeWhile_app, dropWhile_app by done.
  rewrite Ht', (takeWhile_stop _ _ _ Hdg'), (dropWhile_stop _ _ _ Hdg'), <-Ht'.
  rewrite app_empty_r, Hgap, Hunit.
  by destruct digits.
Qed.

Lemma occurrence_of_scanHere s digits unit :
  scanHere s = Some (digits, unit) →
  ∃ gap post, timeOccurrence s "" digits gap unit post.
Proof.
  unfold scanHere.
  destruct (takeWhile Js.is_digit s) as [|a d] eqn:Hd; [done|].
  destruct (unitAt _) as [u|] eqn:Hu; [|done]. intros [= <- <-].
  destruct (unitAt_Some _ _ Hu) as (Hword & post & Hpost).
  exists (takeWhile Js.is_space (dropWhile Js.is_digit s)), post.
  split; [|split; [done|split; [|split; [|done]]]].
  - rewrite app_nil_s, <-Hpost, takeWhile_dropWhile, <-Hd.
    by rewrite takeWhile_dropWhile.
  - rewrite <-Hd. apply allChars_takeWhile.
  - apply allChars_takeWhile.
Qed.

(** The search of [match] over the positions of the input. *)
Lemma match_found r s m :
  Js.match_ r s = Some m →
  ∃ pre rest, s = pre +:+ rest ∧ Js.match_here r rest = Some m.
Proof.
  induction s as [|c s IH]; simpl.
  - destruct (Js.match_here r "") eqn:H; [|done]. intros [= ->]. by exists "", "".
  - destruct (Js.match_here r (String c s)) eqn:H.
    + intros [= ->]. by exists "", (String c s).
    + intros (pre & rest & -> & Hm)%IH. by exists (String c pre), rest.
Qed.

Lemma match_here_match r s m : Js.match_here r s = Some m → Js.match_ r s = Some m.
Proof. intros H. destruct s; simpl; by rewrite H. Qed.

Lemma match_skip r pre rest :
  (∀ p1 p2, pre = p1 +:+ p2 → p2 ≠ "" → Js.match_here r (p2 +:+ rest) = None) →
  Js.match_ r (pre +:+ rest) = Js.match_ r rest.
Proof.
  induction pre as [|c pre IH]; intros Hnone; [done|].
  rewrite app_cons_s. simpl.
  rewrite <-app_cons_s, (Hnone "" (String c pre)) by done.
  apply IH. intros p1 p2 -> Hp2. by apply (Hnone (String c p1) p2).
Qed.

Lemma parseInt_digits_value d acc :
  allChars Js.is_digit d = true →
  Js.parseInt_digits d acc true =
    Some (acc * 10 ^ Z.of_nat (String.length d) + decimalValue d).
Proof.
  revert acc. induction d as [|c d IH]; intros acc Hd; simpl.
  - f_equal. lia.
  - simpl in Hd. apply andb_true_iff in Hd as [Hc Hd]. rewrite Hc, IH by done.
    f_equal. rewrite Nat2Z.inj_succ, Z.pow_succ_r by lia. lia.
Qed.

Lemma parseInt_value d :
  d ≠ "" → allChars Js.is_digit d = true → Js.parseInt d = Js.of_Z (decimalValue d).
Proof.
  destruct d as [|c d]; [done|]. intros _ Hd. unfold Js.parseInt. simpl.
  simpl in Hd. apply andb_true_iff in Hd as [Hc Hd].
  rewrite Hc, parseInt_digits_value by done. f_equal; lia.
Qed.

(** The unit test of [parseTimeToMinutes] on a unit word. *)
Lemma unit_test u :
  isMinuteWord u = true ∨ isHourWord u = true →
  Js.includes (Js.toLowerCase u) "hour" || Js.includes (Js.toLowerCase u) "hr"
  = isHourWord u.
Proof.
  unfold isMinuteWord, isHourWord. rewrite orb_true_iff, !String.eqb_eq.
  intros [->|[->| ->]]; reflexivity.
Qed.

(** The result of [parseTimeToMinutes] once the matcher has succeeded
    at an occurrence. *)
Lemma parseTimeToMinutes_matched s m digits gap unit post :
  s ≠ "" →
  Js.match_ time_pattern s = Some m →
  m 1%nat = Some digits → m 2%nat = Some unit →
  timeOccurrence (digits +:+ gap +:+ unit +:+ post) "" digits gap unit post →
  parseTimeToMinutes (Some s) = readingOf digits unit.
Proof.
  intros Hs Hm H1 H2 (_ & Hne & Hd & _ & Hu).
  unfold parseTimeToMinutes, readingOf. destruct s as [|c s]; [done|].
  rewrite Hm, H1, H2. simpl default.
  by rewrite unit_test, parseInt_value by done.
Qed.

Lemma occurrence_shift pre rest digits gap unit post :
  timeOccurrence rest "" digits gap unit post →
  timeOccurrence (pre +:+ rest) pre digits gap unit post.
Proof. intros (-> & H). split; [done|exact H]. Qed.

Lemma occurrence_unshift s pre digits gap unit post :
  timeOccurrence s pre digits gap unit post →
  timeOccurrence (digits +:+ gap +:+ unit +:+ post) "" digits gap unit post.
Proof. intros (_ & H). split; [done|exact H]. Qed.

(** A successful match is at an occurrence of the pattern and captures
    its digits and its unit. *)
Lemma match_occurrence s m :
  Js.match_ time_pattern s = Some m →
  ∃ pre digits gap unit post,
    timeOccurrence s pre digits gap unit post ∧
    m 1%nat = Some digits ∧ m 2%nat = Some unit.
Proof.
  intros (pre & rest & -> & Hhere)%match_found.
  pose proof (match_here_scanHere rest) as Hscan.
  destruct (scanHere rest) as [[digits unit]|] eqn:Hrest; [|congruence].
  destruct Hscan as (m' & Hm' & H1 & H2).
  assert (m' = m) as -> by congruence.
  destruct (occurrence_of_scanHere _ _ _ Hrest) as (gap & post & Hocc).
  exists pre, digits, gap, unit, post. split; [|done].
  by apply occurrence_shift.
Qed.

Lemma digit_value_range c : Js.is_digit c = true → 0 <= Js.digit_value c <= 9.
Proof. by_cases_on_char c; intros _; split; discriminate. Qed.

Lemma decimalValue_nonneg d : allChars Js.is_digit d = true → 0 <= decimalValue d.
Proof.
  induction d as [|c d IH]; simpl; [done|]. intros [Hc Hd]%andb_true_iff.
  pose proof (digit_value_range c Hc). specialize (IH Hd).
  assert (0 <= 10 ^ Z.of_nat (String.length d)) by (apply Z.pow_nonneg; lia). nia.
Qed.

(** The number read from an occurrence is a natural number or
    [Infinity]. *)
Lemma readingOf_nonneg digits unit :
  allChars Js.is_digit digits = true →
  (∃ n, readingOf digits unit = Js.Num n ∧ 0 <= n) ∨ readingOf digits unit = Js.PosInf.
Proof.
  intros Hd. pose proof (decimalValue_nonneg digits Hd) as Hv. unfold readingOf.
  destruct (of_Z_nonneg (decimalValue digits) Hv) as [(n & Hn & Hpos)|Hinf].
  - destruct (isHourWord unit); [|left; by exists n].
    rewrite Hn. cbn [Js.mul]. apply of_Z_nonneg. lia.
  - destruct (isHourWord unit); [|by right]. rewrite Hinf. by right.
Qed.

(** Below 2^53 it is the integer the digits denote, times 60 for an
    hour word. *)
Lemma readingOf_safe digits unit :
  allChars Js.is_digit digits = true →
  (if isHourWord unit then decimalValue digits * 60 else decimalValue digits) < 2 ^ 53 →
  readingOf digits unit =
    Js.Num (if isHourWord unit then decimalValue digits * 60 else decimalValue digits).
Proof.
  intros Hd Hsafe. pose proof (decimalValue_nonneg digits Hd) as Hv. unfold readingOf.
  destruct (isHourWord unit).
  - rewrite of_Z_safe by lia. cbn [Js.mul]. apply of_Z_safe. lia.
  - apply of_Z_safe. lia.
Qed.

Lemma parseTimeToMinutes_first s pre digits gap unit post :
  firstTimeOccurrence s pre digits gap unit post →
  parseTimeToMinutes (Some s) = readingOf digits unit.
Proof.
  intros [Hocc Hfirst].
  set (rest := digits +:+ gap +:+ unit +:+ post).
  assert (s = pre +:+ rest) as Hs by apply Hocc.
  pose proof (scanHere_of_occurrence rest digits gap unit post
                (occurrence_unshift _ _ _ _ _ _ Hocc)) as Hscan.
  pose proof (match_here_scanHere rest) as Hhere. rewrite Hscan in Hhere.
  destruct Hhere as (m & Hm & H1 & H2).
  assert (Js.match_ time_pattern s = Some m) as Hmatch.
  { rewrite Hs, match_skip; [by apply match_here_match|].
    intros p1 p2 -> Hp2.
    pose proof (match_here_scanHere (p2 +:+ rest)) as Hearly.
    destruct (scanHere (p2 +:+ rest)) as [[d' u']|] eqn:Hscan'; [|done].
    destruct (occurrence_of_scanHere _ _ _ Hscan') as (g' & post' & Hocc').
    apply (occurrence_shift p1) in Hocc'.
    rewrite <-app_assoc_s, <-Hs in Hocc'.
    apply Hfirst in Hocc'. rewrite length_app_s in Hocc'.
    destruct p2; [done|]. simpl in Hocc'. lia. }
  eapply parseTimeToMinutes_matched; eauto using occurrence_unshift.
  intros ->. destruct Hocc as (Hs' & Hne & _).
  destruct pre; [|done]. by destruct digits.
Qed.

(** What [parseTimeToMinutes] answers: 15, or the reading of an
    occurrence of the pattern. *)
Lemma parseTimeToMinutes_reading timeString :
  parseTimeToMinutes timeString = Js.Num 15 ∨
  ∃ digits unit, allChars Js.is_digit digits = true ∧
                 parseTimeToMinutes timeString = readingOf digits unit.
Proof.
  destruct timeString as [s|]; [|by left].
  destruct (Js.match_ time_pattern s) as [m|] eqn:Hm.
  - destruct (match_occurrence s m Hm)
      as (pre & digits & gap & unit & post & Hocc & H1 & H2).
    right. exists digits, unit. split; [apply Hocc|].
    eapply parseTimeToMinutes_matched; eauto using occurrence_unshift.
    intros ->. destruct Hocc as (Hs & Hne & _).
    destruct pre; [|done]. by destruct digits.
  - left. unfold parseTimeToMinutes. rewrite Hm. by destruct s.
Qed.

(** [parseTimeToMinutes] answers a natural number or [Infinity]. *)
Lemma parseTimeToMinutes_number timeString :
  (∃ n, parseTimeToMinutes timeString = Js.Num n ∧ 0 <= n) ∨
  parseTimeToMinutes timeString = Js.PosInf.
Proof.
  destruct (parseTimeToMinutes_reading timeString) as [->|(digits & unit & Hd & ->)].
  - left. by exists 15.
  - by apply readingOf_nonneg.
Qed.

(** C4 (counterexample). The claim speaks of every input string. The
    digits are read as a double: "9007199254740993 min", whose digits
    denote 2^53 + 1, is read as 9007199254740992. *)
Lemma readsEveryInteger_fails : ¬ readsEveryInteger.
Proof.
  intros Hclaim.
  specialize (Hclaim "9007199254740993 min" "" "9007199254740993" " " "min" "").
  assert (firstTimeOccurrence "9007199254740993 min" "" "9007199254740993" " " "min" "")
    as Hfirst.
  { split.
    - split; [reflexivity|]. split; [discriminate|].
      split; [by vm_compute|]. split; [by vm_compute|]. left. by vm_compute.
    - intros. apply Nat.le_0_l. }
  specialize (Hclaim Hfirst). vm_compute in Hclaim. discriminate Hclaim.
Qed.

(** C4 (amended). [parseTimeToMinutes] answers, for every string and
    for an absent argument, a natural number or [Infinity], never
    [NaN]. It returns 15 for an absent argument, for the empty string
    and for a string in which the pattern (a run of digits, optional
    white space, one of the words min, hour, hr in any mix of cases)
    does not occur; otherwise it reads the first occurrence and returns
    the double nearest to the number its digits denote for the word
    min, and 60 times that double, rounded again, for the words hour
    and hr: the very number the digits denote, or 60 times that number,
    as long as this is below 2^53. It maps "45 min" to 45, "2 hours" to
    120 and "garbage" to 15. *)
Theorem parseTimeToMinutes_spec :
  (∀ timeString,
     (∃ n, parseTimeToMinutes timeString = Js.Num n ∧ 0 <= n) ∨
     parseTimeToMinutes timeString = Js.PosInf) ∧
  parseTimeToMinutes None = Js.Num 15 ∧
  parseTimeToMinutes (Some "") = Js.Num 15 ∧
  (∀ s, (∀ pre digits gap unit post, ¬ timeOccurrence s pre digits gap unit post) →
        parseTimeToMinutes (Some s) = Js.Num 15) ∧
  (∀ s pre digits gap unit post,
     firstTimeOccurrence s pre digits gap unit post →
     parseTimeToMinutes (Some s) =
       (if isHourWord unit then Js.mul (Js.of_Z (decimalValue digits)) (Js.Num 60)
        else Js.of_Z (decimalValue digits)) ∧
     ((if isHourWord unit then decimalValue digits * 60 else decimalValue digits) < 2 ^ 53 →
      parseTimeToMinutes (Some s) =
        Js.Num (if isHourWord unit then decimalValue digits * 60
                else decimalValue digits))) ∧
  parseTimeToMinutes (Some "45 min") = Js.Num 45 ∧
  parseTimeToMinutes (Some "2 hours") = Js.Num 120 ∧
  parseTimeToMinutes (Some "garbage") = Js.Num 15.
Proof.
  split; [exact parseTimeToMinutes_number|].
  split; [done|split; [done|split; [|split; [|by vm_compute]]]].
  - intros s Hnone.
    destruct (Js.match_ time_pattern s) as [m|] eqn:Hm.
    + destruct (match_occurrence s m Hm)
        as (pre & digits & gap & unit & post & Hocc & _).
      by destruct (Hnone pre digits gap unit post).
    + unfold parseTimeToMinutes. rewrite Hm. by destruct s.
  - intros s pre digits gap unit post Hfirst.
    rewrite (parseTimeToMinutes_first _ _ _ _ _ _ Hfirst).
    split; [done|]. apply readingOf_safe. apply Hfirst.
Qed.

Lemma parseTimeToMinutes_spec_witness :
  parseTimeToMinutes (Some "about 90 Minutes, then 2 hr") = Js.Num 90 ∧
  parseTimeToMinutes (Some "three hours") = Js.Num 15.
Proof.
  destruct parseTimeToMinutes_spec as (_ & _ & _ & Hnone & Hfirst & _).
  split.
  - destruct (Hfirst "about 90 Minutes, then 2 hr" "about " "90" " " "Min"
                "utes, then 2 hr") as [_ Hsafe].
    + split.
      * repeat split; try reflexivity; try done. by left.
      * intros pre' digits' gap' unit' post' (Hs & Hne & Hd & _).
        do 6 (destruct pre' as [|? pre'];
              [ destruct digits' as [|c d]; [done|];
                rewrite app_nil_s, app_cons_s in Hs; injection Hs as <- _;
                simpl in Hd; discriminate Hd
              | rewrite app_cons_s in Hs; injection Hs as _ Hs ]).
        simpl. lia.
    + apply Hsafe. by vm_compute.
  - by vm_compute.
Defined.

(** What the two time utilities answer beyond 2^53: the digits of
    2^53 + 1 are read as 2^53; 60 * 2^50 + 56 minutes are written with
    2^50 + 1 hours; 6 * 10^22 minutes are written in exponent form, and
    that text is read back as 21 hours. *)
Lemma durations_beyond_safe_integers :
  parseTimeToMinutes (Some "9007199254740993 min") = Js.Num 9007199254740992 ∧
  formatMinutesToTime (Js.Num 67553994410557496) = "1125899906842625h 56min" ∧
  formatMinutesToTime (Js.Num (6 * 10 ^ 22)) = "1e+21 hours" ∧
  parseTimeToMinutes (Some (formatMinutesToTime (Js.Num (6 * 10 ^ 22)))) = Js.Num 1260.
Proof. repeat split; by vm_compute. Qed.

(** * Further properties *)

(** ** Difficulty adjustment *)

Lemma adjustDifficulty_record userPerformance c :
  unrecordedMember userPerformance c = false →
  adjustDifficultyForPerformance c userPerformance =
    if Perf.masteryLevel (recordOf userPerformance c) <? 40 then "Beginner"
    else if Perf.masteryLevel (recordOf userPerformance c) <? 70 then "Intermediate"
    else "Advanced".
Proof.
  intros Hrec. unfold adjustDifficultyForPerformance.
  by rewrite performanceOf_cases, Hrec.
Qed.

Lemma adjustDifficulty_member userPerformance c :
  unrecordedMember userPerformance c = true →
  adjustDifficultyForPerformance c userPerformance = "Advanced".
Proof.
  intros Hmem. unfold adjustDifficultyForPerformance.
  by rewrite performanceOf_cases, Hmem.
Qed.

(** X1. For a concept that is read as a record (one is kept under its
    id, or the id is not the name of a member of [Object.prototype]),
    [adjustDifficultyForPerformance] answers Beginner below a recorded
    mastery of 40, Intermediate from 40 to 69 and Advanced from 70 on,
    a missing record counting as mastery 0. For a concept without a
    record whose id names such a member it answers Advanced. The label
    it answers is always one the dependency sort knows, and among
    concepts read as records a higher mastery never gets a label of
    lower rank. *)
Theorem adjustDifficulty_thresholds_monotone (userPerformance : gmap string Perf.t)
        (a b : Concept.t) :
  (unrecordedMember userPerformance a = false →
   (adjustDifficultyForPerformance a userPerformance = "Beginner" ↔
      Perf.masteryLevel (recordOf userPerformance a) < 40) ∧
   (adjustDifficultyForPerformance a userPerformance = "Intermediate" ↔
      40 <= Perf.masteryLevel (recordOf userPerformance a) < 70) ∧
   (adjustDifficultyForPerformance a userPerformance = "Advanced" ↔
      70 <= Perf.masteryLevel (recordOf userPerformance a))) ∧
  (userPerformance !! Concept.id a = None → Js.inherited (Concept.id a) = false →
     adjustDifficultyForPerformance a userPerformance = "Beginner") ∧
  (userPerformance !! Concept.id a = None → Js.inherited (Concept.id a) = true →
     adjustDifficultyForPerformance a userPerformance = "Advanced") ∧
  (∃ ra, labelRank (adjustDifficultyForPerformance a userPerformance) = Some ra) ∧
  (unrecordedMember userPerformance a = false →
   unrecordedMember userPerformance b = false →
   Perf.masteryLevel (recordOf userPerformance a)
     <= Perf.masteryLevel (recordOf userPerformance b) →
   ∃ ra rb,
     labelRank (adjustDifficultyForPerformance a userPerformance) = Some ra ∧
     labelRank (adjustDifficultyForPerformance b userPerformance) = Some rb ∧
     ra <= rb).
Proof.
  split; [|split; [|split; [|split]]].
  - intros Hrec. rewrite adjustDifficulty_record by done.
    repeat split; repeat case_match; try done; lia.
  - intros Hnone Hplain. rewrite adjustDifficulty_record
      by by apply unrecordedMember_plain.
    unfold recordOf. by rewrite Hnone.
  - intros Hnone Hmem. apply adjustDifficulty_member.
    unfold unrecordedMember. by rewrite Hnone, Hmem.
  - destruct (unrecordedMember userPerformance a) eqn:Hrec.
    + rewrite adjustDifficulty_member by done. by eexists.
    + rewrite adjustDifficulty_record by done. repeat case_match; by eexists.
  - intros Ha Hb Hle. rewrite !adjustDifficulty_record by done.
    destruct (Z.ltb_spec (Perf.masteryLevel (recordOf userPerformance a)) 40),
             (Z.ltb_spec (Perf.masteryLevel (recordOf userPerformance a)) 70),
             (Z.ltb_spec (Perf.masteryLevel (recordOf userPerformance b)) 40),
             (Z.ltb_spec (Perf.masteryLevel (recordOf userPerformance b)) 70);
      try lia; (do 2 eexists; split; [reflexivity|split; [reflexivity|lia]]).
Qed.

Lemma adjustDifficulty_thresholds_monotone_witness :
  adjustDifficultyForPerformance (sampleStore 2%nat) samplePerformance = "Intermediate" ∧
  adjustDifficultyForPerformance (sampleStore 3%nat) samplePerformance = "Beginner" ∧
  adjustDifficultyForPerformance (memberStore 3%nat) samplePerformance = "Advanced".
Proof.
  destruct (adjustDifficulty_thresholds_monotone samplePerformance
              (sampleStore 2%nat) (sampleStore 0%nat)) as (Hmid & _).
  destruct (adjustDifficulty_thresholds_monotone samplePerformance
              (sampleStore 3%nat) (sampleStore 0%nat)) as (_ & Hnone & _).
  destruct (adjustDifficulty_thresholds_monotone samplePerformance
              (memberStore 3%nat) (sampleStore 0%nat)) as (_ & _ & Hmember & _).
  split; [|split].
  - apply Hmid; [by vm_compute|]. vm_compute. split; congruence.
  - apply Hnone; by vm_compute.
  - apply Hmember; by vm_compute.
Defined.

(** ** Weak and strong areas: coverage *)

Lemma filter_submseteq {A} (p : A → bool) (l : list A) : List.filter p l ⊆+ l.
Proof.
  induction l as [|x l IH]; simpl; [done|].
  destruct (p x); [by apply submseteq_skip|by apply submseteq_cons].
Qed.

Lemma filter_filter_bool {A} (p q : A → bool) (l : list A) :
  List.filter p (List.filter q l) = List.filter (fun x => p x && q x) l.
Proof.
  induction l as [|x l IH]; simpl; [done|].
  destruct (q x); simpl; rewrite ?andb_true_r, ?andb_false_r; [|done].
  destruct (p x); by rewrite IH.
Qed.

(** X2. Both classifications select from the list without inventing or
    repeating a concept. A concept of the list is left out of the weak
    areas exactly when it has been attempted and its mastery is at
    least 70, or when it has no record and its id names a member of
    [Object.prototype]; such an unrecorded concept is in neither
    output. A concept that has been attempted and whose mastery is
    between 70 and 79 is in neither output, and a concept that is in
    both outputs has never been attempted. *)
Theorem weak_strong_coverage (h : store) (concepts : list loc)
        (userPerformance : gmap string Perf.t) :
  identifyWeakAreas h concepts userPerformance ⊆+ concepts ∧
  identifyStrongAreas h concepts userPerformance ⊆+ concepts ∧
  (∀ c, c ∈ concepts →
        (c ∉ identifyWeakAreas h concepts userPerformance ↔
           unrecordedMember userPerformance (h c) = true ∨
           (70 <= masteryOf h userPerformance c ∧ attemptsOf h userPerformance c ≠ 0))) ∧
  (∀ c, unrecordedMember userPerformance (h c) = true →
        (c ∉ identifyWeakAreas h concepts userPerformance) ∧
        (c ∉ identifyStrongAreas h concepts userPerformance)) ∧
  (∀ c, 70 <= masteryOf h userPerformance c < 80 →
        attemptsOf h userPerformance c ≠ 0 →
        (c ∉ identifyWeakAreas h concepts userPerformance) ∧
        (c ∉ identifyStrongAreas h concepts userPerformance)) ∧
  (∀ c, c ∈ identifyWeakAreas h concepts userPerformance →
        c ∈ identifyStrongAreas h concepts userPerformance →
        attemptsOf h userPerformance c = 0).
Proof.
  split; [|split; [|split; [|split; [|split]]]].
  - rewrite identifyWeakAreas_eq, sort_perm. apply filter_submseteq.
  - rewrite identifyStrongAreas_eq, sort_perm. apply filter_submseteq.
  - intros c Hc. rewrite elem_of_identifyWeakAreas. split.
    + intros Hn. destruct (unrecordedMember userPerformance (h c)) eqn:Hrec; [by left|].
      right. split.
      * destruct (Z.le_gt_cases 70 (masteryOf h userPerformance c)); [done|].
        destruct Hn. split; [done|]. split; [done|]. left. lia.
      * intros Hz. destruct Hn. auto.
    + intros [Hmem|[Hm Ha]] (_ & Hrec & Hweak); [congruence|].
      destruct Hweak; [lia|done].
  - intros c Hmem.
    rewrite elem_of_identifyWeakAreas, elem_of_identifyStrongAreas.
    split; [intros (_ & Hrec & _); congruence|].
    intros [_ Hm]. unfold masteryOf in Hm.
    rewrite (unrecordedMember_record _ _ Hmem) in Hm. simpl in Hm. lia.
  - intros c Hm Ha.
    rewrite elem_of_identifyWeakAreas, elem_of_identifyStrongAreas.
    split; [intros (_ & _ & [?|?]); [lia|done]|]. intros [_ ?]. lia.
  - intros c (_ & _ & Hweak)%elem_of_identifyWeakAreas
             [_ Hstrong]%elem_of_identifyStrongAreas.
    destruct Hweak; [lia|done].
Qed.

Lemma weak_strong_coverage_witness :
  0%nat ∉ identifyWeakAreas sampleStore [0; 1; 2; 3; 4]%nat samplePerformance.
Proof.
  apply (proj1 (proj2 (proj2 (weak_strong_coverage sampleStore [0; 1; 2; 3; 4]%nat
                                samplePerformance)))).
  - apply list_elem_of_In. simpl. tauto.
  - right. vm_compute. split; congruence.
Defined.

(** X3. Concepts of equal recorded mastery keep their list order in the
    weak areas and in the strong areas: the weak areas of one mastery
    are the concepts of the list of that mastery that are read as a
    record with a mastery below 70 or no attempt, in list order, and
    the strong areas of one mastery are the concepts of the list of
    that mastery, 80 or more, in list order. *)
Theorem weak_strong_ties_keep_order (h : store) (concepts : list loc)
        (userPerformance : gmap string Perf.t) (m : Z) :
  List.filter (fun c => masteryOf h userPerformance c =? m)
    (identifyWeakAreas h concepts userPerformance)
  = List.filter
      (fun c => (masteryOf h userPerformance c =? m) &&
                (negb (unrecordedMember userPerformance (h c)) &&
                 ((masteryOf h userPerformance c <? 70) ||
                  (attemptsOf h userPerformance c =? 0))))
      concepts ∧
  List.filter (fun c => masteryOf h userPerformance c =? m)
    (identifyStrongAreas h concepts userPerformance)
  = List.filter
      (fun c => (masteryOf h userPerformance c =? m) &&
                (80 <=? masteryOf h userPerformance c))
      concepts.
Proof.
  rewrite identifyWeakAreas_eq, identifyStrongAreas_eq. split.
  - rewrite sort_stable.
    + by rewrite filter_filter_bool.
    + intros x y Hx Hy. apply Z.eqb_eq in Hx, Hy. lia.
  - rewrite sort_stable.
    + by rewrite filter_filter_bool.
    + intros x y Hx Hy. apply Z.eqb_eq in Hx, Hy. lia.
Qed.

(** ** The adaptive mix: size, first use, difficulty *)

Lemma adaptiveRequests_shape h concepts userPerformance :
  adaptiveRequests h concepts userPerformance =
    ((fun c => {| requestConcept := c;
                  requestOptions := weakOptions h userPerformance c |})
       <$> take 3 (identifyWeakAreas h concepts userPerformance))
    ++ ((fun c => {| requestConcept := c; requestOptions := mixedOptions |})
          <$> List.filter
                (fun c => negb (includes_loc
                                  (identifyWeakAreas h concepts userPerformance) c))
                (take 2 concepts))
    ++ match identifyStrongAreas h concepts userPerformance with
       | c :: _ => [ {| requestConcept := c; requestOptions := strongOptions |} ]
       | [] => []
       end.
Proof.
  unfold adaptiveRequests. rewrite fold_left_push, fold_left_push_if. simpl.
  destruct (identifyStrongAreas _ _ _); [by rewrite app_nil_r|].
  by rewrite <-app_assoc.
Qed.

Lemma requestedTotal_app l1 l2 :
  requestedTotal (l1 ++ l2) = requestedTotal l1 + requestedTotal l2.
Proof.
  unfold requestedTotal. induction l1 as [|r l IH]; simpl; [done|]. rewrite IH. lia.
Qed.

Lemma requestedTotal_const (f : loc → Request) (n : Z) (l : list loc) :
  (∀ c, requestedCount (f c) = n) →
  requestedTotal (f <$> l) = n * Z.of_nat (length l).
Proof.
  intros Hf. unfold requestedTotal. induction l as [|c l IH]; csimpl; [lia|].
  rewrite IH, Hf. lia.
Qed.

(** X4. Whatever the concept list and the performance map,
    [generateAdaptiveQuestions] issues at most 6 generation calls and
    asks for at most 14 questions in all; for the empty concept list it
    issues no call and returns the empty question set. *)
Theorem adaptiveRequests_bounded (h : store) (w : World) (concepts : list loc)
        (userPerformance : gmap string Perf.t) :
  (length (adaptiveRequests h concepts userPerformance) <= 6)%nat ∧
  requestedTotal (adaptiveRequests h concepts userPerformance) <= 14 ∧
  adaptiveRequests h [] userPerformance = [] ∧
  generateAdaptiveQuestions h w [] userPerformance = Ok [].
Proof.
  split; [|split; [|done]].
  - rewrite adaptiveRequests_shape, !length_app, !length_fmap.
    pose proof (List.filter_length_le
                  (fun c => negb (includes_loc
                                    (identifyWeakAreas h concepts userPerformance) c))
                  (take 2 concepts)) as Hf.
    rewrite !length_take in *.
    destruct (identifyStrongAreas _ _ _); cbn [length]; lia.
  - rewrite adaptiveRequests_shape, !requestedTotal_app.
    rewrite (requestedTotal_const _ 3), (requestedTotal_const _ 2) by done.
    pose proof (List.filter_length_le
                  (fun c => negb (includes_loc
                                    (identifyWeakAreas h concepts userPerformance) c))
                  (take 2 concepts)) as Hf.
    rewrite !length_take in *.
    destruct (identifyStrongAreas _ _ _); unfold requestedTotal, requestedCount;
      cbn [foldr requestOptions questionCount strongOptions default from_option];
      unfold id; lia.
Qed.

Lemma filter_all {A} (p : A → bool) (l : list A) :
  (∀ x, x ∈ l → p x = true) → List.filter p l = l.
Proof.
  induction l as [|x l IH]; intros Hall; simpl; [done|].
  rewrite (Hall x) by left. rewrite IH; [done|]. intros y Hy. apply Hall. by right.
Qed.

Lemma filter_none {A} (p : A → bool) (l : list A) :
  (∀ x, x ∈ l → p x = false) → List.filter p l = [].
Proof.
  induction l as [|x l IH]; intros Hall; simpl; [done|].
  rewrite (Hall x) by left. apply IH. intros y Hy. apply Hall. by right.
Qed.

Lemma includes_loc_true (a : list loc) (x : loc) : x ∈ a → includes_loc a x = true.
Proof.
  intros Hx. unfold includes_loc. apply existsb_exists. exists x.
  split; [by apply list_elem_of_In|apply Nat.eqb_refl].
Qed.

(** X5. When no concept of the list has a performance record (a first
    session) and no id is the name of a member of [Object.prototype],
    every concept is weak, in list order, and none is strong: the mix
    is exactly a call for 3 Beginner questions on each of the first
    three concepts of the list, in list order. *)
Theorem adaptiveRequests_first_session (h : store) (concepts : list loc)
        (userPerformance : gmap string Perf.t) :
  (∀ c, c ∈ concepts → userPerformance !! Concept.id (h c) = None) →
  (∀ c, c ∈ concepts → Js.inherited (Concept.id (h c)) = false) →
  identifyWeakAreas h concepts userPerformance = concepts ∧
  identifyStrongAreas h concepts userPerformance = [] ∧
  adaptiveRequests h concepts userPerformance =
    (fun c => {| requestConcept := c;
                 requestOptions :=
                   {| questionCount := Some 3; questionTypes := None;
                      difficultyLevel := Some "Beginner";
                      includeExplanations := None |} |}) <$> take 3 concepts.
Proof.
  intros Hnone Hplain.
  assert (∀ c, c ∈ concepts → recordOf userPerformance (h c) = Perf.missing) as Hrec.
  { intros c Hc. unfold recordOf. by rewrite Hnone. }
  assert (∀ c, c ∈ concepts → unrecordedMember userPerformance (h c) = false) as Hown.
  { intros c Hc. apply unrecordedMember_plain. by apply Hplain. }
  assert (identifyWeakAreas h concepts userPerformance = concepts) as Hweak.
  { rewrite identifyWeakAreas_eq.
    rewrite filter_all
      by (intros c Hc; unfold classedWeak, masteryOf, attemptsOf;
          by rewrite Hown, Hrec).
    set (fresh := fun c => bool_decide (userPerformance !! Concept.id (h c) = None)).
    rewrite <-(filter_all fresh (Js.sort _ concepts)).
    - rewrite sort_stable.
      + apply filter_all. intros c Hc. apply bool_decide_eq_true. by apply Hnone.
      + intros x y Hx%bool_decide_eq_true Hy%bool_decide_eq_true.
        unfold masteryOf, recordOf. rewrite Hx, Hy. done.
    - intros c Hc%elem_of_sort. apply bool_decide_eq_true. by apply Hnone. }
  assert (identifyStrongAreas h concepts userPerformance = []) as Hstrong.
  { rewrite identifyStrongAreas_eq.
    by rewrite filter_none by (intros c Hc; unfold masteryOf; by rewrite Hrec). }
  split; [done|]. split; [done|].
  rewrite adaptiveRequests_shape, Hweak, Hstrong, app_nil_r.
  rewrite filter_none, app_nil_r.
  - apply list_fmap_ext. intros i c Hc. unfold weakOptions.
    assert (c ∈ concepts) as Hin
      by (eapply list_elem_of_lookup_2, lookup_take_Some, Hc).
    rewrite adjustDifficulty_record by by apply Hown. by rewrite Hrec.
  - intros c Hc. rewrite includes_loc_true; [done|].
    apply list_elem_of_lookup in Hc as [i Hi]. eapply list_elem_of_lookup_2.
    by apply lookup_take_Some in Hi as [Hi _].
Qed.

Lemma adaptiveRequests_first_session_witness :
  requestConcept <$> adaptiveRequests sampleStore [0; 1; 2; 3; 4]%nat ∅ = [0; 1; 2]%nat.
Proof.
  rewrite (proj2 (proj2 (adaptiveRequests_first_session sampleStore [0; 1; 2; 3; 4]%nat ∅
                           (fun c _ => lookup_empty _)
                           (proj1 (Forall_forall _ _) sample_plain_ids))));
    reflexivity.
Defined.

(** X6. A call for a weak concept asks for Advanced questions only
    when the concept has a mastery of at least 70 and has never been
    attempted: a weak concept that has been attempted is asked at
    Beginner or Intermediate level. *)
Theorem weak_request_difficulty (h : store) (concepts : list loc)
        (userPerformance : gmap string Perf.t) (k : nat) (r : Request) :
  adaptiveRequests h concepts userPerformance !! k = Some r →
  questionCount (requestOptions r) = Some 3 →
  requestConcept r ∈ identifyWeakAreas h concepts userPerformance ∧
  difficultyLevel (requestOptions r) =
    Some (adjustDifficultyForPerformance (h (requestConcept r)) userPerformance) ∧
  (difficultyLevel (requestOptions r) = Some "Advanced" →
   70 <= masteryOf h userPerformance (requestConcept r) ∧
   attemptsOf h userPerformance (requestConcept r) = 0).
Proof.
  rewrite adaptiveRequests_shape. intros Hk Hcount.
  apply list_elem_of_lookup_2 in Hk. rewrite !elem_of_app in Hk.
  destruct Hk as [Hk|[Hk|Hk]].
  - apply list_elem_of_fmap in Hk as (c & -> & Hc). simpl.
    assert (c ∈ identifyWeakAreas h concepts userPerformance) as Hweak.
    { apply list_elem_of_lookup in Hc as [i Hi]. eapply list_elem_of_lookup_2.
      by apply lookup_take_Some in Hi as [Hi _]. }
    split; [done|]. split; [done|].
    apply elem_of_identifyWeakAreas in Hweak as (_ & Hrec & Hweak).
    rewrite adjustDifficulty_record by done.
    unfold masteryOf, attemptsOf in *.
    repeat case_match; try done. intros _. lia.
  - apply list_elem_of_fmap in Hk as (c & -> & _). done.
  - destruct (identifyStrongAreas _ _ _); [by apply elem_of_nil in Hk|].
    apply list_elem_of_singleton in Hk as ->. done.
Qed.

Lemma weak_request_difficulty_witness :
  difficultyLevel (weakOptions sampleStore samplePerformance 4%nat) = Some "Advanced" ∧
  (70 <= masteryOf sampleStore samplePerformance 4%nat ∧
   attemptsOf sampleStore samplePerformance 4%nat = 0).
Proof.
  split; [reflexivity|].
  apply (weak_request_difficulty sampleStore [4%nat] samplePerformance 0%nat
           {| requestConcept := 4%nat;
              requestOptions := weakOptions sampleStore samplePerformance 4%nat |});
    reflexivity.
Defined.

(** ** The difficulty distribution *)

Lemma calculateDifficultyDistribution_fold h concepts init :
  fold_left
    (fun distribution concept =>
       let d := Concept.difficulty (h concept) in
       if String.eqb d "Beginner" then
         {| Beginner := Beginner distribution + 1;
            Intermediate := Intermediate distribution;
            Advanced := Advanced distribution |}
       else if String.eqb d "Intermediate" then
         {| Beginner := Beginner distribution;
            Intermediate := Intermediate distribution + 1;
            Advanced := Advanced distribution |}
       else if String.eqb d "Advanced" then
         {| Beginner := Beginner distribution;
            Intermediate := Intermediate distribution;
            Advanced := Advanced distribution + 1 |}
       else distribution)
    concepts init
  = {| Beginner := Beginner init + countDifficulty h "Beginner" concepts;
       Intermediate := Intermediate init + countDifficulty h "Intermediate" concepts;
       Advanced := Advanced init + countDifficulty h "Advanced" concepts |}.
Proof.
  revert init. unfold countDifficulty.
  induction concepts as [|c l IH]; intros init.
  - destruct init. cbn. f_equal; lia.
  - cbn [fold_left List.filter]. rewrite IH.
    destruct (String.eqb_spec (Concept.difficulty (h c)) "Beginner") as [Hb|Hb];
      [rewrite ?Hb; cbn; f_equal; lia|].
    destruct (String.eqb_spec (Concept.difficulty (h c)) "Intermediate") as [Hi|Hi];
      [rewrite ?Hi; cbn; f_equal; lia|].
    destruct (String.eqb_spec (Concept.difficulty (h c)) "Advanced") as [Ha|Ha];
      [rewrite ?Ha; cbn; f_equal; lia|].
    done.
Qed.

Lemma countDifficulty_perm h label l1 l2 :
  l1 ≡ₚ l2 → countDifficulty h label l1 = countDifficulty h label l2.
Proof.
  intros Hperm. unfold countDifficulty. f_equal.
  induction Hperm as [|x l l' _ IH|x y l|l l' l'' _ IH1 _ IH2]; simpl.
  - done.
  - destruct (String.eqb _ _); simpl; by rewrite IH.
  - by destruct (String.eqb (Concept.difficulty (h x)) label),
                (String.eqb (Concept.difficulty (h y)) label).
  - by rewrite IH1.
Qed.

Lemma countDifficulty_disjoint h concepts :
  countDifficulty h "Beginner" concepts + countDifficulty h "Intermediate" concepts
  + countDifficulty h "Advanced" concepts
  = Z.of_nat (length (List.filter (fun c => hasKnownDifficulty (h c)) concepts)).
Proof.
  unfold countDifficulty.
  induction concepts as [|c l IH]; [done|]. cbn [List.filter].
  unfold hasKnownDifficulty at 1.
  destruct (String.eqb_spec (Concept.difficulty (h c)) "Beginner") as [Hb|Hb].
  { rewrite Hb. cbn [String.eqb Ascii.eqb Bool.eqb andb orb length]. lia. }
  destruct (String.eqb_spec (Concept.difficulty (h c)) "Intermediate") as [Hi|Hi].
  { rewrite Hi. cbn [String.eqb Ascii.eqb Bool.eqb andb orb length]. lia. }
  destruct (String.eqb_spec (Concept.difficulty (h c)) "Advanced") as [Ha|Ha].
  { cbn [orb length]. lia. }
  cbn [orb]. lia.
Qed.

Lemma calculateDifficultyDistribution_eq h l :
  calculateDifficultyDistribution h l =
    {| Beginner := countDifficulty h "Beginner" l;
       Intermediate := countDifficulty h "Intermediate" l;
       Advanced := countDifficulty h "Advanced" l |}.
Proof.
  unfold calculateDifficultyDistribution.
  rewrite calculateDifficultyDistribution_fold. by f_equal.
Qed.

Lemma calculateDifficultyDistribution_perm h l1 l2 :
  l1 ≡ₚ l2 → calculateDifficultyDistribution h l1 = calculateDifficultyDistribution h l2.
Proof.
  intros Hl. rewrite !calculateDifficultyDistribution_eq.
  f_equal; by apply countDifficulty_perm.
Qed.

(** X7. [calculateDifficultyDistribution] counts, under each of the
    three labels, the concepts that carry exactly that label; a concept
    with any other difficulty is counted nowhere, so the three counts
    add up to the number of concepts with a known label, at most the
    length of the list; and the tally does not depend on the order of
    the list. *)
Theorem calculateDifficultyDistribution_counts (h : store) (concepts : list loc) :
  calculateDifficultyDistribution h concepts =
    {| Beginner := countDifficulty h "Beginner" concepts;
       Intermediate := countDifficulty h "Intermediate" concepts;
       Advanced := countDifficulty h "Advanced" concepts |} ∧
  Beginner (calculateDifficultyDistribution h concepts)
  + Intermediate (calculateDifficultyDistribution h concepts)
  + Advanced (calculateDifficultyDistribution h concepts)
  = Z.of_nat (length (List.filter (fun c => hasKnownDifficulty (h c)) concepts)) ∧
  Beginner (calculateDifficultyDistribution h concepts)
  + Intermediate (calculateDifficultyDistribution h concepts)
  + Advanced (calculateDifficultyDistribution h concepts)
  <= Z.of_nat (length concepts) ∧
  (∀ concepts', concepts' ≡ₚ concepts →
     calculateDifficultyDistribution h concepts' =
     calculateDifficultyDistribution h concepts).
Proof.
  split; [apply calculateDifficultyDistribution_eq|].
  rewrite calculateDifficultyDistribution_eq. cbn [Beginner Intermediate Advanced].
  split; [apply countDifficulty_disjoint|]. split.
  - rewrite countDifficulty_disjoint.
    apply inj_le, List.filter_length_le.
  - intros l Hl. rewrite <-calculateDifficultyDistribution_eq.
    by apply calculateDifficultyDistribution_perm.
Qed.

(** ** Dependencies between concepts *)

Lemma includes_empty s : Js.includes s "" = true.
Proof. by destruct s. Qed.

Lemma findDependencies_not_self h concept allConcepts :
  Concept.id concept ∉ findDependencies h concept allConcepts.
Proof.
  unfold findDependencies.
  destruct (Concept.prerequisites concept) as [[|p ps]|]; try apply not_elem_of_nil.
  rewrite list_elem_of_In, in_map_iff. intros (o & Hid & Ho).
  apply filter_In in Ho as [_ Hcond]. apply andb_true_iff in Hcond as [Hne _].
  by rewrite Hid, String.eqb_refl in Hne.
Qed.

(** X8. The dependencies [findDependencies] reports for a concept are
    exactly the ids of the concepts of the list that have another id
    and that one of its prerequisites names (in their name or in a
    sub-concept, case ignored). They never contain the concept's own
    id, they are at most as many as the list is long, and a concept
    without prerequisites has none. *)
Theorem findDependencies_sound (h : store) (concept : Concept.t) (allConcepts : list loc) :
  (∀ d, d ∈ findDependencies h concept allConcepts ↔
        ∃ o prereqs prereq,
          o ∈ allConcepts ∧ Concept.id (h o) = d ∧ d ≠ Concept.id concept ∧
          Concept.prerequisites concept = Some prereqs ∧ prereq ∈ prereqs ∧
          prerequisiteNames prereq (h o) = true) ∧
  (Concept.id concept ∉ findDependencies h concept allConcepts) ∧
  (length (findDependencies h concept allConcepts) <= length allConcepts)%nat ∧
  (Concept.prerequisites concept = None ∨ Concept.prerequisites concept = Some [] →
   findDependencies h concept allConcepts = []).
Proof.
  assert (∀ d, d ∈ findDependencies h concept allConcepts ↔
        ∃ o prereqs prereq,
          o ∈ allConcepts ∧ Concept.id (h o) = d ∧ d ≠ Concept.id concept ∧
          Concept.prerequisites concept = Some prereqs ∧ prereq ∈ prereqs ∧
          prerequisiteNames prereq (h o) = true) as Hiff.
  { intros d. unfold findDependencies.
    destruct (Concept.prerequisites concept) as [[|p ps]|] eqn:Hpre.
    - split; [by intros ?%elem_of_nil|].
      intros (o & prereqs & prereq & _ & _ & _ & [= <-] & []%elem_of_nil & _).
    - rewrite list_elem_of_In, in_map_iff. split.
      + intros (o & Hid & Ho). apply filter_In in Ho as [Ho Hcond].
        apply andb_true_iff in Hcond as [Hne Hex].
        apply existsb_exists in Hex as (prereq & Hin & Hname).
        exists o, (p :: ps), prereq.
        split; [by apply list_elem_of_In|]. split; [done|]. split.
        { intros Heq. rewrite <-Hid in Heq. rewrite Heq, String.eqb_refl in Hne. done. }
        split; [done|]. split; [by apply list_elem_of_In|done].
      + intros (o & prereqs & prereq & Ho & Hid & Hne & [= <-] & Hin & Hname).
        exists o. split; [done|]. apply filter_In. split; [by apply list_elem_of_In|].
        apply andb_true_iff. split.
        * apply negb_true_iff, String.eqb_neq. congruence.
        * apply existsb_exists. exists prereq. split; [by apply list_elem_of_In|done].
    - split; [by intros ?%elem_of_nil|].
      by intros (o & prereqs & prereq & _ & _ & _ & [=] & _). }
  split; [exact Hiff|]. split; [|split].
  - intros (o & ? & ? & _ & _ & Hne & _)%Hiff. done.
  - unfold findDependencies. destruct (Concept.prerequisites concept) as [[|p ps]|];
      simpl; try lia.
    rewrite length_map. apply List.filter_length_le.
  - unfold findDependencies. by intros [-> | ->].
Qed.

(** X9. A prerequisite that is the empty string names every concept:
    a concept that lists it depends on every concept of the list that
    has another id, in list order. *)
Theorem findDependencies_empty_prerequisite (h : store) (concept : Concept.t)
        (allConcepts : list loc) (prereqs : list string) :
  Concept.prerequisites concept = Some prereqs →
  "" ∈ prereqs →
  findDependencies h concept allConcepts =
    (fun o => Concept.id (h o))
      <$> List.filter
            (fun o => negb (String.eqb (Concept.id (h o)) (Concept.id concept)))
            allConcepts.
Proof.
  intros Hpre Hin. unfold findDependencies. rewrite Hpre.
  destruct prereqs as [|p ps]; [by apply elem_of_nil in Hin|].
  f_equal. apply List.filter_ext. intros o.
  replace (existsb _ (p :: ps)) with true; [by rewrite andb_true_r|].
  symmetry. apply existsb_exists. exists "". split; [by apply list_elem_of_In|].
  simpl. by rewrite includes_empty.
Qed.

Lemma findDependencies_empty_prerequisite_witness :
  findDependencies sampleStore
    (sampleConcept "c9" "Beginner" (Some ["pointers"; ""]) None) [0; 1; 2]%nat
  = ["c1"; "c2"; "c3"].
Proof.
  rewrite (findDependencies_empty_prerequisite sampleStore
             (sampleConcept "c9" "Beginner" (Some ["pointers"; ""]) None)
             [0; 1; 2]%nat ["pointers"; ""] eq_refl).
  - reflexivity.
  - apply list_elem_of_In. simpl. tauto.
Defined.

(** ** The learning pathway: content and total time *)

Lemma estimatedMinutes_parse c :
  (parseTimeToMinutes (Concept.estimatedTime c) = Js.Num (estimatedMinutes c) ∨
   parseTimeToMinutes (Concept.estimatedTime c) = Js.PosInf) ∧
  0 <= estimatedMinutes c.
Proof.
  unfold estimatedMinutes.
  destruct (parseTimeToMinutes_number (Concept.estimatedTime c))
    as [(n & -> & Hn)| ->]; [by split; [left|]|by split; [right|]].
Qed.

Lemma readsFinite_parse c :
  readsFinite c → parseTimeToMinutes (Concept.estimatedTime c) = Js.Num (estimatedMinutes c).
Proof. unfold readsFinite, estimatedMinutes. by intros [n ->]. Qed.

Lemma totalEstimatedMinutes_perm h l1 l2 :
  l1 ≡ₚ l2 → totalEstimatedMinutes h l1 = totalEstimatedMinutes h l2.
Proof.
  unfold totalEstimatedMinutes.
  induction 1 as [|x l l' _ IH|x y l|l l' l'' _ IH1 _ IH2]; simpl; lia.
Qed.

Lemma totalEstimatedMinutes_nonneg h l : 0 <= totalEstimatedMinutes h l.
Proof.
  unfold totalEstimatedMinutes. induction l as [|c l IH]; simpl; [done|].
  pose proof (proj2 (estimatedMinutes_parse (h c))). lia.
Qed.

(** The sum of finite readings is exact as long as it stays below
    2^53. *)
Lemma totalMinutes_fold h concepts acc :
  Forall (fun c => readsFinite (h c)) concepts →
  0 <= acc → acc + totalEstimatedMinutes h concepts < 2 ^ 53 →
  fold_left
    (fun total c => Js.add total (parseTimeToMinutes (Concept.estimatedTime (h c))))
    concepts (Js.Num acc)
  = Js.Num (acc + totalEstimatedMinutes h concepts).
Proof.
  revert acc. induction concepts as [|c l IH]; intros acc Hfin Hacc Hsafe.
  - simpl. f_equal. unfold totalEstimatedMinutes. simpl. lia.
  - apply Forall_cons in Hfin as [Hc Hl].
    pose proof (proj2 (estimatedMinutes_parse (h c))) as Hpos.
    pose proof (totalEstimatedMinutes_nonneg h l) as Hrest.
    assert (totalEstimatedMinutes h (c :: l)
            = estimatedMinutes (h c) + totalEstimatedMinutes h l) as Htotal by done.
    rewrite Htotal in *. cbn [fold_left]. rewrite (readsFinite_parse _ Hc).
    cbn [Js.add]. rewrite of_Z_safe by lia. rewrite IH by (done || lia).
    f_equal. lia.
Qed.

Lemma createLearningPathway_nonempty h concepts :
  concepts ≠ [] →
  createLearningPathway h (Some concepts) =
    let sortedConcepts := sortConceptsByDependency h concepts in
    {| pathway :=
         imap (fun index c =>
                 {| concept := h c;
                    order := Z.of_nat index + 1;
                    isUnlocked := (index =? 0)%nat;
                    dependencies := findDependencies h (h c) sortedConcepts |})
           sortedConcepts;
       totalEstimatedTime :=
         formatMinutesToTime
           (fold_left
              (fun total c =>
                 Js.add total (parseTimeToMinutes (Concept.estimatedTime (h c))))
              sortedConcepts (Js.Num 0));
       totalConcepts := Some (Z.of_nat (length sortedConcepts));
       difficultyDistribution :=
         Some (calculateDifficultyDistribution h sortedConcepts) |}.
Proof. by destruct concepts. Qed.

Lemma sortConceptsByDependency_perm h concepts :
  sortConceptsByDependency h concepts ≡ₚ concepts.
Proof. apply sort_perm. Qed.

(** X10. For a non-empty concept list the pathway holds the concepts of
    the list, each once per occurrence, numbered 1, 2, ... by [order] in
    pathway position; [totalConcepts] is the length of the list, the
    difficulty distribution is that of the list, and no concept is
    reported as a dependency of itself. *)
Theorem createLearningPathway_content (h : store) (concepts : list loc) :
  concepts ≠ [] →
  let result := createLearningPathway h (Some concepts) in
  concept <$> pathway result ≡ₚ h <$> concepts ∧
  (∀ i item, pathway result !! i = Some item → order item = Z.of_nat i + 1) ∧
  totalConcepts result = Some (Z.of_nat (length concepts)) ∧
  difficultyDistribution result = Some (calculateDifficultyDistribution h concepts) ∧
  (∀ item, item ∈ pathway result →
           Concept.id (concept item) ∉ dependencies item).
Proof.
  intros Hne result. subst result.
  rewrite createLearningPathway_nonempty by done. set (l := concepts).
  pose proof (sortConceptsByDependency_perm h l) as Hperm.
  cbn [pathway totalConcepts difficultyDistribution].
  split; [|split; [|split; [|split]]].
  - trans (h <$> sortConceptsByDependency h l); [|by rewrite Hperm].
    rewrite fmap_imap, <-(imap_const h (sortConceptsByDependency h l)).
    erewrite imap_ext; [reflexivity|done].
  - intros i item. rewrite list_lookup_imap_Some. by intros (y & _ & ->).
  - by rewrite Hperm.
  - f_equal. by apply calculateDifficultyDistribution_perm.
  - intros item (i & y & -> & _)%elem_of_lookup_imap. simpl.
    apply findDependencies_not_self.
Qed.

Lemma createLearningPathway_content_witness :
  order <$> pathway (createLearningPathway sampleStore (Some [0; 1; 2; 3; 4]%nat))
    = [1; 2; 3; 4; 5] ∧
  totalConcepts (createLearningPathway sampleStore (Some [0; 1; 2; 3; 4]%nat)) = Some 5.
Proof.
  split; [by vm_compute|].
  assert ([0; 1; 2; 3; 4]%nat ≠ []) as Hne by discriminate.
  exact (proj1 (proj2 (proj2 (createLearningPathway_content sampleStore
                                [0; 1; 2; 3; 4]%nat Hne)))).
Defined.

(** X11. When the estimated time of every concept of the list reads as
    a finite number and the minutes add up to less than 2^53, the total
    estimated time of the pathway is the formatted sum of the minutes
    of the concepts of the list, whatever their order. A concept
    contributes the minutes [parseTimeToMinutes] reads from its
    estimated time, which are never negative, never [NaN], and are 15
    when it has no estimated time. *)
Theorem createLearningPathway_total_time (h : store) (concepts : list loc) :
  concepts ≠ [] →
  (∀ c, c ∈ concepts → readsFinite (h c)) →
  totalEstimatedMinutes h concepts < 2 ^ 53 →
  totalEstimatedTime (createLearningPathway h (Some concepts))
    = formatMinutesToTime (Js.Num (totalEstimatedMinutes h concepts)) ∧
  0 <= totalEstimatedMinutes h concepts ∧
  (∀ c, (parseTimeToMinutes (Concept.estimatedTime (h c)) = Js.Num (estimatedMinutes (h c)) ∨
         parseTimeToMinutes (Concept.estimatedTime (h c)) = Js.PosInf) ∧
        0 <= estimatedMinutes (h c)) ∧
  (∀ c, Concept.estimatedTime (h c) = None →
        readsFinite (h c) ∧ estimatedMinutes (h c) = 15) ∧
  (∀ concepts', concepts' ≡ₚ concepts →
     totalEstimatedMinutes h concepts' = totalEstimatedMinutes h concepts).
Proof.
  intros Hne Hfin Hsafe.
  split; [|split; [apply totalEstimatedMinutes_nonneg|split; [|split]]].
  - rewrite createLearningPathway_nonempty by done. set (l := concepts).
    pose proof (sortConceptsByDependency_perm h l) as Hperm.
    cbn [totalEstimatedTime]. rewrite totalMinutes_fold.
    + by rewrite (totalEstimatedMinutes_perm h (sortConceptsByDependency h l) l).
    + apply Forall_forall. intros c Hc. apply Hfin. by rewrite Hperm in Hc.
    + done.
    + by rewrite (totalEstimatedMinutes_perm h (sortConceptsByDependency h l) l).
  - intros c. apply estimatedMinutes_parse.
  - intros c Hc. unfold readsFinite, estimatedMinutes. rewrite Hc. split; [by exists 15|done].
  - intros l Hl. by apply totalEstimatedMinutes_perm.
Qed.

Lemma createLearningPathway_total_time_witness :
  totalEstimatedTime (createLearningPathway sampleStore (Some [0; 1; 2; 3; 4]%nat))
    = "4h 15min" ∧
  totalEstimatedMinutes sampleStore [0; 1; 2; 3; 4]%nat = 255.
Proof.
  assert ([0; 1; 2; 3; 4]%nat ≠ []) as Hne by discriminate.
  split; [|by vm_compute].
  etrans; [apply (createLearningPathway_total_time sampleStore [0; 1; 2; 3; 4]%nat Hne)|].
  - intros c Hc. apply list_elem_of_In in Hc. simpl in Hc.
    repeat (destruct Hc as [<-|Hc]; [eexists; vm_compute; reflexivity|]). done.
  - by vm_compute.
  - by vm_compute.
Defined.

(** ** Questions for one concept *)

(** X12. When the endpoint answers, [generateQuestionsForConcept]
    returns one question per question of the answer, in the same order:
    the question at 0-based position [i] carries the answered fields
    unchanged, the number [i + 1], the id and name of the concept, no
    attempt, no answer and no time spent; it keeps a non-empty id of the
    answer and otherwise gets the id made of the concept id, "_q" and
    its number. When the endpoint fails, the call fails with the
    message "Failed to generate questions for concept". *)
Theorem generateQuestionsForConcept_result (w : World) (call : nat) (c : Concept.t)
        (options : GenOptions) :
  (∀ raw, aiResponse w call (promptOf c options) = Ok raw →
     ∃ questions,
       generateQuestionsForConcept w call c options = Ok questions ∧
       Question.body <$> questions = raw ∧
       ∀ i q, questions !! i = Some q →
         Question.number q = Z.of_nat i + 1 ∧
         Question.conceptId q = Concept.id c ∧
         Question.conceptName q = Concept.name c ∧
         Question.attempts q = 0 ∧ Question.correctAttempts q = 0 ∧
         Question.userAnswer q = None ∧ Question.isCorrect q = None ∧
         Question.timeSpent q = 0 ∧ Question.hintsUsed q = 0 ∧
         (∀ given, Raw.id (Question.body q) = Some given → given ≠ "" →
                   Question.id q = given) ∧
         (lacksId (Question.body q) → Question.id q = backfilledId c i)) ∧
  (∀ e, aiResponse w call (promptOf c options) = Err e →
     generateQuestionsForConcept w call c options
       = Err "Failed to generate questions for concept").
Proof.
  unfold generateQuestionsForConcept. fold (promptOf c options). split.
  - intros raw ->. eexists. split; [reflexivity|]. split.
    + apply list_eq. intros i. rewrite list_lookup_fmap, list_lookup_imap.
      by destruct (raw !! i).
    + intros i q (r & Hr & ->)%list_lookup_imap_Some. cbn.
      repeat split; try done.
      * intros given Hg Hne. unfold questionId. rewrite Hg. by destruct given.
      * intros [Hn|Hn]; unfold questionId; by rewrite Hn.
  - by intros e ->.
Qed.

Lemma generateQuestionsForConcept_result_witness :
  generateQuestionsForConcept (obligingWorld (Some 7%nat)) 7%nat (sampleStore 0%nat)
    mixedOptions
  = Err "Failed to generate questions for concept".
Proof.
  apply (proj2 (generateQuestionsForConcept_result (obligingWorld (Some 7%nat)) 7%nat
                  (sampleStore 0%nat) mixedOptions) "network").
  reflexivity.
Defined.

Lemma backfilledId_inj c i j : backfilledId c i = backfilledId c j → i = j.
Proof.
  unfold backfilledId, Js.toString. intros H.
  apply (inj (String.app (Concept.id c))) in H.
  apply (inj (String.app "_q")) in H.
  apply (inj pretty) in H. lia.
Qed.

(** X13. When the answer of the endpoint gives no question a usable id
    (none, or the empty string), the ids [generateQuestionsForConcept]
    makes up are pairwise different. *)
Theorem generateQuestionsForConcept_fresh_ids (w : World) (call : nat) (c : Concept.t)
        (options : GenOptions) (raw : list Raw.t) (questions : list Question.t) :
  aiResponse w call (promptOf c options) = Ok raw →
  Forall lacksId raw →
  generateQuestionsForConcept w call c options = Ok questions →
  NoDup (Question.id <$> questions).
Proof.
  unfold generateQuestionsForConcept. fold (promptOf c options).
  intros -> Hlack [= <-]. apply NoDup_alt. intros i j x.
  rewrite !list_lookup_fmap, !list_lookup_imap.
  destruct (raw !! i) as [ri|] eqn:Hi; [|done].
  destruct (raw !! j) as [rj|] eqn:Hj; [|done]. cbn.
  assert (∀ k r, raw !! k = Some r → questionId r c k = backfilledId c k) as Hid.
  { intros k r Hk. rewrite Forall_lookup in Hlack.
    destruct (Hlack k r Hk) as [Hn|Hn]; unfold questionId; by rewrite Hn. }
  rewrite (Hid i ri Hi), (Hid j rj Hj). intros [= <-] [= Heq].
  symmetry in Heq. by apply backfilledId_inj in Heq.
Qed.

Lemma generateQuestionsForConcept_fresh_ids_witness :
  Question.id <$>
    (match generateQuestionsForConcept (obligingWorld None) 0%nat (sampleStore 0%nat)
             mixedOptions with
     | Ok questions => questions
     | _ => []
     end) = ["c1_q1"; "c1_q2"] ∧
  NoDup ["c1_q1"; "c1_q2"].
Proof.
  split; [by vm_compute|].
  apply (generateQuestionsForConcept_fresh_ids (obligingWorld None) 0%nat
           (sampleStore 0%nat) mixedOptions
           (replicate 2 (sampleRaw "Why?" "Because."))
           (match generateQuestionsForConcept (obligingWorld None) 0%nat
                    (sampleStore 0%nat) mixedOptions with
            | Ok questions => questions
            | _ => []
            end)).
  - reflexivity.
  - repeat constructor.
  - by vm_compute.
Defined.

(** ** Formatting and reading back a duration *)

Lemma pretty_N_char_digit (d : N) :
  (d < 10)%N →
  Js.is_digit (pretty_N_char d) = true ∧ Js.digit_value (pretty_N_char d) = Z.of_N d.
Proof.
  intros Hd.
  assert (d = 0 ∨ d = 1 ∨ d = 2 ∨ d = 3 ∨ d = 4 ∨ d = 5 ∨ d = 6 ∨ d = 7 ∨ d = 8 ∨ d = 9)%N
    as Hcases by lia.
  repeat (destruct Hcases as [->|Hcases]; [by vm_compute|]). subst. by vm_compute.
Qed.

(** The digits [pretty] writes in front of a run of digits. *)
Lemma pretty_N_go_digits (x : N) (s : string) :
  allChars Js.is_digit s = true →
  allChars Js.is_digit (pretty_N_go x s) = true ∧
  decimalValue (pretty_N_go x s)
    = Z.of_N x * 10 ^ Z.of_nat (String.length s) + decimalValue s.
Proof.
  revert s. induction (N.lt_wf_0 x) as [x _ IH]. intros s Hs.
  destruct (N.eq_dec x 0%N) as [->|Hx].
  { rewrite pretty_N_go_0. split; [done|lia]. }
  rewrite pretty_N_go_step by lia.
  destruct (pretty_N_char_digit (x `mod` 10)) as [Hdig Hval].
  { by apply N.mod_lt. }
  destruct (IH (x `div` 10)%N) with (s := String (pretty_N_char (x `mod` 10)) s)
    as [Hall Hdec].
  { apply N.div_lt; lia. }
  { simpl. by rewrite Hdig. }
  split; [done|]. rewrite Hdec. cbn [decimalValue String.length]. rewrite Hval.
  rewrite Nat2Z.inj_succ, Z.pow_succ_r by lia.
  pose proof (N.div_mod x 10 ltac:(lia)) as Hdm.
  assert (Z.of_N x = 10 * Z.of_N (x `div` 10) + Z.of_N (x `mod` 10)) as -> by lia.
  lia.
Qed.

(** A natural number is written as its decimal numeral. *)
Lemma toString_digits (n : Z) :
  0 <= n →
  Js.toString n ≠ "" ∧
  allChars Js.is_digit (Js.toString n) = true ∧
  decimalValue (Js.toString n) = n.
Proof.
  intros Hn. unfold Js.toString, pretty, pretty_Z.
  destruct n as [|p|p]; [by vm_compute| |lia].
  unfold pretty, pretty_positive, pretty, pretty_N.
  destruct (decide (N.pos p = 0%N)) as [|_]; [done|].
  destruct (pretty_N_go_digits (N.pos p) "" eq_refl) as [Hall Hdec].
  split; [|split; [done|]].
  - intros Hempty. rewrite Hempty in Hdec. simpl in Hdec. lia.
  - rewrite Hdec. simpl. lia.
Qed.


Lemma noMatchBefore_nil rest : noMatchBefore "" rest.
Proof. intros p1 p2 Hp Hne. destruct p1, p2; done. Qed.

Lemma noMatchBefore_cons c pre rest :
  scanHere (String c pre +:+ rest) = None →
  noMatchBefore pre rest → noMatchBefore (String c pre) rest.
Proof.
  intros Hhere Hrest p1 p2 Hp Hne. destruct p1 as [|c' p1].
  - rewrite app_nil_s in Hp. by subst p2.
  - rewrite app_cons_s in Hp. injection Hp as -> ->. by apply (Hrest p1 p2).
Qed.

(** The result of [parseTimeToMinutes] on a text whose first
    occurrence of the pattern starts after [pre]. *)
Lemma parseTimeToMinutes_after pre digits gap unit post :
  noMatchBefore pre (digits +:+ gap +:+ unit +:+ post) →
  timeOccurrence (digits +:+ gap +:+ unit +:+ post) "" digits gap unit post →
  parseTimeToMinutes (Some (pre +:+ digits +:+ gap +:+ unit +:+ post)) =
    readingOf digits unit.
Proof.
  intros Hbefore Hocc. set (rest := digits +:+ gap +:+ unit +:+ post) in *.
  pose proof (scanHere_of_occurrence rest digits gap unit post Hocc) as Hscan.
  pose proof (match_here_scanHere rest) as Hhere. rewrite Hscan in Hhere.
  destruct Hhere as (m & Hm & H1 & H2).
  eapply parseTimeToMinutes_matched; eauto.
  - destruct Hocc as (_ & Hne & _). destruct pre; [|done].
    rewrite app_nil_s. unfold rest. by destruct digits.
  - rewrite match_skip; [by apply match_here_match|].
    intros p1 p2 Hp Hne. pose proof (match_here_scanHere (p2 +:+ rest)) as Hearly.
    by rewrite (Hbefore p1 p2 Hp Hne) in Hearly.
Qed.

Lemma noMatchBefore_hours (hours rest : string) :
  allChars Js.is_digit hours = true → noMatchBefore (hours +:+ "h ") rest.
Proof.
  induction hours as [|c hours IH]; intros Hd.
  - rewrite app_nil_s. apply noMatchBefore_cons; [done|].
    apply noMatchBefore_cons; [done|]. apply noMatchBefore_nil.
  - pose proof Hd as Hd'. simpl in Hd'. apply andb_true_iff in Hd' as [Hc Hrest].
    rewrite app_cons_s. apply noMatchBefore_cons; [|by apply IH].
    rewrite <-app_cons_s, app_assoc_s. unfold scanHere.
    rewrite takeWhile_app, dropWhile_app by done.
    by destruct hours.
Qed.

(** The reading of the decimal numeral of a natural number below 2^53
    in front of a minute word, and of one below 2^53 / 60 in front of
    an hour word. *)
Lemma readingOf_toString_min n :
  0 <= n < 2 ^ 53 → readingOf (Js.toString n) "min" = Js.Num n.
Proof.
  intros Hn. destruct (toString_digits n ltac:(lia)) as (_ & Hall & Hval).
  rewrite readingOf_safe; [|done|];
    change (isHourWord "min") with false; cbv iota; rewrite Hval; [done|lia].
Qed.

Lemma readingOf_toString_hour n :
  0 <= n → n * 60 < 2 ^ 53 → readingOf (Js.toString n) "hour" = Js.Num (n * 60).
Proof.
  intros Hn Hsafe. destruct (toString_digits n Hn) as (_ & Hall & Hval).
  rewrite readingOf_safe; [|done|];
    change (isHourWord "hour") with true; cbv iota; rewrite Hval; [done|lia].
Qed.

(** X14. Reading back a formatted duration: for a natural number [n]
    of minutes below 2^53, [parseTimeToMinutes] applied to the text
    [formatMinutesToTime] writes returns [n] when [n] is below 60 or a
    multiple of 60, and otherwise only the minutes left over after the
    full hours, [n mod 60]: in the form "[h]h [m]min" the hours are not
    read. *)
Theorem parse_format_round_trip (n : Z) :
  0 <= n < 2 ^ 53 →
  parseTimeToMinutes (Some (formatMinutesToTime (Js.Num n))) =
    Js.Num (if (n <? 60) || (n `mod` 60 =? 0) then n else n `mod` 60).
Proof.
  intros Hn.
  destruct (Z.ltb_spec n 60) as [Hlt|Hge]; cbn [orb].
  - rewrite formatMinutesToTime_minutes by lia.
    destruct (toString_digits n ltac:(lia)) as (Hne & Hall & Hval).
    change (Js.toString n +:+ " min")
      with ("" +:+ Js.toString n +:+ " " +:+ "min" +:+ "").
    rewrite (parseTimeToMinutes_after "" (Js.toString n) " " "min" "");
      [by apply readingOf_toString_min|apply noMatchBefore_nil|].
    repeat split; try done. by left.
  - rewrite formatMinutesToTime_hours by lia.
    assert (0 <= n `div` 60) as Hh by (apply Z.div_pos; lia).
    pose proof (Z.div_mod n 60 ltac:(lia)) as Hdm.
    pose proof (Z.mod_pos_bound n 60 ltac:(lia)) as Hm.
    destruct (toString_digits (n `div` 60) Hh) as (Hne & Hall & Hval).
    destruct (Z.eqb_spec (n `mod` 60) 0) as [Hz|Hnz].
    + assert (∀ post,
                parseTimeToMinutes (Some (Js.toString (n `div` 60) +:+ " hour" +:+ post))
                = Js.Num n) as Hpost.
      { intros post.
        change (Js.toString (n `div` 60) +:+ " hour" +:+ post)
          with ("" +:+ Js.toString (n `div` 60) +:+ " " +:+ "hour" +:+ post).
        rewrite (parseTimeToMinutes_after "" (Js.toString (n `div` 60)) " " "hour" post).
        - rewrite readingOf_toString_hour by lia. f_equal. lia.
        - apply noMatchBefore_nil.
        - repeat split; try done. by right. }
      destruct (1 <? n `div` 60); apply Hpost.
    + destruct (toString_digits (n `mod` 60) ltac:(lia)) as (Hne' & Hall' & Hval').
      change (Js.toString (n `div` 60) +:+ "h " +:+ Js.toString (n `mod` 60) +:+ "min")
        with (Js.toString (n `div` 60) +:+ "h " +:+
                Js.toString (n `mod` 60) +:+ "" +:+ "min" +:+ "").
      rewrite <-app_assoc_s.
      rewrite (parseTimeToMinutes_after (Js.toString (n `div` 60) +:+ "h ")
                 (Js.toString (n `mod` 60)) "" "min" "");
        [apply readingOf_toString_min; lia|by apply noMatchBefore_hours|].
      repeat split; try done. by left.
Qed.

Lemma parse_format_round_trip_witness :
  parseTimeToMinutes (Some (formatMinutesToTime (Js.Num 120))) = Js.Num 120 ∧
  parseTimeToMinutes (Some (formatMinutesToTime (Js.Num 90))) = Js.Num 30.
Proof.
  assert (∀ n, 0 <= n < 1000 → 0 <= n < 2 ^ 53) as Hsafe.
  { intros n Hn. assert (1000 < 2 ^ 53) by done. lia. }
  split.
  - apply (parse_format_round_trip 120). apply Hsafe. lia.
  - apply (parse_format_round_trip 90). apply Hsafe. lia.
Defined.

(** ** File validation: the decision and its messages *)

Lemma includes_app_r s t p : Js.includes t p = true → Js.includes (s +:+ t) p = true.
Proof.
  intros Ht. induction s as [|c s IH]; [done|]. rewrite app_cons_s.
  cbn [Js.includes]. destruct (Js.startsWith p _); [done|exact IH].
Qed.

Lemma startsWith_app p t : Js.startsWith p (p +:+ t) = true.
Proof.
  induction p as [|c p IH]; [done|]. rewrite app_cons_s. simpl.
  by rewrite Ascii.eqb_refl.
Qed.

Lemma includes_infix s p t : Js.includes (s +:+ p +:+ t) p = true.
Proof.
  apply includes_app_r. destruct p as [|c p]; [by destruct t|].
  rewrite app_cons_s. cbn [Js.includes]. rewrite <-app_cons_s.
  by rewrite startsWith_app.
Qed.

(** X15. [validateFile] reports a file valid exactly when the file is
    present, its size is at most 10 MiB (10485760 bytes, the limit
    itself included) and its type contains the text "text" or the text
    "application". An error message is present exactly when the file is
    reported invalid, and it is one of three messages; the size is
    checked before the type. *)
Theorem validateFile_decision (file : option File.t) :
  (isValid (validateFile file) = true ↔
     ∃ f, file = Some f ∧ File.size f <= 10485760 ∧
          (Js.includes (File.type f) "text" = true ∨
           Js.includes (File.type f) "application" = true)) ∧
  (error (validateFile file) = None ↔ isValid (validateFile file) = true) ∧
  (isValid (validateFile file) = false →
     error (validateFile file) = Some "No file provided" ∨
     error (validateFile file) = Some "File size exceeds 10MB limit" ∨
     error (validateFile file) = Some "Unsupported file type") ∧
  (∀ f, file = Some f → 10485760 < File.size f →
        error (validateFile file) = Some "File size exceeds 10MB limit").
Proof.
  split; [apply validateFile_valid_iff|]. split; [|split].
  - unfold validateFile. destruct file as [f|]; [|done].
    destruct (File.size f >? maxSize); [done|].
    by destruct (negb _).
  - unfold validateFile. destruct file as [f|]; [|auto].
    destruct (File.size f >? maxSize); [auto|].
    destruct (negb _); [auto|done].
  - intros f -> Hsize. simpl.
    by rewrite (proj2 (Z.gtb_lt (File.size f) maxSize) Hsize).
Qed.

Lemma validateFile_decision_witness :
  error (validateFile (Some (File.mk "big.txt" 10485761 "text/plain" 0)))
  = Some "File size exceeds 10MB limit".
Proof.
  apply (proj2 (proj2 (proj2 (validateFile_decision
           (Some (File.mk "big.txt" 10485761 "text/plain" 0)))))
           (File.mk "big.txt" 10485761 "text/plain" 0) eq_refl).
  simpl. lia.
Defined.

(** X16. Every file of at most 10 MiB whose type is on the allow-list,
    or contains an allow-listed type, is reported valid; a file whose
    type is the empty string is rejected as an unsupported type
    whatever its name. *)
Theorem validateFile_accepts_listed (f : File.t) :
  File.size f <= 10485760 →
  ((∃ listed before after,
      listed ∈ allowedTypes ∧ File.type f = before +:+ listed +:+ after) →
   validateFile (Some f) = {| isValid := true; error := None |}) ∧
  (File.type f = "" →
   validateFile (Some f) = {| isValid := false; error := Some "Unsupported file type" |}).
Proof.
  intros Hsize. unfold validateFile.
  assert ((File.size f >? maxSize) = false) as ->.
  { destruct (Z.gtb_spec (File.size f) maxSize) as [Hgt|]; [|done].
    unfold maxSize in Hgt. lia. }
  split.
  - intros (listed & before & after & Hin & Htype).
    replace (existsb _ allowedTypes) with true; [done|]. symmetry.
    apply existsb_exists. exists listed. split; [by apply list_elem_of_In|].
    rewrite Htype. unfold allowedTypes in Hin.
    rewrite !elem_of_cons, elem_of_nil in Hin.
    destruct Hin as [->|[->|[->|[->|[->|[]]]]]].
    + apply (includes_infix before "text" ("/plain" +:+ after)).
    + apply (includes_infix before "text" ("/markdown" +:+ after)).
    + apply (includes_infix before "application" ("/json" +:+ after)).
    + apply (includes_infix before "text" ("/csv" +:+ after)).
    + apply (includes_infix before "application" ("/pdf" +:+ after)).
  - by intros ->.
Qed.

Lemma validateFile_accepts_listed_witness :
  validateFile (Some (File.mk "a.csv" 10485760 "text/csv;charset=utf-8" 0))
  = {| isValid := true; error := None |}.
Proof.
  apply (proj1 (validateFile_accepts_listed
                  (File.mk "a.csv" 10485760 "text/csv;charset=utf-8" 0)
                  ltac:(simpl; lia))).
  exists "text/csv", "", ";charset=utf-8". split; [|reflexivity].
  apply list_elem_of_In. simpl. tauto.
Defined.

(** ** The upload page keeps only accepted files *)

(** X17. On the upload page a file becomes the selected file only when
    [validateFile] reports it valid, and then the error text is
    cleared; a rejected file leaves the earlier selection in place and
    shows the validation message. Hence, starting from a state whose
    selection is accepted (or empty), every file handler leads to such
    a state again. *)
Theorem upload_selection_accepted {Analysis : Type} (file : option File.t)
        (st : Upload.t Analysis) :
  (isValid (validateFile file) = true →
     Upload.selectedFile (Upload.handleFileSelection file st) = file ∧
     Upload.error (Upload.handleFileSelection file st) = Some "") ∧
  (isValid (validateFile file) = false →
     Upload.selectedFile (Upload.handleFileSelection file st) = Upload.selectedFile st ∧
     Upload.error (Upload.handleFileSelection file st) = error (validateFile file)) ∧
  (selectionAccepted st →
     selectionAccepted (Upload.handleFileSelection file st) ∧
     selectionAccepted (Upload.handleDrop file st) ∧
     selectionAccepted (Upload.handleFileInputChange file st) ∧
     selectionAccepted (Upload.removeSelectedFile st) ∧
     ∀ eventType, selectionAccepted (Upload.handleDrag eventType st)).
Proof.
  assert (∀ (g : option File.t) (s : Upload.t Analysis),
            selectionAccepted s → selectionAccepted (Upload.handleFileSelection g s))
    as Hsel.
  { intros g s Hs f. unfold Upload.handleFileSelection.
    destruct (validateFile g) as [valid message] eqn:Hv.
    destruct valid; cbn [negb Upload.selectedFile]; [|apply Hs].
    intros Hg. rewrite Hg in Hv. by rewrite Hv. }
  split; [|split].
  - unfold Upload.handleFileSelection.
    destruct (validateFile file) as [valid message]. simpl. by intros ->.
  - unfold Upload.handleFileSelection.
    destruct (validateFile file) as [valid message]. simpl. by intros ->.
  - intros Hst. split; [by apply Hsel|]. split; [|split; [|split]].
    + unfold Upload.handleDrop. destruct file; [by apply Hsel|exact Hst].
    + unfold Upload.handleFileInputChange. destruct file; [by apply Hsel|exact Hst].
    + by intros f.
    + intros eventType. unfold Upload.handleDrag.
      repeat case_match; exact Hst.
Qed.

Lemma upload_selection_accepted_witness :
  Upload.selectedFile
    (Upload.handleFileSelection (Some (File.mk "movie.mp4" 5 "video/mp4" 0))
       (Upload.mk (Analysis := unit) false None (Some "") None)) = None ∧
  Upload.selectedFile
    (Upload.handleFileSelection (Some zipFile)
       (Upload.mk (Analysis := unit) false None (Some "") None)) = Some zipFile.
Proof.
  split.
  - apply (proj1 (proj2 (upload_selection_accepted
                           (Some (File.mk "movie.mp4" 5 "video/mp4" 0))
                           (Upload.mk (Analysis := unit) false None (Some "") None)))).
    reflexivity.
  - apply (proj1 (upload_selection_accepted (Some zipFile)
                    (Upload.mk (Analysis := unit) false None (Some "") None))).
    reflexivity.
Defined.

(** ** The duration of a study plan *)

(** X18. [calculateCompletionTime] answers "0 days" for an absent or
    empty list of sessions, "[n] days" for one to seven sessions, and
    "[w] weeks" for more, where [w] is the least number of weeks that
    holds the [n] days and is at least 2; it never answers in weeks for
    a plan that fits one week. *)
Theorem calculateCompletionTime_cases {Session : Type} (sessions : list Session) :
  let n := Z.of_nat (length sessions) in
  calculateCompletionTime (Session := Session) None = "0 days" ∧
  (n = 0 → calculateCompletionTime (Some sessions) = "0 days") ∧
  (1 <= n <= 7 → calculateCompletionTime (Some sessions) = Js.toString n +:+ " days") ∧
  (8 <= n →
     ∃ w, calculateCompletionTime (Some sessions) = Js.toString w +:+ " weeks" ∧
          2 <= w ∧ 7 * (w - 1) < n <= 7 * w).
Proof.
  intros n. subst n. split; [done|]. split; [|split].
  - destruct sessions; [done|]. simpl. lia.
  - intros Hn. destruct sessions as [|x l]; [simpl in Hn; lia|].
    set (s := x :: l) in *. unfold calculateCompletionTime.
    cbv zeta. fold s.
    assert ((Z.of_nat (length s) + 6) `div` 7 = 1) as ->; [|done].
    symmetry. apply Z.div_unique with (r := Z.of_nat (length s) - 1); lia.
  - intros Hn. destruct sessions as [|x l]; [simpl in Hn; lia|].
    set (s := x :: l) in *. exists ((Z.of_nat (length s) + 6) `div` 7).
    pose proof (Z.div_mod (Z.of_nat (length s) + 6) 7 ltac:(lia)) as Hdm.
    pose proof (Z.mod_pos_bound (Z.of_nat (length s) + 6) 7 ltac:(lia)) as Hm.
    assert (2 <= (Z.of_nat (length s) + 6) `div` 7) as Hw by lia.
    split; [|lia].
    unfold calculateCompletionTime. cbv zeta. fold s.
    destruct (Z.eqb_spec ((Z.of_nat (length s) + 6) `div` 7) 1); [lia|done].
Qed.

Lemma calculateCompletionTime_cases_witness :
  calculateCompletionTime (Some [1; 2; 3; 4; 5; 6; 7]) = "7 days" ∧
  ∃ w, calculateCompletionTime (Some [1; 2; 3; 4; 5; 6; 7; 8]) = Js.toString w +:+ " weeks"
       ∧ 2 <= w ∧ 7 * (w - 1) < 8 <= 7 * w.
Proof.
  split.
  - apply (calculateCompletionTime_cases [1; 2; 3; 4; 5; 6; 7]). simpl. lia.
  - apply (calculateCompletionTime_cases [1; 2; 3; 4; 5; 6; 7; 8]). simpl. lia.
Defined.

(** ** The assessment page: navigation *)

Lemma findIndex_Some questionId qs i :
  Assessment.findIndex questionId qs = Some i →
  (i < length qs)%nat ∧
  (∃ q, qs !! i = Some q ∧ Question.id q = questionId) ∧
  (∀ j q, (j < i)%nat → qs !! j = Some q → Question.id q ≠ questionId).
Proof.
  revert i. induction qs as [|q qs IH]; intros i; simpl; [done|].
  destruct (String.eqb_spec (Question.id q) questionId) as [Heq|Hne].
  - intros [= <-]. split; [lia|]. split; [by exists q|]. intros j q' Hj. lia.
  - destruct (Assessment.findIndex questionId qs) as [j|]; [|done].
    intros [= <-]. destruct (IH j eq_refl) as (Hj & Hq & Hfirst).
    split; [lia|]. split; [done|].
    intros [|k] q' Hk Hq'; simpl in Hq'; [congruence|].
    apply (Hfirst k q'); [lia|done].
Qed.

Lemma findIndex_None questionId qs :
  Assessment.findIndex questionId qs = None →
  ∀ q, q ∈ qs → Question.id q ≠ questionId.
Proof.
  induction qs as [|q qs IH]; simpl; [by intros _ q ?%elem_of_nil|].
  destruct (String.eqb_spec (Question.id q) questionId) as [Heq|Hne]; [done|].
  destruct (Assessment.findIndex questionId qs) as [j|]; [done|].
  intros _ q' [->|Hq']%elem_of_cons; [done|by apply IH].
Qed.

(** What the read of the answers under the current key finds. *)
Lemma currentAnswered_true st :
  Assessment.currentAnswered st = true ↔
  (∃ answer, Assessment.answers st !! Assessment.currentKey st = Some answer ∧
             answer ≠ "") ∨
  (Assessment.answers st !! Assessment.currentKey st = None ∧
   Js.inherited (Assessment.currentKey st) = true).
Proof.
  unfold Assessment.currentAnswered, Js.get.
  destruct (Assessment.answers st !! Assessment.currentKey st) as [[|c answer]|].
  - split; [done|]. intros [(a & [= <-] & Hne)|[? _]]; done.
  - split; [|done]. intros _. left. by eexists.
  - destruct (Js.inherited (Assessment.currentKey st)).
    + split; [|done]. intros _. by right.
    + split; [done|]. intros [(a & ? & _)|[_ ?]]; done.
Qed.

(** X19. While the current index points at a question, no navigation
    handler moves it out of the question list: after Next, Previous, a
    selection by question id, an answer or a submission the index still
    points at a question. Next moves forward by one exactly when the
    read of the answers under the id of the current question is truthy
    and the question is not the last one, and otherwise stays; Previous
    moves back by one exactly when the index is above 0; a selection
    goes to the first question with the given id, changing nothing but
    the index, and changes nothing when no question has the id. *)
Theorem assessment_navigation_in_range (st : Assessment.t) :
  indexInRange st →
  indexInRange (Assessment.handleNext st) ∧
  indexInRange (Assessment.handlePrevious st) ∧
  (∀ questionId, indexInRange (Assessment.handleQuestionSelect questionId st)) ∧
  (∀ answer, indexInRange (Assessment.handleAnswerChange answer st)) ∧
  indexInRange (Assessment.handleSubmit st) ∧
  Assessment.currentQuestionIndex (Assessment.handleNext st) =
    (if Assessment.currentAnswered st &&
        (Assessment.currentQuestionIndex st <? Assessment.totalQuestions st - 1)
     then Assessment.currentQuestionIndex st + 1
     else Assessment.currentQuestionIndex st) ∧
  Assessment.currentQuestionIndex (Assessment.handlePrevious st) =
    (if Assessment.currentQuestionIndex st >? 0
     then Assessment.currentQuestionIndex st - 1
     else Assessment.currentQuestionIndex st) ∧
  (∀ questionId,
     (∀ q, q ∈ Assessment.questions st → Question.id q ≠ questionId) ∧
     Assessment.handleQuestionSelect questionId st = st
     ∨
     ∃ i q,
       Assessment.questions st !! i = Some q ∧ Question.id q = questionId ∧
       (∀ j q', (j < i)%nat → Assessment.questions st !! j = Some q' →
                Question.id q' ≠ questionId) ∧
       Assessment.handleQuestionSelect questionId st
         = Assessment.set_index (Z.of_nat i) (Assessment.showValidation st) st ∧
       Assessment.currentQuestion (Assessment.handleQuestionSelect questionId st) = Some q).
Proof.
  unfold indexInRange, Assessment.totalQuestions. intros Hin.
  split; [|split; [|split; [|split; [|split; [|split; [|split]]]]]].
  - unfold Assessment.handleNext.
    destruct (Assessment.currentAnswered st); simpl; [|done].
    destruct (Z.ltb_spec (Assessment.currentQuestionIndex st)
                (Assessment.totalQuestions st - 1)) as [Hlt|Hge]; simpl; [|done].
    unfold Assessment.totalQuestions in Hlt. lia.
  - unfold Assessment.handlePrevious.
    destruct (Z.gtb_spec (Assessment.currentQuestionIndex st) 0); simpl; lia.
  - intros questionId. unfold Assessment.handleQuestionSelect.
    destruct (Assessment.findIndex questionId (Assessment.questions st)) as [i|] eqn:Hi;
      [|done].
    apply findIndex_Some in Hi as [Hi _]. simpl. lia.
  - done.
  - unfold Assessment.handleSubmit. by destruct (Assessment.currentAnswered st).
  - unfold Assessment.handleNext.
    destruct (Assessment.currentAnswered st); simpl; [|done].
    by destruct (Assessment.currentQuestionIndex st <? _).
  - unfold Assessment.handlePrevious.
    by destruct (Assessment.currentQuestionIndex st >? 0).
  - intros questionId. unfold Assessment.handleQuestionSelect.
    destruct (Assessment.findIndex questionId (Assessment.questions st)) as [i|] eqn:Hi.
    + right. apply findIndex_Some in Hi as (_ & (q & Hq & Hid) & Hfirst).
      exists i, q. repeat split; try done.
      unfold Assessment.currentQuestion, Assessment.at_index. simpl.
      destruct (Z.ltb_spec (Z.of_nat i) 0); [lia|].
      by rewrite Nat2Z.id.
    + left. split; [by apply findIndex_None|done].
Qed.

Lemma assessment_navigation_in_range_witness :
  indexInRange (Assessment.handleNext (Assessment.handleAnswerChange "a" sampleAssessment)) ∧
  Assessment.currentQuestionIndex
    (Assessment.handleNext (Assessment.handleAnswerChange "a" sampleAssessment)) = 1 ∧
  Assessment.currentQuestionIndex (Assessment.handleQuestionSelect "q2" sampleAssessment) = 1.
Proof.
  assert (indexInRange (Assessment.handleAnswerChange "a" sampleAssessment)) as Hin
    by (by vm_compute).
  split; [|split].
  - apply (assessment_navigation_in_range _ Hin).
  - etrans.
    + apply (assessment_navigation_in_range _ Hin).
    + by vm_compute.
  - by vm_compute.
Defined.

(** ** The assessment page: answers, submission, session *)

Lemma currentKey_handleAnswerChange answer st :
  Assessment.currentKey (Assessment.handleAnswerChange answer st) = Assessment.currentKey st.
Proof. done. Qed.

Lemma currentAnswered_handleAnswerChange answer st :
  Assessment.currentAnswered (Assessment.handleAnswerChange answer st)
  = negb (String.eqb answer "").
Proof.
  unfold Assessment.currentAnswered, Js.get. rewrite currentKey_handleAnswerChange.
  cbn [Assessment.answers Assessment.handleAnswerChange].
  rewrite lookup_insert_eq. by destruct answer.
Qed.

(** X20. Next and Submit go on exactly when the read of the answers
    under the id of the current question is truthy, that is, when a
    non-empty answer is recorded under the id, or when none is recorded
    and the id names a member of [Object.prototype]. Otherwise both are
    refused: nothing changes but the validation flag, which is raised.
    When they go on, Submit shows the summary and Next moves on unless
    the question is the last one. In particular, after an empty answer
    to the current question both are refused, and after a non-empty
    answer the flag is down, Next moves on unless the question is the
    last one, and Submit shows the summary, whatever the other
    questions' answers are. *)
Theorem assessment_answer_gates_progress (answer : string) (st : Assessment.t) :
  let answered := Assessment.handleAnswerChange answer st in
  (Assessment.currentAnswered st = true ↔
     (∃ recorded, Assessment.answers st !! Assessment.currentKey st = Some recorded ∧
                  recorded ≠ "") ∨
     (Assessment.answers st !! Assessment.currentKey st = None ∧
      Js.inherited (Assessment.currentKey st) = true)) ∧
  (Assessment.currentAnswered st = false →
     Assessment.handleNext st = Assessment.set_validation true st ∧
     Assessment.handleSubmit st = Assessment.set_validation true st) ∧
  (Assessment.currentAnswered st = true →
     Assessment.showSummary (Assessment.handleSubmit st) = true ∧
     Assessment.isSubmitting (Assessment.handleSubmit st) = false ∧
     Assessment.handleNext st =
       (if Assessment.currentQuestionIndex st <? Assessment.totalQuestions st - 1
        then Assessment.set_index (Assessment.currentQuestionIndex st + 1) false st
        else st)) ∧
  Assessment.showValidation answered = false ∧
  Assessment.answers answered !! Assessment.currentKey st = Some answer ∧
  (answer = "" →
     Assessment.handleNext answered = Assessment.set_validation true answered ∧
     Assessment.handleSubmit answered = Assessment.set_validation true answered ∧
     Assessment.showSummary (Assessment.handleSubmit answered) = Assessment.showSummary st) ∧
  (answer ≠ "" →
     Assessment.showSummary (Assessment.handleSubmit answered) = true ∧
     Assessment.showValidation (Assessment.handleNext answered) = false ∧
     (Assessment.currentQuestionIndex st < Assessment.totalQuestions st - 1 →
      Assessment.currentQuestionIndex (Assessment.handleNext answered)
      = Assessment.currentQuestionIndex st + 1) ∧
     (Assessment.totalQuestions st - 1 <= Assessment.currentQuestionIndex st →
      Assessment.handleNext answered = answered)).
Proof.
  intros answered. subst answered.
  split; [apply currentAnswered_true|].
  split; [by unfold Assessment.handleNext, Assessment.handleSubmit; intros ->|].
  split; [by unfold Assessment.handleNext, Assessment.handleSubmit; intros ->|].
  split; [done|]. split; [apply lookup_insert_eq|]. split.
  - intros ->. unfold Assessment.handleNext, Assessment.handleSubmit.
    by rewrite currentAnswered_handleAnswerChange.
  - intros Hne. unfold Assessment.handleNext, Assessment.handleSubmit.
    rewrite currentAnswered_handleAnswerChange.
    rewrite (proj2 (String.eqb_neq answer "") Hne). cbn [negb].
    split; [done|]. split; [by destruct (_ <? _)|]. split.
    + intros Hlt. change (Assessment.totalQuestions (Assessment.handleAnswerChange answer st))
        with (Assessment.totalQuestions st).
      change (Assessment.currentQuestionIndex (Assessment.handleAnswerChange answer st))
        with (Assessment.currentQuestionIndex st).
      by rewrite (proj2 (Z.ltb_lt _ _) Hlt).
    + intros Hge. change (Assessment.totalQuestions (Assessment.handleAnswerChange answer st))
        with (Assessment.totalQuestions st).
      change (Assessment.currentQuestionIndex (Assessment.handleAnswerChange answer st))
        with (Assessment.currentQuestionIndex st).
      by rewrite (proj2 (Z.ltb_ge _ _) Hge).
Qed.

Lemma assessment_answer_gates_progress_witness :
  Assessment.showValidation
    (Assessment.handleNext (Assessment.handleAnswerChange "" sampleAssessment)) = true ∧
  Assessment.showSummary
    (Assessment.handleSubmit (Assessment.handleAnswerChange "b" sampleAssessment)) = true ∧
  Assessment.currentQuestionIndex (Assessment.handleNext memberAssessment) = 1.
Proof.
  destruct (assessment_answer_gates_progress "" sampleAssessment)
    as (_ & _ & _ & _ & _ & Hempty & _).
  destruct (assessment_answer_gates_progress "b" sampleAssessment)
    as (_ & _ & _ & _ & _ & _ & Hfull).
  destruct (assessment_answer_gates_progress "" memberAssessment)
    as (Hgate & _ & Hgo & _).
  split; [|split].
  - rewrite (proj1 (Hempty eq_refl)). reflexivity.
  - apply Hfull. discriminate.
  - rewrite (proj2 (proj2 (Hgo (proj2 Hgate (or_intror (conj eq_refl eq_refl)))))).
    reflexivity.
Defined.

(** X21. Answers are kept under the id of the question: an answer given
    to the current question counts for every question that has the same
    id, and leaves the answers under every other id as they were. *)
Theorem assessment_answers_keyed_by_id (answer : string) (st : Assessment.t)
        (q other : Question.t) (i : Z) :
  Assessment.currentQuestion st = Some q →
  Assessment.at_index (Assessment.questions st) i = Some other →
  let moved := Assessment.set_index i false (Assessment.handleAnswerChange answer st) in
  (Question.id other = Question.id q →
     Assessment.currentAnswered moved = negb (String.eqb answer "")) ∧
  (Question.id other ≠ Question.id q →
     Assessment.answers moved !! Question.id other
     = Assessment.answers st !! Question.id other).
Proof.
  intros Hq Hother moved. subst moved.
  assert (Assessment.currentKey st = Question.id q) as Hkey.
  { unfold Assessment.currentKey. by rewrite Hq. }
  split.
  - intros Hid. unfold Assessment.currentAnswered, Js.get, Assessment.currentKey,
      Assessment.currentQuestion.
    cbn [Assessment.set_index Assessment.handleAnswerChange Assessment.questions
         Assessment.currentQuestionIndex Assessment.answers].
    rewrite Hother, Hid, Hkey, lookup_insert_eq. by destruct answer.
  - intros Hid. cbn [Assessment.set_index Assessment.handleAnswerChange Assessment.answers].
    rewrite Hkey. by rewrite lookup_insert_ne.
Qed.

Lemma assessment_answers_keyed_by_id_witness :
  Assessment.currentAnswered
    (Assessment.set_index 2 false
       (Assessment.handleAnswerChange "b" (Assessment.set_index 1 false sampleAssessment)))
  = true.
Proof.
  apply (assessment_answers_keyed_by_id "b" (Assessment.set_index 1 false sampleAssessment)
           (sampleQuestion "q2") (sampleQuestion "q2") 2);
    reflexivity.
Defined.

(** X22. The session clock advances by one second when the status is
    active and stands still in every other status. Pausing turns active
    into paused and every other status, also saving and saved, into
    active; so pausing twice from active gives active again. Retaking
    the assessment clears answers, confidence, summary and clock and
    returns to the first question of the same questions; no answer
    being recorded any more, that question then reads as answered
    exactly when its id names a member of [Object.prototype]. *)
Theorem assessment_session (st : Assessment.t) :
  (Assessment.sessionStatus st = "active" →
     Assessment.sessionTime (Assessment.tick st) = Assessment.sessionTime st + 1 ∧
     Assessment.sessionStatus (Assessment.handlePauseSession st) = "paused" ∧
     Assessment.tick (Assessment.handlePauseSession st) = Assessment.handlePauseSession st ∧
     Assessment.handlePauseSession (Assessment.handlePauseSession st) = st) ∧
  (Assessment.sessionStatus st ≠ "active" →
     Assessment.tick st = st ∧
     Assessment.sessionStatus (Assessment.handlePauseSession st) = "active") ∧
  Assessment.questions (Assessment.handleRetakeAssessment st) = Assessment.questions st ∧
  Assessment.currentQuestionIndex (Assessment.handleRetakeAssessment st) = 0 ∧
  Assessment.answers (Assessment.handleRetakeAssessment st) = ∅ ∧
  Assessment.confidence (Assessment.handleRetakeAssessment st) = ∅ ∧
  Assessment.sessionTime (Assessment.handleRetakeAssessment st) = 0 ∧
  Assessment.sessionStatus (Assessment.handleRetakeAssessment st) = "active" ∧
  Assessment.showSummary (Assessment.handleRetakeAssessment st) = false ∧
  Assessment.currentAnswered (Assessment.handleRetakeAssessment st)
    = Js.inherited (Assessment.currentKey (Assessment.handleRetakeAssessment st)).
Proof.
  split; [|split; [|repeat split; try done]].
  - intros Hs. unfold Assessment.tick, Assessment.handlePauseSession.
    rewrite Hs. cbn. destruct st. simpl in Hs. by subst.
  - intros Hs. unfold Assessment.tick, Assessment.handlePauseSession.
    by rewrite (proj2 (String.eqb_neq _ _) Hs).
  - unfold Assessment.currentAnswered, Js.get.
    cbn [Assessment.answers Assessment.handleRetakeAssessment].
    rewrite lookup_empty. by destruct (Js.inherited _).
Qed.

Lemma assessment_session_witness :
  Assessment.sessionTime (Assessment.tick sampleAssessment) = 1 ∧
  Assessment.sessionStatus
    (Assessment.handlePauseSession (Assessment.set_status "saving" sampleAssessment))
  = "active".
Proof.
  split.
  - apply (proj1 (assessment_session sampleAssessment)). reflexivity.
  - apply (proj1 (proj2 (assessment_session
                           (Assessment.set_status "saving" sampleAssessment)))).
    discriminate.
Defined.

(** ** The session clock text *)

Lemma padStart_seconds (k : nat) :
  (k < 60)%nat →
  String.length (Assessment.padStart 2 (Js.toString (Z.of_nat k))) = 2%nat ∧
  allChars Js.is_digit (Assessment.padStart 2 (Js.toString (Z.of_nat k))) = true ∧
  decimalValue (Assessment.padStart 2 (Js.toString (Z.of_nat k))) = Z.of_nat k.
Proof.
  intros Hk. do 60 (destruct k as [|k]; [by vm_compute|]). lia.
Qed.

(** X23. For a natural number of seconds [formatTime] writes the whole
    minutes, a colon and the remaining seconds with exactly two digits;
    read as decimal numerals the two parts give the seconds back. *)
Theorem formatTime_reads_back (seconds : Z) :
  0 <= seconds →
  ∃ mins secs,
    Assessment.formatTime seconds = mins +:+ ":" +:+ secs ∧
    mins ≠ "" ∧ allChars Js.is_digit mins = true ∧
    String.length secs = 2%nat ∧ allChars Js.is_digit secs = true ∧
    decimalValue secs < 60 ∧
    decimalValue mins * 60 + decimalValue secs = seconds.
Proof.
  intros Hs. unfold Assessment.formatTime. rewrite Z.rem_mod_nonneg by lia.
  assert (0 <= seconds `div` 60) as Hm by (apply Z.div_pos; lia).
  destruct (toString_digits (seconds `div` 60) Hm) as (Hne & Hall & Hval).
  pose proof (Z.mod_pos_bound seconds 60 ltac:(lia)) as Hbound.
  destruct (padStart_seconds (Z.to_nat (seconds `mod` 60))) as (Hlen & Hdig & Hdec);
    [lia|].
  rewrite Z2Nat.id in Hlen, Hdig, Hdec by lia.
  eexists _, _. split; [reflexivity|].
  repeat split; try done; rewrite ?Hdec, ?Hval; try lia.
  pose proof (Z.div_mod seconds 60 ltac:(lia)). lia.
Qed.

Lemma formatTime_reads_back_witness :
  Assessment.formatTime 125 = "2:05" ∧
  ∃ mins secs,
    Assessment.formatTime 125 = mins +:+ ":" +:+ secs ∧
    mins ≠ "" ∧ allChars Js.is_digit mins = true ∧
    String.length secs = 2%nat ∧ allChars Js.is_digit secs = true ∧
    decimalValue secs < 60 ∧
    decimalValue mins * 60 + decimalValue secs = 125.
Proof.
  split; [by vm_compute|]. apply (formatTime_reads_back 125). lia.
Defined.

(** ** The shuffle: what decides the arrangement *)

Lemma with_number_content q n :
  Question.with_number (questionContent q) n = Question.with_number q n.
Proof. done. Qed.

(** X24. The arrangement [shuffleQuestions] produces is decided by the
    random values and the number of questions alone: the ids come out
    as the same loop arranges the list of ids. The [number] fields of
    the input play no part in the result, and a list of at most one
    question comes back unchanged but for its number. *)
Theorem shuffleQuestions_arrangement (w : World) (questions : list Question.t) :
  Question.id <$> shuffleQuestions w questions
    = shuffleLoop w 0 (length questions - 1) (Question.id <$> questions) ∧
  (∀ questions',
     questionContent <$> questions' = questionContent <$> questions →
     shuffleQuestions w questions' = shuffleQuestions w questions) ∧
  ((length questions <= 1)%nat → shuffleQuestions w questions = renumber questions).
Proof.
  split; [|split].
  - unfold shuffleQuestions. rewrite fmap_imap, shuffleLoop_fmap.
    rewrite <-(imap_const Question.id (shuffleLoop _ _ _ questions)).
    by apply imap_ext.
  - intros questions' Hcontent.
    assert (length questions' = length questions) as Hlen.
    { by rewrite <-(length_fmap questionContent questions'), Hcontent, length_fmap. }
    unfold shuffleQuestions. rewrite Hlen.
    set (i := (length questions - 1)%nat).
    trans (imap (fun index q => Question.with_number q (Z.of_nat index + 1))
             (questionContent <$> shuffleLoop w 0 i questions')).
    { rewrite imap_fmap. by apply imap_ext. }
    rewrite <-shuffleLoop_fmap, Hcontent, shuffleLoop_fmap, imap_fmap.
    by apply imap_ext.
  - intros Hlen. unfold shuffleQuestions, renumber.
    destruct questions as [|q [|q' l]]; simpl in *; [done|done|lia].
Qed.

Lemma shuffleQuestions_arrangement_witness :
  shuffleQuestions silentWorld [sampleQuestion "q7"]
  = renumber [sampleQuestion "q7"].
Proof.
  apply (proj2 (proj2 (shuffleQuestions_arrangement silentWorld [sampleQuestion "q7"]))).
  simpl. lia.
Defined.

(** ** Extracted concepts *)

Lemma conceptId_backfilled_inj i j :
  "concept_" +:+ Js.toString (Z.of_nat i + 1)
  = "concept_" +:+ Js.toString (Z.of_nat j + 1) → i = j.
Proof.
  unfold Js.toString. intros H.
  apply (inj (String.app "concept_")) in H. apply (inj pretty) in H. lia.
Qed.

(** X25. When the endpoint answers, [extractConcepts] returns one
    concept per concept of the answer, in the same order, each with
    mastery 0, no attempts and no correct answers, whatever the answer
    says; a non-empty id of the answer is kept and a missing or empty
    one is replaced by "concept_" and the 1-based position; when no
    concept of the answer has a usable id the ids made up are pairwise
    different. When the endpoint fails, the call fails with the message
    "Failed to extract concepts from content". *)
Theorem extractConcepts_result (now : string) (subject topic : option string)
        (raw : list RawConcept.t) :
  ∃ concepts,
    extractConcepts (Ok raw) now subject topic = Ok concepts ∧
    length concepts = length raw ∧
    (∀ i e, concepts !! i = Some e →
       Concept.masteryLevel (extracted e) = 0 ∧
       Concept.attempts (extracted e) = 0 ∧
       Concept.correctAnswers (extracted e) = 0 ∧
       ∃ r, raw !! i = Some r ∧
            Concept.name (extracted e) = RawConcept.name r ∧
            Concept.difficulty (extracted e) = RawConcept.difficulty r ∧
            Concept.prerequisites (extracted e) = RawConcept.prerequisites r ∧
            Concept.estimatedTime (extracted e) = RawConcept.estimatedTime r ∧
            (∀ given, RawConcept.id r = Some given → given ≠ "" →
                      Concept.id (extracted e) = given) ∧
            (conceptLacksId r →
             Concept.id (extracted e) = "concept_" +:+ Js.toString (Z.of_nat i + 1))) ∧
    (Forall conceptLacksId raw →
     NoDup ((fun e => Concept.id (extracted e)) <$> concepts)) ∧
    ∀ e, extractConcepts (Err e) now subject topic
         = Err "Failed to extract concepts from content".
Proof.
  eexists. split; [reflexivity|]. split; [by rewrite length_imap|].
  split; [|split; [|done]].
  - intros i e (r & Hr & ->)%list_lookup_imap_Some. cbn.
    repeat split; try done. exists r. repeat split; try done.
    + intros given Hg Hne. unfold conceptId. rewrite Hg. by destruct given.
    + intros [Hn|Hn]; unfold conceptId; by rewrite Hn.
  - intros Hlack. apply NoDup_alt. intros i j x.
    rewrite !list_lookup_fmap, !list_lookup_imap.
    destruct (raw !! i) as [ri|] eqn:Hi; [|done].
    destruct (raw !! j) as [rj|] eqn:Hj; [|done]. cbn.
    assert (∀ k r, raw !! k = Some r →
                   conceptId r k = "concept_" +:+ Js.toString (Z.of_nat k + 1)) as Hid.
    { intros k r Hk. rewrite Forall_lookup in Hlack.
      destruct (Hlack k r Hk) as [Hn|Hn]; unfold conceptId; by rewrite Hn. }
    rewrite (Hid i ri Hi), (Hid j rj Hj). intros [= <-] Heq.
    apply (inj Some) in Heq. symmetry in Heq.
    by apply conceptId_backfilled_inj in Heq.
Qed.

Lemma extractConcepts_result_witness :
  ∃ concepts,
    extractConcepts
      (Ok [RawConcept.mk None "Sets" "" "Beginner" None None None None None None None;
           RawConcept.mk (Some "") "Maps" "" "Beginner" None None None None None None None])
      "2024-01-01T00:00:00.000Z" None None = Ok concepts ∧
    (fun e => Concept.id (extracted e)) <$> concepts = ["concept_1"; "concept_2"] ∧
    NoDup ((fun e => Concept.id (extracted e)) <$> concepts).
Proof.
  destruct (extractConcepts_result "2024-01-01T00:00:00.000Z" None None
              [RawConcept.mk None "Sets" "" "Beginner" None None None None None None None;
               RawConcept.mk (Some "") "Maps" "" "Beginner" None None None None None None None])
    as (concepts & Heq & _ & _ & Hnodup & _).
  exists concepts. split; [exact Heq|]. split.
  - vm_compute in Heq. injection Heq as <-. reflexivity.
  - apply Hnodup. constructor; [by left|]. constructor; [by right|]. constructor.
Defined.

(** ** Sorting again, and the concept that starts unlocked *)

Lemma sort_sorted_id {A} (cmp : A → A → Z) (l : list A) :
  Sorted (not_greater cmp) l → Js.sort cmp l = l.
Proof.
  induction 1 as [|x l Hl IH Hx]; simpl; [done|]. rewrite IH.
  destruct Hx as [|y l' Hxy]; simpl; [done|].
  unfold not_greater in Hxy. by rewrite (proj2 (Z.leb_le _ _) Hxy).
Qed.

(** X26. When no difficulty of the list is the name of a member of
    [Object.prototype], sorting by dependency a second time changes
    nothing, and the concept the pathway unlocks is one of least
    difficulty rank: no concept of the list has a lower rank, and none
    of the same rank has fewer prerequisites. *)
Theorem sortConceptsByDependency_idempotent_least (h : store) (concepts : list loc) :
  Forall (fun c => plainDifficulty (h c)) concepts →
  sortConceptsByDependency h (sortConceptsByDependency h concepts)
    = sortConceptsByDependency h concepts ∧
  (∀ item c,
     pathway (createLearningPathway h (Some concepts)) !! 0%nat = Some item →
     c ∈ concepts →
     isUnlocked item = true ∧
     difficultyRank (concept item) <= difficultyRank (h c) ∧
     (difficultyRank (concept item) = difficultyRank (h c) →
      prereqCount (concept item) <= prereqCount (h c))).
Proof.
  intros Hplain.
  set (cmp := fun a b => compareByRank (h a) (h b)).
  assert (∀ x y, 0 < cmp x y → cmp y x <= 0) as Htot
    by (intros; by apply compareByRank_total).
  assert (∀ x y z, cmp x y <= 0 → cmp y z <= 0 → cmp x z <= 0) as Htr
    by (intros ???; apply compareByRank_trans).
  assert (sortConceptsByDependency h concepts = Js.sort cmp concepts) as Hsort
    by by apply sortConceptsByDependency_plain.
  split.
  - rewrite sortConceptsByDependency_plain.
    + rewrite Hsort. fold cmp. apply sort_sorted_id.
      apply StronglySorted_Sorted. by apply sort_StronglySorted.
    + by rewrite sortConceptsByDependency_perm.
  - intros item c Hitem Hc.
    destruct concepts as [|c0 cs]; [done|].
    rewrite createLearningPathway_nonempty in Hitem by done.
    cbn [pathway] in Hitem. apply list_lookup_imap_Some in Hitem as (first & Hfirst & ->).
    cbn [isUnlocked concept]. split; [done|].
    rewrite Hsort in Hfirst.
    apply (elem_of_sort cmp) in Hc. apply list_elem_of_lookup in Hc as [j Hj].
    destruct j as [|j].
    + assert (first = c) as -> by congruence. lia.
    + pose proof (sort_lookup_le cmp Htot Htr (c0 :: cs) 0%nat (S j) first c
                    ltac:(lia) Hfirst Hj) as Hle.
      apply compareByRank_le in Hle. lia.
Qed.

Lemma sortConceptsByDependency_idempotent_least_witness :
  concept <$> pathway (createLearningPathway sampleStore (Some [0; 1; 2; 3; 4]%nat)) !! 0%nat
    = Some (sampleStore 2%nat) ∧
  difficultyRank (sampleStore 2%nat) <= difficultyRank (sampleStore 0%nat).
Proof.
  split; [by vm_compute|].
  destruct (pathway (createLearningPathway sampleStore (Some [0; 1; 2; 3; 4]%nat)) !! 0%nat)
    as [item|] eqn:Hitem; [|by vm_compute in Hitem].
  assert (concept item = sampleStore 2%nat) as Hc.
  { vm_compute in Hitem. injection Hitem as <-. reflexivity. }
  rewrite <-Hc.
  apply (proj2 (sortConceptsByDependency_idempotent_least sampleStore
                  [0; 1; 2; 3; 4]%nat sample_plain) item 0%nat Hitem).
  apply list_elem_of_In. simpl. tauto.
Defined.

(** ** The adaptive mix: who is asked *)




Lemma calculateDifficultyDistribution_counts_witness :
  calculateDifficultyDistribution sampleStore [4; 3; 2; 1; 0]%nat
  = calculateDifficultyDistribution sampleStore [0; 1; 2; 3; 4]%nat ∧
  calculateDifficultyDistribution sampleStore [0; 1; 2; 3; 4]%nat
  = {| Beginner := 3; Intermediate := 0; Advanced := 1 |}.
Proof.
  split; [|reflexivity].
  apply (calculateDifficultyDistribution_counts sampleStore [0; 1; 2; 3; 4]%nat).
  apply (reverse_Permutation [0; 1; 2; 3; 4]%nat).
Defined.

Lemma findDependencies_sound_witness :
  findDependencies sampleStore (sampleConcept "c9" "Beginner" None None) [0; 1; 2]%nat = [].
Proof.
  apply (findDependencies_sound sampleStore (sampleConcept "c9" "Beginner" None None)
           [0; 1; 2]%nat).
  by left.
Defined.
